(** * ki18n timezone table generators (src/localedata/qgis/TimezoneTableTasks.py)

    A shallow embedding of the three QGIS tasks that generate the timezone
    lookup tables of ki18n, and the properties of the generated tables.

    Modelling conventions.
    - A Python [str] is a Rocq [string] whose characters are code points
      (those below 256); [len] counts code points and [<] is the
      lexicographic order on code points ([String.ltb]).  A file holds the
      UTF-8 encoding [utf8] of the text written to it, so a character that
      is not ASCII takes two bytes of the file.
    - A Python [float] is an IEEE 754 binary64 number, Rocq's primitive
      [float]; true division raises ZeroDivisionError on a zero divisor.
    - A [dict] is an association list in insertion order with unique keys;
      a [set] of [str] is a duplicate-free list, and the order in which a set
      is iterated (it depends on the interpreter's string hashing) is a
      parameter, [HashOrder].
    - An exception is a [Raise e] result; the files written and closed
      before it stay written.  A file is written by a loop that cannot raise
      (shown below), so no run leaves one half written.
    - The geometry engine of the host application (area, intersects,
      intersection) is a parameter, [GeometryEngine]. *)

From Stdlib Require Import List String Ascii ZArith Bool Lia.
From Stdlib Require Import Permutation Sorted DecimalString DecimalZ DecimalPos Floats.
Import ListNotations.

Local Open Scope Z_scope.
Local Open Scope list_scope.

(** ** Python values and builtins *)

Module Py.

Inductive exn : Type :=
| KeyError (key : string)
| IndexError
| ZeroDivisionError.

Inductive result (A : Type) : Type :=
| Ok (a : A)
| Raise (e : exn).

Arguments Ok {A} a.
Arguments Raise {A} e.

Definition bind {A B : Type} (m : result A) (k : A -> result B) : result B :=
  match m with
  | Ok a => k a
  | Raise e => Raise e
  end.

(** [for x in l: acc = body acc x], stopping at the first exception. *)
Fixpoint for_each {A S : Type} (l : list A) (body : S -> A -> result S) (acc : S)
  : result S :=
  match l with
  | [] => Ok acc
  | x :: l' => bind (body acc x) (for_each l' body)
  end.

(** *** str *)

Definition nl : string := String "010" EmptyString.
Definition dq : string := String "034" EmptyString.
Definition nul : string := String "000" EmptyString.

(** [len(s)]: the number of characters (code points) of [s], which is its
    number of bytes only when [s] is ASCII. *)
Definition len (s : string) : Z := Z.of_nat (String.length s).

(** The ASCII characters are the code points below 128. *)
Fixpoint is_ascii (s : string) : bool :=
  match s with
  | EmptyString => true
  | String c s' => (N_of_ascii c <? 128)%N && is_ascii s'
  end.

(** The UTF-8 encoding of a text, the encoding [open(path, 'w')] writes
    with: an ASCII character is one byte, a character from 128 to 255 the
    two bytes 110000xx 10xxxxxx. *)
Definition utf8_char (c : ascii) : string :=
  if (N_of_ascii c <? 128)%N then String c EmptyString
  else String (ascii_of_N (192 + N_of_ascii c / 64))
         (String (ascii_of_N (128 + N_of_ascii c mod 64)) EmptyString).

Fixpoint utf8 (s : string) : string :=
  match s with
  | EmptyString => EmptyString
  | String c s' => (utf8_char c ++ utf8 s')%string
  end.

(** [s.replace(old, new)] for one-character [old] and [new]. *)
Fixpoint replace (old new : ascii) (s : string) : string :=
  match s with
  | EmptyString => EmptyString
  | String c s' => String (if Ascii.eqb c old then new else c) (replace old new s')
  end.

(** [s[:n]] *)
Definition slice_to (n : nat) (s : string) : string := substring 0 n s.

(** [str(z)] and the [{z}] of an f-string, for an [int]. *)
Definition str_of_int (z : Z) : string := NilZero.string_of_int (Z.to_int z).

(** Truth value of a [str]: the empty string is false. *)
Definition truthy (s : string) : bool :=
  match s with
  | EmptyString => false
  | String _ _ => true
  end.

Fixpoint join (l : list string) : string :=
  match l with
  | [] => EmptyString
  | s :: l' => (s ++ join l')%string
  end.

(** *** float *)

(** [a / b] *)
Definition truediv (a b : float) : result float :=
  if PrimFloat.eqb b 0%float then Raise ZeroDivisionError else Ok (PrimFloat.div a b).

(** [a > b] *)
Definition gt (a b : float) : bool := PrimFloat.ltb b a.

(** *** list *)

(** [l[i]] for [0 <= i]. *)
Definition getitem {A : Type} (l : list A) (i : nat) : result A :=
  match nth_error l i with
  | Some x => Ok x
  | None => Raise IndexError
  end.

(** [l[-1]] *)
Fixpoint last_item {A : Type} (l : list A) : result A :=
  match l with
  | [] => Raise IndexError
  | [x] => Ok x
  | _ :: l' => last_item l'
  end.

(** [l.sort()] with [lt] as the elements' [<]: the stable sort, as an
    insertion sort from the right.  On keys that [lt] orders totally the
    result of a stable sort does not depend on the algorithm. *)
Fixpoint insert {A : Type} (lt : A -> A -> bool) (x : A) (l : list A) : list A :=
  match l with
  | [] => [x]
  | y :: l' => if lt y x then y :: insert lt x l' else x :: y :: l'
  end.

Fixpoint sort {A : Type} (lt : A -> A -> bool) (l : list A) : list A :=
  match l with
  | [] => []
  | x :: l' => insert lt x (sort lt l')
  end.

(** [l.sort(key = key, reverse = True)]: descending by key, elements with
    equal keys keeping their order.  This is the result of the interpreter's
    sort when no key is NaN; with a NaN among the keys the comparisons are
    not an order and the interpreter's result depends on its algorithm, so
    what is shown of the order of the result is shown for keys without
    NaN. *)
Definition sort_by_key_reverse {A : Type} (key : A -> float) (l : list A) : list A :=
  sort (fun a b => PrimFloat.ltb (key b) (key a)) l.

(** *** set of str *)

Definition set : Type := list string.

Definition set_contains (s : set) (x : string) : bool :=
  existsb (String.eqb x) s.

Definition set_add (s : set) (x : string) : set :=
  if set_contains s x then s else s ++ [x].

Definition set_remove (s : set) (x : string) : set :=
  filter (fun y => negb (String.eqb x y)) s.

Definition set_len (s : set) : nat := List.length s.

(** [list(s)]: the elements of [s] in the interpreter's iteration order. *)
Record HashOrder : Type := {
  list_of_set : set -> list string;
  list_of_set_perm : forall s, Permutation (list_of_set s) s
}.

(** *** dict with str keys *)

Definition dict (V : Type) : Type := list (string * V).

Fixpoint lookup {V : Type} (d : dict V) (k : string) : option V :=
  match d with
  | [] => None
  | (k', v) :: d' => if String.eqb k k' then Some v else lookup d' k
  end.

(** [k in d] *)
Definition contains {V : Type} (d : dict V) (k : string) : bool :=
  match lookup d k with
  | Some _ => true
  | None => false
  end.

(** [d[k]] *)
Definition dict_get {V : Type} (d : dict V) (k : string) : result V :=
  match lookup d k with
  | Some v => Ok v
  | None => Raise (KeyError k)
  end.

(** [d[k] = v]: a present key keeps its place, a new key goes last. *)
Fixpoint dict_set {V : Type} (d : dict V) (k : string) (v : V) : dict V :=
  match d with
  | [] => [(k, v)]
  | (k', v') :: d' =>
      if String.eqb k k' then (k', v) :: d' else (k', v') :: dict_set d' k v
  end.

(** [list(d)] *)
Definition keys {V : Type} (d : dict V) : list string := map fst d.

End Py.

Import Py.

Notation "x <- m ;; k" := (Py.bind m (fun x => k))
  (at level 61, m at next level, right associativity).

(** ** The host application: geometry, features, layers *)

(** The geometry library of the host application.  [intersects a b] is
    [a.intersects(b)] and [intersection a b] is [a.intersection(b)]. *)
Class GeometryEngine : Type := {
  Geom : Type;
  area : Geom -> float;
  intersects : Geom -> Geom -> bool;
  intersection : Geom -> Geom -> Geom
}.

(** The files a run has written and closed, in order, and what [run]
    returned or raised. *)
Record Outcome (A : Type) : Type := {
  written : list (string * string);
  returned : result A
}.

Arguments written {A} o.
Arguments returned {A} o.

(** ** config.py

    The tables that the tasks import from the configuration module are
    parameters.  [TZID_MAP] and [ISO3166_1_MAP] are used as dictionaries
    ([in] and subscript); [ISO3166_1_DISAMBIGUATION_MAP] is iterated, and
    each element subscripted with 0 and 1: an ordered list of (preferred,
    secondary) country codes. *)
Record Config : Type := {
  TZID_MAP : dict string;
  ISO3166_1_MAP : dict string;
  ISO3166_1_DISAMBIGUATION_MAP : list (string * string)
}.

Definition tzIdToEnum (tzId : string) : string :=
  replace "-" "_" (replace "/" "_" tzId).

Definition normalizedTz (cfg : Config) (tzId : string) : string :=
  if contains (TZID_MAP cfg) tzId then
    match lookup (TZID_MAP cfg) tzId with
    | Some v => v
    | None => tzId
    end
  else tzId.

Definition normalizedCountry (cfg : Config) (code : string) : string :=
  if contains (ISO3166_1_MAP cfg) code then
    match lookup (ISO3166_1_MAP cfg) code with
    | Some v => v
    | None => code
    end
  else code.

(** ** Generated files: shared text *)

Definition line (s : string) : string := (s ++ nl)%string.

Definition license_header : string :=
  join [ line "/*";
         line " * SPDX-License-Identifier: ODbL-1.0";
         line " * SPDX-FileCopyrightText: OpenStreetMap contributors";
         line " *";
         line " * Autogenerated using QGIS - do not edit!";
         line " */";
         line EmptyString ].

Definition include (file : string) : string :=
  line ("#include " ++ dq ++ file ++ dq).

Definition map_includes : string :=
  join [ include "isocodes_p.h"; include "mapentry_p.h"; include "timezone_names_p.h";
         line EmptyString ].

(** [out.seek(out.tell() - 1); out.write(s)]: the last character written
    is overwritten by the first of [s]. *)
Fixpoint drop_last (s : string) : string :=
  match s with
  | EmptyString => EmptyString
  | String c EmptyString => EmptyString
  | String c s' => String c (drop_last s')
  end.

Definition seek_back_write (out s : string) : string := (drop_last out ++ s)%string.

Section Tasks.

Context {engine : GeometryEngine}.

(** A feature of a layer: its geometry and the one attribute the tasks read
    from it ([tzid] in the timezone layer, [ISO3166-1] in the country layer,
    [ISO3166-2] in the subdivision layer; attribute names are looked up
    regardless of case). *)
Record Feature : Type := {
  attr : string;
  geometry : Geom
}.

(** The layers the shared context holds when a task runs. *)
Record Context : Type := {
  tzLayer : list Feature;
  countryLayer : list Feature;
  subdivLayer : list Feature
}.

(** ** TimezoneStringTableTask *)

Definition name_table_path : string := "../../data/timezone_name_table.cpp".
Definition names_path : string := "../../data/timezone_names_p.h".

(** Lines 33-37: the distinct identifiers of the layer, sorted. *)
Definition collect_tzIds (layer : list Feature) : set :=
  fold_left (fun tzIds tz => set_add tzIds (attr tz)) layer [].

Definition sorted_tzIds (h : HashOrder) (layer : list Feature) : list string :=
  sort String.ltb (list_of_set h (collect_tzIds layer)).

(** Lines 38 and 50-52: the offsets list, one append per identifier. *)
Definition string_table_offsets (tzIds : list string) : result (list Z) :=
  for_each tzIds
    (fun offsets tzId =>
       prev <- last_item offsets ;;
       Ok (offsets ++ [prev + len tzId + 1]))
    [0].

Definition name_table_row (tzId : string) : string :=
  line ("    " ++ dq ++ tzId ++ "\0" ++ dq).

(** Lines 40-55. *)
Definition name_table_cpp (tzIds : list string) : string :=
  seek_back_write
    (license_header
     ++ line "static constexpr const char timezone_name_table[] ="
     ++ join (map name_table_row tzIds))
    (line ";").

(** The characters of the literals of [name_table_cpp], the escape [\0]
    read as the null character: each identifier followed by the null
    character its literal ends with.  The array that the file declares holds
    the UTF-8 bytes of these characters, [blob_bytes] below. *)
Definition blob (tzIds : list string) : string :=
  join (map (fun tzId => (tzId ++ nul)%string) tzIds).

(** Lines 72-73: one enumerator per index. *)
Definition enum_entries (tzIds : list string) (offsets : list Z)
  : result (list (string * Z)) :=
  for_each (seq 0 (List.length tzIds))
    (fun entries i =>
       tzId <- getitem tzIds i ;;
       off <- getitem offsets i ;;
       Ok (entries ++ [(tzIdToEnum tzId, off)]))
    [].

(** Line 74. *)
Definition undefined_offset (offsets : list Z) : result Z :=
  prev <- last_item offsets ;;
  Ok (prev - 1).

Definition enum_row (entry : string * Z) : string :=
  line ("    " ++ fst entry ++ " = " ++ str_of_int (snd entry) ++ ",").

(** Lines 57-76. *)
Definition names_p_h (entries : list (string * Z)) (undefined : Z) : string :=
  (license_header
   ++ line "#ifndef TIMEZONE_NAMES_P_H"
   ++ line "#define TIMEZONE_NAMES_P_H"
   ++ line EmptyString
   ++ line "#include <cstdint>"
   ++ line EmptyString
   ++ line "enum Tz : uint16_t {"
   ++ join (map enum_row entries)
   ++ line ("    Undefined = " ++ str_of_int undefined ++ ",")
   ++ line "};" ++ line EmptyString ++ line "#endif")%string.

Definition TimezoneStringTableTask_run (h : HashOrder) (ctx : Context)
  : Outcome bool :=
  let tzIds := sorted_tzIds h (tzLayer ctx) in
  match string_table_offsets tzIds with
  | Raise e => {| written := []; returned := Raise e |}
  | Ok offsets =>
      let table := (name_table_path, name_table_cpp tzIds) in
      match (entries <- enum_entries tzIds offsets ;;
             undefined <- undefined_offset offsets ;;
             Ok (names_p_h entries undefined)) with
      | Raise e => {| written := [table]; returned := Raise e |}
      | Ok names => {| written := [table; (names_path, names)];
                       returned := Ok true |}
      end
  end.

(** ** RegionToTimezoneMapTask *)

Definition country_map_path : string := "../../data/country_timezone_map.cpp".
Definition subdiv_map_path : string := "../../data/subdivision_timezone_map.cpp".

(** The literals 0.01 and 0.1, as the binary64 numbers they denote. *)
Definition ratio_0_01 : float := 0x1.47ae147ae147bp-7%float.
Definition ratio_0_1 : float := 0x1.999999999999ap-4%float.

(** Lines 89-104: the timezones of each country code. *)
Definition country_pass (cfg : Config) (ctx : Context) : result (dict set) :=
  for_each (countryLayer ctx)
    (fun countryToTz country =>
       let countryCode := attr country in
       let countryToTz :=
         if negb (contains countryToTz countryCode)
         then dict_set countryToTz countryCode []
         else countryToTz in
       let countryGeom := geometry country in
       let countryArea := area countryGeom in
       for_each (tzLayer ctx)
         (fun countryToTz tz =>
            let tzId := normalizedTz cfg (attr tz) in
            if intersects (geometry tz) countryGeom then
              let a := area (intersection (geometry tz) countryGeom) in
              tzAreaRatio <- truediv a (area (geometry tz)) ;;
              countryAreaRatio <- truediv a countryArea ;;
              if gt tzAreaRatio ratio_0_01 || gt countryAreaRatio ratio_0_1 then
                tzs <- dict_get countryToTz countryCode ;;
                Ok (dict_set countryToTz countryCode (set_add tzs tzId))
              else Ok countryToTz
            else Ok countryToTz)
         countryToTz)
    [].

(** Lines 120-124: a row (country, enumerator) per country with one timezone. *)
Definition country_rows (h : HashOrder) (countryToTz : dict set)
  : result (list (string * string)) :=
  for_each (sort String.ltb (keys countryToTz))
    (fun rows country =>
       tzs <- dict_get countryToTz country ;;
       if Nat.eqb (set_len tzs) 1 then
         tzs' <- dict_get countryToTz country ;;
         tz <- getitem (list_of_set h tzs') 0 ;;
         Ok (rows ++ [(country, tzIdToEnum tz)])
       else Ok rows)
    [].

Definition country_row (row : string * string) : string :=
  line ("    {IsoCodes::alpha2CodeToKey(" ++ dq ++ fst row ++ dq ++ "), Tz::"
        ++ snd row ++ "},").

(** Lines 106-127. *)
Definition country_timezone_map_cpp (rows : list (string * string)) : string :=
  (license_header ++ map_includes
   ++ line "static constexpr const MapEntry<uint16_t> country_timezone_map[] = {"
   ++ join (map country_row rows)
   ++ line "};")%string.

(** Lines 130-153: for the subdivisions of countries with more than one
    timezone, the timezones of each subdivision code with their summed
    intersection areas. *)
Definition subdiv_pass (cfg : Config) (ctx : Context) (countryToTz : dict set)
  : result (dict (dict float)) :=
  for_each (subdivLayer ctx)
    (fun subdivToTz subdiv =>
       let code := attr subdiv in
       let country := slice_to 2 code in
       tzs <- dict_get countryToTz country ;;
       if Nat.leb (set_len tzs) 1 then Ok subdivToTz
       else
         let subdivToTz :=
           if negb (contains subdivToTz code)
           then dict_set subdivToTz code []
           else subdivToTz in
         let subdivGeom := geometry subdiv in
         let subdivArea := area subdivGeom in
         for_each (tzLayer ctx)
           (fun subdivToTz tz =>
              let tzId := normalizedTz cfg (attr tz) in
              if intersects (geometry tz) subdivGeom then
                let a := area (intersection (geometry tz) subdivGeom) in
                tzAreaRatio <- truediv a (area (geometry tz)) ;;
                subdivAreaRatio <- truediv a subdivArea ;;
                if gt tzAreaRatio ratio_0_01 || gt subdivAreaRatio ratio_0_1 then
                  areas <- dict_get subdivToTz code ;;
                  if negb (contains areas tzId) then
                    Ok (dict_set subdivToTz code (dict_set areas tzId a))
                  else
                    old <- dict_get areas tzId ;;
                    Ok (dict_set subdivToTz code
                          (dict_set areas tzId (PrimFloat.add old a)))
                else Ok subdivToTz
              else Ok subdivToTz)
           subdivToTz)
    [].

Inductive SubdivLine : Type :=
| SubdivRow (subdiv tzEnum : string)
| SubdivPlaceholder (subdiv : string).

(** Line 174: [tzs.sort(key = lambda x: subdivToTz[subdiv][x], reverse = True)];
    the key of every element is computed once, before the sort. *)
Definition sort_tzs_by_area (subdivToTz : dict (dict float)) (subdiv : string)
  (tzs : list string) : result (list string) :=
  keyed <- for_each tzs
             (fun keyed x =>
                areas <- dict_get subdivToTz subdiv ;;
                a <- dict_get areas x ;;
                Ok (keyed ++ [(x, a)]))
             [] ;;
  Ok (map fst (sort_by_key_reverse snd keyed)).

(** Lines 169-178. *)
Definition subdiv_lines (subdivToTz : dict (dict float)) : result (list SubdivLine) :=
  for_each (sort String.ltb (keys subdivToTz))
    (fun lines subdiv =>
       areas <- dict_get subdivToTz subdiv ;;
       tzs <- sort_tzs_by_area subdivToTz subdiv (keys areas) ;;
       let lines := lines ++ map (fun tz => SubdivRow subdiv (tzIdToEnum tz)) tzs in
       areas' <- dict_get subdivToTz subdiv ;;
       if Nat.eqb (List.length areas') 0
       then Ok (lines ++ [SubdivPlaceholder subdiv])
       else Ok lines)
    [].

Definition subdiv_line (l : SubdivLine) : string :=
  match l with
  | SubdivRow subdiv tzEnum =>
      line ("    {IsoCodes::subdivisionCodeToKey(" ++ dq ++ subdiv ++ dq ++ "), Tz::"
            ++ tzEnum ++ "},")
  | SubdivPlaceholder subdiv => line ("    // " ++ subdiv)
  end.

(** Lines 155-181. *)
Definition subdivision_timezone_map_cpp (lines : list SubdivLine) : string :=
  (license_header ++ map_includes
   ++ line "static constexpr const MapEntry<uint32_t> subdivision_timezone_map[] = {"
   ++ join (map subdiv_line lines)
   ++ line "};")%string.

(** The two entries a successful run adds to the shared context. *)
Record RegionMaps : Type := {
  countryToTimezoneMap : dict set;
  subdivisionToTimezoneMap : dict (dict float)
}.

Definition RegionToTimezoneMapTask_run (h : HashOrder) (cfg : Config) (ctx : Context)
  : Outcome RegionMaps :=
  match country_pass cfg ctx with
  | Raise e => {| written := []; returned := Raise e |}
  | Ok countryToTz =>
      match country_rows h countryToTz with
      | Raise e => {| written := []; returned := Raise e |}
      | Ok rows =>
          let countries := (country_map_path, country_timezone_map_cpp rows) in
          match (subdivToTz <- subdiv_pass cfg ctx countryToTz ;;
                 lines <- subdiv_lines subdivToTz ;;
                 Ok (subdivToTz, lines)) with
          | Raise e => {| written := [countries]; returned := Raise e |}
          | Ok (subdivToTz, lines) =>
              {| written := [countries;
                             (subdiv_map_path, subdivision_timezone_map_cpp lines)];
                 returned := Ok {| countryToTimezoneMap := countryToTz;
                                   subdivisionToTimezoneMap := subdivToTz |} |}
          end
      end
  end.

(** ** TimezoneToCountryMapTask *)

Definition tz_country_map_path : string := "../../data/timezone_country_map.cpp".

(** Lines 193-200.  [countries.remove] is reached only for a member. *)
Fixpoint disambiguate_pairs (pairs : list (string * string)) (countries : set) : set :=
  match pairs with
  | [] => countries
  | m :: pairs' =>
      if set_contains countries (fst m) && set_contains countries (snd m)
      then set_remove countries (snd m)
      else disambiguate_pairs pairs' countries
  end.

Definition disambiguateCountries (cfg : Config) (countries : set) : set :=
  if negb (Nat.eqb (set_len countries) 2) then countries
  else disambiguate_pairs (ISO3166_1_DISAMBIGUATION_MAP cfg) countries.

(** Line 211 tests the feature object [tz] against the keys of
    [tzToCountry], which are identifiers: a feature is never equal to a
    [str]. *)
Definition feature_eq_str (tz : Feature) (key : string) : bool := false.

Definition contains_feature {V : Type} (d : dict V) (tz : Feature) : bool :=
  existsb (feature_eq_str tz) (keys d).

(** Lines 206-221: the countries of each timezone identifier. *)
Definition tz_pass (cfg : Config) (ctx : Context) : result (dict set) :=
  for_each (tzLayer ctx)
    (fun tzToCountry tz =>
       let tzId := attr tz in
       let tzGeom := geometry tz in
       let tzArea := area tzGeom in
       let tzToCountry :=
         if negb (contains_feature tzToCountry tz)
         then dict_set tzToCountry tzId []
         else tzToCountry in
       for_each (countryLayer ctx)
         (fun tzToCountry country =>
            let code := normalizedCountry cfg (attr country) in
            if truthy code && intersects (geometry country) tzGeom then
              let a := area (intersection (geometry country) tzGeom) in
              tzAreaRatio <- truediv a tzArea ;;
              countryAreaRatio <- truediv a (area (geometry country)) ;;
              if gt tzAreaRatio ratio_0_01 || gt countryAreaRatio ratio_0_1 then
                countries <- dict_get tzToCountry tzId ;;
                Ok (dict_set tzToCountry tzId (set_add countries code))
              else Ok tzToCountry
            else Ok tzToCountry)
         tzToCountry)
    [].

Inductive TzLine : Type :=
| TzRow (tzEnum country : string)
| TzPlaceholder (tzEnum : string).

(** Lines 237-244. *)
Definition tz_lines (h : HashOrder) (cfg : Config) (tzToCountry : dict set)
  : result (list TzLine) :=
  for_each (sort String.ltb (keys tzToCountry))
    (fun lines tzId =>
       candidates <- dict_get tzToCountry tzId ;;
       let countries := disambiguateCountries cfg candidates in
       if Nat.eqb (set_len countries) 1 then
         country <- getitem (list_of_set h countries) 0 ;;
         Ok (lines ++ [TzRow (tzIdToEnum tzId) country])
       else Ok (lines ++ [TzPlaceholder (tzIdToEnum tzId)]))
    [].

Definition tz_line (l : TzLine) : string :=
  match l with
  | TzRow tzEnum country =>
      line ("    {Tz::" ++ tzEnum ++ ", IsoCodes::alpha2CodeToKey(" ++ dq ++ country
            ++ dq ++ ")},")
  | TzPlaceholder tzEnum => line ("    // Tz::" ++ tzEnum)
  end.

(** Lines 223-246. *)
Definition timezone_country_map_cpp (lines : list TzLine) : string :=
  (license_header ++ map_includes
   ++ line "static constexpr const MapEntry<uint16_t> timezone_country_map[] = {"
   ++ join (map tz_line lines)
   ++ line "};")%string.

Definition TimezoneToCountryMapTask_run (h : HashOrder) (cfg : Config) (ctx : Context)
  : Outcome bool :=
  match (tzToCountry <- tz_pass cfg ctx ;; tz_lines h cfg tzToCountry) with
  | Raise e => {| written := []; returned := Raise e |}
  | Ok lines =>
      {| written := [(tz_country_map_path, timezone_country_map_cpp lines)];
         returned := Ok true |}
  end.

(** ** The shared context

    Each [run] reads its layers from the context dictionary, and a missing
    layer raises the KeyError of its name: line 32; lines 87-88 and, once the
    country table is written, lines 131-132; lines 204-205. *)

Record SharedContext : Type := {
  ctx_tzLayer : option (list Feature);
  ctx_countryLayer : option (list Feature);
  ctx_subdivLayer : option (list Feature)
}.

(** [self.context[key]] *)
Definition context_get {A : Type} (key : string) (entry : option A) : result A :=
  match entry with
  | Some layer => Ok layer
  | None => Raise (KeyError key)
  end.

(** Lines 30-77, from the context dictionary. *)
Definition TimezoneStringTableTask_run_in (h : HashOrder) (shared : SharedContext)
  : Outcome bool :=
  match context_get "tzLayer" (ctx_tzLayer shared) with
  | Raise e => {| written := []; returned := Raise e |}
  | Ok layer =>
      TimezoneStringTableTask_run h
        {| tzLayer := layer; countryLayer := []; subdivLayer := [] |}
  end.

(** Lines 85-185, from the context dictionary: the subdivision layer is
    looked up after the country table is written and closed. *)
Definition RegionToTimezoneMapTask_run_in (h : HashOrder) (cfg : Config)
  (shared : SharedContext) : Outcome RegionMaps :=
  match context_get "countryLayer" (ctx_countryLayer shared) with
  | Raise e => {| written := []; returned := Raise e |}
  | Ok countries =>
  match context_get "tzLayer" (ctx_tzLayer shared) with
  | Raise e => {| written := []; returned := Raise e |}
  | Ok tzs =>
  match (countryToTz <- country_pass cfg
                          {| tzLayer := tzs; countryLayer := countries;
                             subdivLayer := [] |} ;;
         rows <- country_rows h countryToTz ;;
         Ok (countryToTz, rows)) with
  | Raise e => {| written := []; returned := Raise e |}
  | Ok (countryToTz, rows) =>
      let table := (country_map_path, country_timezone_map_cpp rows) in
      match (subdivs <- context_get "subdivLayer" (ctx_subdivLayer shared) ;;
             subdivToTz <- subdiv_pass cfg
                             {| tzLayer := tzs; countryLayer := countries;
                                subdivLayer := subdivs |} countryToTz ;;
             lines <- subdiv_lines subdivToTz ;;
             Ok (subdivToTz, lines)) with
      | Raise e => {| written := [table]; returned := Raise e |}
      | Ok (subdivToTz, lines) =>
          {| written := [table; (subdiv_map_path, subdivision_timezone_map_cpp lines)];
             returned := Ok {| countryToTimezoneMap := countryToTz;
                               subdivisionToTimezoneMap := subdivToTz |} |}
      end
  end
  end
  end.

(** Lines 202-247, from the context dictionary. *)
Definition TimezoneToCountryMapTask_run_in (h : HashOrder) (cfg : Config)
  (shared : SharedContext) : Outcome bool :=
  match context_get "countryLayer" (ctx_countryLayer shared) with
  | Raise e => {| written := []; returned := Raise e |}
  | Ok countries =>
  match context_get "tzLayer" (ctx_tzLayer shared) with
  | Raise e => {| written := []; returned := Raise e |}
  | Ok tzs =>
      TimezoneToCountryMapTask_run h cfg
        {| tzLayer := tzs; countryLayer := countries; subdivLayer := [] |}
  end
  end.

End Tasks.

(** * The vocabulary of the properties *)

(** ** The order on identifiers *)

Module StrOrder.

Definition lt (a b : string) : Prop := String.ltb a b = true.

(** [a] does not come after [b]. *)
Definition le (a b : string) : Prop := String.ltb b a = false.

End StrOrder.

Section Vocabulary.

Context {engine : GeometryEngine}.

(** ** The string table *)

(** The size of the table of [tzIds]: each identifier and its terminator. *)
Fixpoint table_size (tzIds : list string) : Z :=
  match tzIds with
  | [] => 0
  | tzId :: rest => len tzId + 1 + table_size rest
  end.

(** The sum of (length + 1) over the identifiers of [tzIds] that sort
    strictly before [tzId]. *)
Definition size_before (tzId : string) (tzIds : list string) : Z :=
  table_size (filter (fun other => String.ltb other tzId) tzIds).

(** The offsets appended while the identifiers [tzIds] are written, the
    last offset before them being [acc]. *)
Fixpoint running_offsets (acc : Z) (tzIds : list string) : list Z :=
  match tzIds with
  | [] => []
  | tzId :: rest => (acc + len tzId + 1) :: running_offsets (acc + len tzId + 1) rest
  end.

(** The bytes of the array that timezone_name_table.cpp declares. *)
Definition blob_bytes (tzIds : list string) : string := utf8 (blob tzIds).

(** The index in [blob_bytes] at which the bytes of [tzId] start: the
    number of bytes of the identifiers that sort strictly before it, each
    with its terminator. *)
Definition bytes_before (tzId : string) (tzIds : list string) : Z :=
  table_size (map utf8 (filter (fun other => String.ltb other tzId) tzIds)).

(** The enumerators of timezone_names_p.h, [Undefined] apart. *)
Definition enum_names (h : HashOrder) (ctx : Context) : list string :=
  map tzIdToEnum (sorted_tzIds h (tzLayer ctx)).

(** ** The overlap loop

    The three inner loops (lines 96-104, 142-153 and 213-221) have one
    shape: a guard, two divisions of the intersection area, the two
    thresholds, and an update [hit] of one entry of the dictionary. *)

Definition overlap_body {A V : Type} (guard : A -> bool) (num den1 den2 : A -> float)
  (hit : dict V -> A -> result (dict V)) (d : dict V) (x : A) : result (dict V) :=
  if guard x then
    r1 <- truediv (num x) (den1 x) ;;
    r2 <- truediv (num x) (den2 x) ;;
    if gt r1 ratio_0_01 || gt r2 ratio_0_1 then hit d x else Ok d
  else Ok d.

(** The dual-threshold rule, once the divisions are known not to raise. *)
Definition accepted {A : Type} (guard : A -> bool) (num den1 den2 : A -> float) (x : A)
  : bool :=
  guard x &&
  (gt (PrimFloat.div (num x) (den1 x)) ratio_0_01
   || gt (PrimFloat.div (num x) (den2 x)) ratio_0_1).

(** What the overlap loop over [l] can raise: the division by zero of an
    element under the guard. *)
Definition overlap_raises {A : Type} (guard : A -> bool) (den1 den2 : A -> float)
  (l : list A) (e : exn) : Prop :=
  e = ZeroDivisionError /\
  exists x, In x l /\ guard x = true /\
            (PrimFloat.eqb (den1 x) 0 = true \/ PrimFloat.eqb (den2 x) 0 = true).

(** ** Countries and their timezones *)

(** A geometry of area zero: dividing by its area raises. *)
Definition zero_area (g : Geom) : bool := PrimFloat.eqb (area g) 0.

(** The dual-threshold rule for a timezone feature against the geometry of
    a region (a country or a subdivision): the geometries intersect, and the
    intersection covers more than 0.01 of the timezone or more than 0.1 of
    the region. *)
Definition passes (tz : Feature) (region : Geom) : bool :=
  intersects (geometry tz) region &&
  (gt (PrimFloat.div (area (intersection (geometry tz) region)) (area (geometry tz)))
      ratio_0_01
   || gt (PrimFloat.div (area (intersection (geometry tz) region)) (area region))
        ratio_0_1).

(** [t] is a qualifying timezone of the country code [code], over the
    country features [countries]: the normalized identifier of a timezone
    feature that passes the rule against a feature bearing the code. *)
Definition qualifying_tz (cfg : Config) (ctx : Context) (countries : list Feature)
  (code t : string) : Prop :=
  exists country tz,
    In country countries /\ attr country = code /\
    In tz (tzLayer ctx) /\ passes tz (geometry country) = true /\
    normalizedTz cfg (attr tz) = t.

(** What the country pass can raise: the division by zero of lines 101-102,
    for a timezone and a country that intersect, one of them of area zero. *)
Definition country_raises (ctx : Context) (e : exn) : Prop :=
  e = ZeroDivisionError /\
  exists country tz,
    In country (countryLayer ctx) /\ In tz (tzLayer ctx) /\
    intersects (geometry tz) (geometry country) = true /\
    (zero_area (geometry tz) = true \/ zero_area (geometry country) = true).

(** What the dictionary of the country pass holds after the features
    [done]. *)
Definition country_inv (cfg : Config) (ctx : Context) (done : list Feature) (d : dict set)
  : Prop :=
  NoDup (keys d) /\
  (forall code, In code (keys d) <-> In code (map attr done)) /\
  (forall code s, lookup d code = Some s ->
                  NoDup s /\ forall t, In t s <-> qualifying_tz cfg ctx done code t).

(** The rows that the country [code] has in the table. *)
Definition country_rows_of (d : dict set) (code : string) : list (string * string) :=
  match lookup d code with
  | Some [t] => [(code, tzIdToEnum t)]
  | _ => []
  end.

(** ** Subdivisions and their timezones *)

(** The area recorded for a timezone whose matches have the intersection
    areas [areas], in the order they were met: the first is stored, each
    later one is added to the stored sum. *)
Definition cumulative (areas : list float) : option float :=
  fold_left (fun acc a => match acc with
                          | None => Some a
                          | Some old => Some (PrimFloat.add old a)
                          end) areas None.

(** [areas[name x] = val x] for a new name, [areas[name x] += val x] for a
    name already present. *)
Definition add_area {A : Type} (name : A -> string) (val : A -> float)
  (areas : dict float) (x : A) : dict float :=
  dict_set areas (name x)
    (match lookup areas (name x) with
     | None => val x
     | Some old => PrimFloat.add old (val x)
     end).

(** The country of the subdivision code has more than one timezone. *)
Definition multi_tz (countryToTz : dict set) (code : string) : Prop :=
  exists tzs, lookup countryToTz (slice_to 2 code) = Some tzs /\
              (1 < List.length tzs)%nat.

(** [t] is a qualifying timezone of the subdivision code [code]. *)
Definition subdiv_qualifying_tz (cfg : Config) (ctx : Context) (subdivs : list Feature)
  (code t : string) : Prop :=
  exists subdiv tz,
    In subdiv subdivs /\ attr subdiv = code /\
    In tz (tzLayer ctx) /\ passes tz (geometry subdiv) = true /\
    normalizedTz cfg (attr tz) = t.

(** The intersection areas of the matches of timezone [t] with the
    subdivision features bearing [code], in the order of the pass. *)
Definition match_areas (cfg : Config) (ctx : Context) (subdivs : list Feature)
  (code t : string) : list float :=
  flat_map
    (fun subdiv =>
       if String.eqb (attr subdiv) code then
         map (fun tz => area (intersection (geometry tz) (geometry subdiv)))
           (filter (fun tz => passes tz (geometry subdiv)
                              && String.eqb (normalizedTz cfg (attr tz)) t)
              (tzLayer ctx))
       else [])
    subdivs.

(** What the dictionary of the subdivision pass holds after the features
    [done]. *)
Definition subdiv_inv (cfg : Config) (ctx : Context) (countryToTz : dict set)
  (done : list Feature) (d : dict (dict float)) : Prop :=
  NoDup (keys d) /\
  (forall code, In code (keys d) <->
                exists sd, In sd done /\ attr sd = code /\ multi_tz countryToTz code) /\
  (forall code areas, lookup d code = Some areas ->
      NoDup (keys areas) /\
      forall t, lookup areas t = cumulative (match_areas cfg ctx done code t)).

(** What the subdivision pass can raise: the division by zero of lines
    147-148, for a timezone and a subdivision that intersect, one of them of
    area zero; or the KeyError of line 136, for a subdivision whose prefix is
    no key of [countryToTz]. *)
Definition subdiv_raises (ctx : Context) (countryToTz : dict set) (e : exn) : Prop :=
  (e = ZeroDivisionError /\
   exists sd tz,
     In sd (subdivLayer ctx) /\ In tz (tzLayer ctx) /\
     intersects (geometry tz) (geometry sd) = true /\
     (zero_area (geometry tz) = true \/ zero_area (geometry sd) = true)) \/
  exists sd, In sd (subdivLayer ctx) /\ e = KeyError (slice_to 2 (attr sd)) /\
             lookup countryToTz (slice_to 2 (attr sd)) = None.

Definition line_subdiv (l : SubdivLine) : string :=
  match l with
  | SubdivRow subdiv _ => subdiv
  | SubdivPlaceholder subdiv => subdiv
  end.

Definition is_row (l : SubdivLine) : bool :=
  match l with
  | SubdivRow _ _ => true
  | SubdivPlaceholder _ => false
  end.

(** The lines of the table about the subdivision [code]. *)
Definition lines_about (code : string) (lines : list SubdivLine) : list SubdivLine :=
  filter (fun l => String.eqb (line_subdiv l) code) lines.

(** No timezone is followed by one with a larger area. *)
Definition descending_by_area (areas : dict float) (tzs : list string) : Prop :=
  Sorted (fun t1 t2 => forall a1 a2,
              lookup areas t1 = Some a1 -> lookup areas t2 = Some a2 ->
              PrimFloat.ltb a1 a2 = false) tzs.

(** No timezone comes before one with a larger area. *)
Definition pairwise_descending_by_area (areas : dict float) (tzs : list string) : Prop :=
  StronglySorted (fun t1 t2 => forall a1 a2,
                      lookup areas t1 = Some a1 -> lookup areas t2 = Some a2 ->
                      PrimFloat.ltb a1 a2 = false) tzs.

(** Every timezone is followed by one with a smaller area. *)
Definition strictly_descending_by_area (areas : dict float) (tzs : list string) : Prop :=
  Sorted (fun t1 t2 => forall a1 a2,
              lookup areas t1 = Some a1 -> lookup areas t2 = Some a2 ->
              PrimFloat.ltb a2 a1 = true) tzs.

(** The identifiers of a subdivision in the order of their rows. *)
Definition tzs_by_area (areas : dict float) : list string :=
  map fst (sort_by_key_reverse snd areas).

(** The lines that the subdivision [code] has in the table. *)
Definition subdiv_lines_of (d : dict (dict float)) (code : string) : list SubdivLine :=
  match lookup d code with
  | Some areas =>
      map (fun tz => SubdivRow code (tzIdToEnum tz)) (tzs_by_area areas)
      ++ (if Nat.eqb (List.length areas) 0 then [SubdivPlaceholder code] else [])
  | None => []
  end.

(** The data rows of the table for the subdivision [code]. *)
Definition subdiv_data_rows (code : string) (lines : list SubdivLine) : list SubdivLine :=
  filter is_row (lines_about code lines).

(** ** Timezones and their countries *)

(** The test of lines 215-220 for a country feature against the geometry
    of a timezone feature: the normalized code is not empty, the geometries
    intersect, and the intersection covers more than 0.01 of the timezone or
    more than 0.1 of the country. *)
Definition country_passes (cfg : Config) (country : Feature) (tzGeom : Geom) : bool :=
  (truthy (normalizedCountry cfg (attr country))
   && intersects (geometry country) tzGeom) &&
  (gt (PrimFloat.div (area (intersection (geometry country) tzGeom)) (area tzGeom))
      ratio_0_01
   || gt (PrimFloat.div (area (intersection (geometry country) tzGeom))
           (area (geometry country)))
        ratio_0_1).

(** The normalized codes of the countries that pass against one timezone
    feature. *)
Definition countries_of_feature (cfg : Config) (ctx : Context) (tz : Feature) : set :=
  fold_left (fun s country => set_add s (normalizedCountry cfg (attr country)))
    (filter (fun country => country_passes cfg country (geometry tz)) (countryLayer ctx))
    [].

(** The candidate countries of [tzId] as the union over the features
    bearing the identifier: [code] passes against one of them. *)
Definition candidate_of_any_feature (cfg : Config) (ctx : Context) (tzId code : string)
  : Prop :=
  exists tz country,
    In tz (tzLayer ctx) /\ attr tz = tzId /\
    In country (countryLayer ctx) /\ country_passes cfg country (geometry tz) = true /\
    normalizedCountry cfg (attr country) = code.

(** What the timezone pass can raise: the division by zero of lines
    218-219, for a country with a code and a timezone that intersect, one of
    them of area zero. *)
Definition tz_raises (cfg : Config) (ctx : Context) (e : exn) : Prop :=
  e = ZeroDivisionError /\
  exists tz country,
    In tz (tzLayer ctx) /\ In country (countryLayer ctx) /\
    truthy (normalizedCountry cfg (attr country))
    && intersects (geometry country) (geometry tz) = true /\
    (zero_area (geometry tz) = true \/ zero_area (geometry country) = true).

(** What the dictionary holds after the features [done]: for every
    identifier met, the countries of the last feature bearing it. *)
Definition tz_inv (cfg : Config) (ctx : Context) (done : list Feature) (d : dict set)
  : Prop :=
  NoDup (keys d) /\
  (forall k, In k (keys d) <-> In k (map attr done)) /\
  (forall tzId s, lookup d tzId = Some s ->
      exists pre tz post,
        done = pre ++ tz :: post /\ attr tz = tzId /\
        ~ In tzId (map attr post) /\ s = countries_of_feature cfg ctx tz).

(** The line that the identifier [tzId] has in the table. *)
Definition tz_line_of (cfg : Config) (d : dict set) (tzId : string) : TzLine :=
  match lookup d tzId with
  | Some candidates =>
      match disambiguateCountries cfg candidates with
      | [country] => TzRow (tzIdToEnum tzId) country
      | _ => TzPlaceholder (tzIdToEnum tzId)
      end
  | None => TzPlaceholder (tzIdToEnum tzId)
  end.

(** The enumerator a line of the timezone table refers to. *)
Definition tz_line_enum (l : TzLine) : string :=
  match l with
  | TzRow tzEnum _ => tzEnum
  | TzPlaceholder tzEnum => tzEnum
  end.

(** ** Across the tables *)

(** The lines of the three map tables of a run. *)
Definition country_table (h : HashOrder) (cfg : Config) (ctx : Context)
  : result (list (string * string)) :=
  countryToTz <- country_pass cfg ctx ;;
  country_rows h countryToTz.

Definition subdiv_table (cfg : Config) (ctx : Context) : result (list SubdivLine) :=
  countryToTz <- country_pass cfg ctx ;;
  subdivToTz <- subdiv_pass cfg ctx countryToTz ;;
  subdiv_lines subdivToTz.

Definition tz_table (h : HashOrder) (cfg : Config) (ctx : Context) : result (list TzLine) :=
  tzToCountry <- tz_pass cfg ctx ;;
  tz_lines h cfg tzToCountry.

(** Every identifier of the layer has its normalized form in the layer. *)
Definition normalization_closed (cfg : Config) (ctx : Context) : Prop :=
  forall tz, In tz (tzLayer ctx) ->
             In (normalizedTz cfg (attr tz)) (map attr (tzLayer ctx)).

(** The country code [code] has two qualifying timezones or more. *)
Definition several_timezones (cfg : Config) (ctx : Context) (code : string) : Prop :=
  exists t1 t2,
    t1 <> t2 /\
    qualifying_tz cfg ctx (countryLayer ctx) code t1 /\
    qualifying_tz cfg ctx (countryLayer ctx) code t2.

(** An area that is a number other than zero. *)
Definition has_area (a : float) : Prop :=
  PrimFloat.eqb a 0 = false /\ PrimFloat.is_nan a = false.

(** [x] has a place in [l] before a place of [y]. *)
Definition comes_before {A : Type} (x y : A) (l : list A) : Prop :=
  exists l1 l2 l3, l = l1 ++ x :: l2 ++ y :: l3.

(** ** Enumerator names *)

(** What [tzIdToEnum] makes of one character. *)
Definition enum_char (c : ascii) : ascii :=
  if Ascii.eqb c "/" || Ascii.eqb c "-" then "_"%char else c.

(** The values an enumeration of base type uint16_t can hold. *)
Definition fits_uint16 (z : Z) : Prop := 0 <= z < 65536.

End Vocabulary.

(** * A one-dimensional world

    Concrete layers on which the tasks can be run: a geometry is an
    interval of the line, its area is its length, two intervals intersect
    when they share a point, and their intersection is an interval. *)

Module Example.

Local Open Scope string_scope.

Definition fmax (a b : float) : float := if PrimFloat.ltb a b then b else a.
Definition fmin (a b : float) : float := if PrimFloat.ltb a b then a else b.

Definition interval_area (g : float * float) : float :=
  if PrimFloat.ltb (fst g) (snd g) then PrimFloat.sub (snd g) (fst g) else 0%float.

#[export] Instance line_engine : GeometryEngine := {|
  Geom := float * float;
  area := interval_area;
  intersects := fun a b => PrimFloat.leb (fmax (fst a) (fst b)) (fmin (snd a) (snd b));
  intersection := fun a b => (fmax (fst a) (fst b), fmin (snd a) (snd b))
|}.

Definition feature (name : string) (lo hi : float) : Feature :=
  {| attr := name; geometry := (lo, hi) |}.

(** Two interpreters: one iterates a set in insertion order, the other in
    the opposite order. *)
Definition insertion_order : HashOrder :=
  {| list_of_set := fun s => s;
     list_of_set_perm := fun s => Permutation_refl s |}.

Definition reverse_order : HashOrder :=
  {| list_of_set := fun s => rev s;
     list_of_set_perm := fun s => Permutation_sym (Permutation_rev s) |}.

Definition cfg : Config :=
  {| TZID_MAP := [("Asia/Calcutta", "Asia/Kolkata")];
     ISO3166_1_MAP := [("AX", "FI")];
     ISO3166_1_DISAMBIGUATION_MAP := [("DE", "CH"); ("FR", "MC")] |}.

(** Germany and Switzerland with one timezone each, the United States
    with two; a subdivision of the United States outside every timezone. *)
Definition world : Context :=
  {| tzLayer := [feature "Europe/Berlin" 0 100; feature "America/New_York" 200 300;
                 feature "America/Chicago" 300 400; feature "Europe/Zurich" 100 110];
     countryLayer := [feature "US" 200 400; feature "DE" 0 100; feature "CH" 100 110];
     subdivLayer := [feature "US-NY" 200 300; feature "US-IL" 280 400;
                     feature "DE-BY" 0 50; feature "US-GU" 500 600] |}.

(** Two timezones that cover equal parts of one subdivision. *)
Definition tie : Context :=
  {| tzLayer := [feature "America/Denver" 0 50; feature "America/Phoenix" 50 100];
     countryLayer := [feature "US" 0 100];
     subdivLayer := [feature "US-AZ" 0 100] |}.

(** A subdivision of a country that the country layer does not have. *)
Definition unknown_prefix : Context :=
  {| tzLayer := [feature "Europe/Berlin" 0 100];
     countryLayer := [feature "DE" 0 100];
     subdivLayer := [feature "ZZ-01" 0 100] |}.

(** A timezone made of two features, only the first of which lies in a
    country. *)
Definition two_parts : Context :=
  {| tzLayer := [feature "Europe/Berlin" 0 100; feature "Europe/Berlin" 500 600];
     countryLayer := [feature "DE" 0 100];
     subdivLayer := [] |}.

(** A layer that has a deprecated identifier and not its canonical name. *)
Definition deprecated_only : Context :=
  {| tzLayer := [feature "Asia/Calcutta" 0 100];
     countryLayer := [feature "IN" 0 100];
     subdivLayer := [] |}.

(** A layer with an identifier that is not ASCII: the [u] with diaeresis
    of [Europe/Zurich] in its German spelling is the code point 252. *)
Definition zurich : string := "Europe/Z" ++ String "252" "rich".

Definition non_ascii : Context :=
  {| tzLayer := [feature zurich 100 110; feature "Pacific/Apia" 0 100];
     countryLayer := [];
     subdivLayer := [] |}.

(** A timezone shared by two countries of the disambiguation list. *)
Definition shared : Context :=
  {| tzLayer := [feature "Europe/Busingen" 0 100];
     countryLayer := [feature "CH" 0 40; feature "DE" 30 100];
     subdivLayer := [] |}.

End Example.

(** * Properties *)

(** ** The order on identifiers *)

Module StrOrderFacts.

Import StrOrder.

Lemma compare_refl (s : string) : String.compare s s = Eq.
Proof.
  induction s as [|c s IH]; simpl; [reflexivity|].
  unfold Ascii.compare. now rewrite N.compare_refl.
Qed.

Lemma compare_lt_trans (a b c : string) :
  String.compare a b = Lt -> String.compare b c = Lt -> String.compare a c = Lt.
Proof.
  revert b c. induction a as [|x a IH]; intros [|y b] [|z c]; simpl;
    try discriminate; try reflexivity.
  unfold Ascii.compare.
  destruct (N.compare_spec (N_of_ascii x) (N_of_ascii y)) as [Exy|Lxy|Gxy];
    try discriminate;
    destruct (N.compare_spec (N_of_ascii y) (N_of_ascii z)) as [Eyz|Lyz|Gyz];
    try discriminate; intros Hab Hbc.
  - rewrite Exy, Eyz, N.compare_refl. eauto.
  - rewrite Exy. now apply N.compare_lt_iff in Lyz as ->.
  - rewrite <- Eyz. now apply N.compare_lt_iff in Lxy as ->.
  - assert (H : (N_of_ascii x < N_of_ascii z)%N) by (eapply N.lt_trans; eauto).
    now apply N.compare_lt_iff in H as ->.
Qed.

Lemma ltb_irrefl (s : string) : String.ltb s s = false.
Proof. unfold String.ltb. now rewrite compare_refl. Qed.

Lemma ltb_trans (a b c : string) : lt a b -> lt b c -> lt a c.
Proof.
  unfold lt, String.ltb. intros Hab Hbc.
  destruct (String.compare a b) eqn:Eab; try discriminate.
  destruct (String.compare b c) eqn:Ebc; try discriminate.
  now rewrite (compare_lt_trans a b c).
Qed.

Lemma ltb_asym (a b : string) : lt a b -> String.ltb b a = false.
Proof.
  unfold lt, String.ltb. rewrite (String.compare_antisym b a).
  destruct (String.compare a b); simpl; congruence.
Qed.

Lemma ltb_total (a b : string) :
  String.ltb a b = false -> String.ltb b a = false -> a = b.
Proof.
  unfold String.ltb. rewrite (String.compare_antisym b a).
  destruct (String.compare a b) eqn:E; simpl; try discriminate.
  intros _ _. now apply String.compare_eq_iff.
Qed.

Lemma le_trans (a b c : string) : le a b -> le b c -> le a c.
Proof.
  unfold le. intros Hab Hbc.
  destruct (String.ltb c a) eqn:Hca; [|reflexivity].
  destruct (String.ltb a b) eqn:Hab'.
  - assert (H : lt c b) by (eapply ltb_trans; eauto). congruence.
  - assert (a = b) by now apply ltb_total. subst. congruence.
Qed.

Lemma le_antisym (a b : string) : le a b -> le b a -> a = b.
Proof. unfold le. intros. now apply ltb_total. Qed.

Lemma le_neq_lt (a b : string) : le a b -> a <> b -> lt a b.
Proof.
  unfold le, lt. intros Hle Hne.
  destruct (String.ltb a b) eqn:E; [reflexivity|].
  exfalso. apply Hne. now apply ltb_total.
Qed.

End StrOrderFacts.

(** ** [sort] *)

Section SortFacts.

Context {A : Type} (ltb : A -> A -> bool).

Lemma insert_perm (x : A) (l : list A) : Permutation (insert ltb x l) (x :: l).
Proof.
  induction l as [|y l IH]; simpl; [reflexivity|].
  destruct (ltb y x); [|reflexivity].
  rewrite IH. apply perm_swap.
Qed.

Lemma sort_perm (l : list A) : Permutation (sort ltb l) l.
Proof.
  induction l as [|x l IH]; simpl; [reflexivity|].
  rewrite insert_perm. now constructor.
Qed.

Lemma sort_In (l : list A) (x : A) : In x (sort ltb l) <-> In x l.
Proof.
  split; apply Permutation_in; [|symmetry]; apply sort_perm.
Qed.

Lemma sort_length (l : list A) : List.length (sort ltb l) = List.length l.
Proof. apply Permutation_length, sort_perm. Qed.

(** Adjacent elements of an insertion are never in the wrong order: this
    needs only that [ltb] is asymmetric. *)
Hypothesis ltb_asym : forall a b, ltb a b = true -> ltb b a = false.

Let notafter (a b : A) : Prop := ltb b a = false.

Lemma insert_sorted (x : A) (l : list A) :
  Sorted notafter l -> Sorted notafter (insert ltb x l).
Proof.
  induction 1 as [|y l Hs IH Hhd]; simpl; [repeat constructor|].
  destruct (ltb y x) eqn:E.
  - constructor; [exact IH|].
    destruct Hhd as [|z l Hyz]; simpl.
    + constructor. now apply ltb_asym.
    + destruct (ltb z x); constructor; [exact Hyz | now apply ltb_asym].
  - constructor; [now constructor | constructor; exact E].
Qed.

Lemma sort_sorted (l : list A) : Sorted notafter (sort ltb l).
Proof.
  induction l as [|x l IH]; simpl; [constructor | now apply insert_sorted].
Qed.

End SortFacts.

Section SortStrings.

Lemma sort_str_sorted (l : list string) : StronglySorted StrOrder.le (sort String.ltb l).
Proof.
  apply Sorted_StronglySorted.
  - intros a b c. apply StrOrderFacts.le_trans.
  - apply (sort_sorted String.ltb). intros a b. apply StrOrderFacts.ltb_asym.
Qed.

Lemma sorted_perm_eq (l1 l2 : list string) :
  StronglySorted StrOrder.le l1 -> StronglySorted StrOrder.le l2 ->
  Permutation l1 l2 -> l1 = l2.
Proof.
  intros H1. revert l2. induction H1 as [|a l1 Hs1 IH Ha]; intros l2 H2 Hp.
  - now apply Permutation_nil in Hp.
  - destruct H2 as [|b l2 Hs2 Hb].
    + symmetry in Hp. now apply Permutation_nil in Hp.
    + assert (a = b).
      { assert (Hin1 : In a (b :: l2)) by (eapply Permutation_in; [exact Hp | now left]).
        assert (Hin2 : In b (a :: l1))
          by (eapply Permutation_in; [symmetry; exact Hp | now left]).
        destruct Hin1 as [->|Hin1]; [reflexivity|].
        destruct Hin2 as [->|Hin2]; [reflexivity|].
        rewrite Forall_forall in Ha, Hb.
        apply StrOrderFacts.le_antisym; auto. }
      subst b. f_equal. apply IH; [exact Hs2|].
      now apply Permutation_cons_inv in Hp.
Qed.

(** Sorting forgets the order in which the elements came. *)
Lemma sort_str_perm_eq (l1 l2 : list string) :
  Permutation l1 l2 -> sort String.ltb l1 = sort String.ltb l2.
Proof.
  intros Hp. apply sorted_perm_eq; try apply sort_str_sorted.
  rewrite !sort_perm. exact Hp.
Qed.

Lemma sort_str_strict (l : list string) :
  NoDup l -> StronglySorted StrOrder.lt (sort String.ltb l).
Proof.
  intros Hnd.
  assert (Hnd' : NoDup (sort String.ltb l)).
  { eapply Permutation_NoDup; [symmetry; apply sort_perm | exact Hnd]. }
  pose proof (sort_str_sorted l) as Hs.
  induction Hs as [|a l' Hs IH Ha]; constructor.
  - apply IH. now inversion Hnd'.
  - inversion Hnd' as [|? ? Hni _]; subst.
    rewrite Forall_forall in *. intros b Hb.
    apply StrOrderFacts.le_neq_lt; [now apply Ha|]. intros ->. contradiction.
Qed.

End SortStrings.

(** ** Loops, lists and strings *)

Lemma last_item_snoc {A : Type} (l : list A) (x : A) : last_item (l ++ [x]) = Ok x.
Proof.
  induction l as [|y l IH]; simpl; [reflexivity|].
  destruct (l ++ [x]) eqn:E; [now destruct l | exact IH].
Qed.

Lemma nth_error_skipn {A : Type} (l : list A) (i : nat) (x : A) :
  nth_error l i = Some x -> skipn i l = x :: skipn (Datatypes.S i) l.
Proof.
  revert i. induction l as [|y l IH]; intros [|i] H; simpl in *; try discriminate.
  - now injection H as ->.
  - now apply IH.
Qed.

Lemma nth_error_split_firstn {A : Type} (l : list A) (i : nat) (x : A) :
  nth_error l i = Some x -> l = firstn i l ++ x :: skipn (Datatypes.S i) l.
Proof.
  intros H. rewrite <- (nth_error_skipn l i x H). symmetry. apply firstn_skipn.
Qed.

Lemma string_length_app (a b : string) :
  String.length (a ++ b) = (String.length a + String.length b)%nat.
Proof. induction a as [|c a IH]; simpl; [reflexivity | now rewrite IH]. Qed.

Lemma string_app_assoc (a b c : string) : ((a ++ b) ++ c = a ++ (b ++ c))%string.
Proof. induction a as [|x a IH]; simpl; [reflexivity | now rewrite IH]. Qed.

Lemma substring_prefix (m r : string) :
  substring 0 (String.length m) (m ++ r) = m.
Proof.
  induction m as [|c m IH]; simpl.
  - now destruct r.
  - now rewrite IH.
Qed.

Lemma substring_middle (p m r : string) :
  substring (String.length p) (String.length m) (p ++ m ++ r) = m.
Proof.
  induction p as [|c p IH]; simpl; [apply substring_prefix | exact IH].
Qed.

Lemma join_app (l1 l2 : list string) : join (l1 ++ l2) = (join l1 ++ join l2)%string.
Proof.
  induction l1 as [|s l1 IH]; simpl; [reflexivity|].
  now rewrite IH, string_app_assoc.
Qed.


(** ** Sets *)

Lemma set_contains_In (s : set) (x : string) : set_contains s x = true <-> In x s.
Proof.
  unfold set_contains. rewrite existsb_exists. split.
  - intros (y & Hy & E). apply String.eqb_eq in E. now subst.
  - intros H. exists x. split; [exact H | apply String.eqb_refl].
Qed.

Lemma set_contains_not_In (s : set) (x : string) : set_contains s x = false <-> ~ In x s.
Proof.
  rewrite <- set_contains_In. destruct (set_contains s x); split; congruence.
Qed.

Lemma set_add_In (s : set) (x y : string) : In y (set_add s x) <-> y = x \/ In y s.
Proof.
  unfold set_add. destruct (set_contains s x) eqn:E.
  - apply set_contains_In in E. split; [now right | intros [->|H]; assumption].
  - rewrite in_app_iff. simpl. split; [intros [H|[H|[]]] | intros [H|H]]; auto.
Qed.

Lemma set_add_NoDup (s : set) (x : string) : NoDup s -> NoDup (set_add s x).
Proof.
  intros Hnd. unfold set_add. destruct (set_contains s x) eqn:E; [exact Hnd|].
  apply set_contains_not_In in E.
  apply NoDup_app; [exact Hnd | repeat constructor; intros [] | ].
  intros y Hy [<-|[]]. contradiction.
Qed.

Lemma set_remove_In (s : set) (x y : string) : In y (set_remove s x) <-> In y s /\ y <> x.
Proof.
  unfold set_remove. rewrite filter_In, negb_true_iff, String.eqb_neq.
  split; intros [H1 H2]; split; auto.
Qed.

Lemma list_of_set_singleton (h : HashOrder) (x : string) : list_of_set h [x] = [x].
Proof. apply Permutation_length_1_inv. symmetry. apply list_of_set_perm. Qed.

(** ** The string table *)

Section StringTable.

Context {engine : GeometryEngine}.

Lemma collect_tzIds_spec (layer : list Feature) :
  NoDup (collect_tzIds layer) /\
  forall s, In s (collect_tzIds layer) <-> exists tz, In tz layer /\ attr tz = s.
Proof.
  unfold collect_tzIds.
  assert (G : forall (acc : set),
             NoDup acc ->
             NoDup (fold_left (fun tzIds tz => set_add tzIds (attr tz)) layer acc) /\
             forall s, In s (fold_left (fun tzIds tz => set_add tzIds (attr tz)) layer acc)
                       <-> In s acc \/ exists tz, In tz layer /\ attr tz = s).
  { induction layer as [|tz layer IH]; intros acc Hnd; simpl.
    - split; [exact Hnd|]. intros s. split; [now left | intros [H|(tz & [] & _)]; exact H].
    - destruct (IH (set_add acc (attr tz)) (set_add_NoDup _ _ Hnd)) as [H1 H2].
      split; [exact H1|]. intros s. rewrite H2, set_add_In. split.
      + intros [[->|H]|(tz' & Hin & E)]; eauto.
      + intros [H|(tz' & [->|Hin] & E)]; eauto. }
  destruct (G [] (NoDup_nil _)) as [H1 H2]. split; [exact H1|].
  intros s. rewrite H2. split; [intros [[]|H]; exact H | now right].
Qed.

Lemma sorted_tzIds_strict (h : HashOrder) (layer : list Feature) :
  StronglySorted StrOrder.lt (sorted_tzIds h layer).
Proof.
  apply sort_str_strict.
  eapply Permutation_NoDup; [symmetry; apply list_of_set_perm|].
  apply collect_tzIds_spec.
Qed.

Lemma sorted_tzIds_In (h : HashOrder) (layer : list Feature) (s : string) :
  In s (sorted_tzIds h layer) <-> exists tz, In tz layer /\ attr tz = s.
Proof.
  unfold sorted_tzIds. rewrite sort_In.
  rewrite <- (proj2 (collect_tzIds_spec layer)).
  split; apply Permutation_in; [|symmetry]; apply list_of_set_perm.
Qed.

Lemma string_table_offsets_run (tzIds : list string) (offsets : list Z) (acc : Z) :
  for_each tzIds
    (fun offsets tzId => prev <- last_item offsets ;; Ok (offsets ++ [prev + len tzId + 1]))
    (offsets ++ [acc])
  = Ok (offsets ++ acc :: running_offsets acc tzIds).
Proof.
  revert offsets acc. induction tzIds as [|tzId rest IH]; intros offsets acc; simpl.
  - reflexivity.
  - rewrite last_item_snoc. simpl. rewrite IH. now rewrite <- app_assoc.
Qed.

Lemma string_table_offsets_eq (tzIds : list string) :
  string_table_offsets tzIds = Ok (0 :: running_offsets 0 tzIds).
Proof. apply (string_table_offsets_run tzIds [] 0). Qed.

Lemma running_offsets_length (acc : Z) (tzIds : list string) :
  List.length (running_offsets acc tzIds) = List.length tzIds.
Proof.
  revert acc. induction tzIds as [|x l IH]; intros acc; simpl; [reflexivity|].
  now rewrite IH.
Qed.

Lemma running_offsets_nth (tzIds : list string) (acc : Z) (i : nat) :
  (i <= List.length tzIds)%nat ->
  nth_error (acc :: running_offsets acc tzIds) i = Some (acc + table_size (firstn i tzIds)).
Proof.
  revert acc i. induction tzIds as [|x l IH]; intros acc [|i] Hi; simpl in *;
    try (f_equal; lia).
  rewrite IH by lia. f_equal. lia.
Qed.

Lemma running_offsets_last (tzIds : list string) (acc : Z) :
  last_item (acc :: running_offsets acc tzIds) = Ok (acc + table_size tzIds).
Proof.
  revert acc. induction tzIds as [|x l IH]; intros acc.
  - simpl. f_equal. lia.
  - change (running_offsets acc (x :: l))
      with ((acc + len x + 1) :: running_offsets (acc + len x + 1) l).
    change (last_item (acc :: (acc + len x + 1) :: running_offsets (acc + len x + 1) l))
      with (last_item ((acc + len x + 1) :: running_offsets (acc + len x + 1) l)).
    rewrite IH. simpl. f_equal. lia.
Qed.

Lemma enum_entries_run (tzIds : list string) (offsets : list Z) :
  forall (m k : nat) (acc : list (string * Z)),
    (k + m = List.length tzIds)%nat ->
    (List.length tzIds <= List.length offsets)%nat ->
    for_each (seq k m)
      (fun entries i =>
         tzId <- getitem tzIds i ;;
         off <- getitem offsets i ;;
         Ok (entries ++ [(tzIdToEnum tzId, off)]))
      acc
    = Ok (acc ++ combine (map tzIdToEnum (skipn k tzIds)) (skipn k offsets)).
Proof.
  induction m as [|m IH]; intros k acc Hk Hlen; simpl.
  - rewrite skipn_all2 by lia. simpl. now rewrite app_nil_r.
  - destruct (nth_error tzIds k) as [x|] eqn:Ex;
      [|apply nth_error_None in Ex; lia].
    destruct (nth_error offsets k) as [o|] eqn:Eo;
      [|apply nth_error_None in Eo; lia].
    unfold getitem at 1 2. rewrite Ex, Eo. simpl.
    rewrite IH by lia.
    rewrite (nth_error_skipn _ _ _ Ex), (nth_error_skipn _ _ _ Eo). simpl.
    now rewrite <- app_assoc.
Qed.

Lemma enum_entries_eq (tzIds : list string) (offsets : list Z) :
  (List.length tzIds <= List.length offsets)%nat ->
  enum_entries tzIds offsets = Ok (combine (map tzIdToEnum tzIds) offsets).
Proof.
  intros H. unfold enum_entries.
  now rewrite (enum_entries_run tzIds offsets (List.length tzIds) 0 []).
Qed.

Lemma combine_nth_error {X Y : Type} (l1 : list X) (l2 : list Y) (i : nat) (x : X) (y : Y) :
  nth_error l1 i = Some x -> nth_error l2 i = Some y ->
  nth_error (combine l1 l2) i = Some (x, y).
Proof.
  revert l2 i. induction l1 as [|a l1 IH]; intros [|b l2] [|i] H1 H2; simpl in *;
    try discriminate.
  - now injection H1 as ->; injection H2 as ->.
  - now apply IH.
Qed.

Lemma strict_sorted_filter_before (l : list string) (i : nat) (x : string) :
  StronglySorted StrOrder.lt l -> nth_error l i = Some x ->
  filter (fun other => String.ltb other x) l = firstn i l.
Proof.
  intros Hs. revert i. induction Hs as [|a l Hs IH Ha]; intros [|i] Hi; simpl in *;
    try discriminate.
  - injection Hi as ->. rewrite StrOrderFacts.ltb_irrefl.
    rewrite Forall_forall in Ha.
    clear IH Hs. induction l as [|b l IHl]; simpl; [reflexivity|].
    rewrite (StrOrderFacts.ltb_asym x b) by (apply Ha; now left).
    apply IHl. intros y Hy. apply Ha. now right.
  - rewrite Forall_forall in Ha.
    rewrite (Ha x) by (eapply nth_error_In; eauto).
    f_equal. now apply IH.
Qed.

Lemma blob_length (tzIds : list string) :
  Z.of_nat (String.length (blob tzIds)) = table_size tzIds.
Proof.
  unfold blob. induction tzIds as [|x l IH]; simpl; [reflexivity|].
  rewrite !string_length_app, !Nat2Z.inj_add, IH. unfold len. simpl. lia.
Qed.

Lemma blob_substring (tzIds : list string) (i : nat) (x : string) :
  nth_error tzIds i = Some x ->
  substring (Z.to_nat (table_size (firstn i tzIds))) (Datatypes.S (String.length x))
    (blob tzIds)
  = (x ++ nul)%string.
Proof.
  intros Hi. rewrite <- blob_length, Nat2Z.id.
  rewrite (nth_error_split_firstn _ _ _ Hi) at 2.
  unfold blob. rewrite map_app, join_app. simpl.
  replace (Datatypes.S (String.length x)) with (String.length (x ++ nul)%string)
    by (rewrite string_length_app; simpl; lia).
  apply substring_middle.
Qed.

End StringTable.

Section StringTableProperties.

Context {engine : GeometryEngine}.


Lemma string_table_run_eq (h : HashOrder) (ctx : Context) :
  let tzIds := sorted_tzIds h (tzLayer ctx) in
  TimezoneStringTableTask_run h ctx =
  {| written := [(name_table_path, name_table_cpp tzIds);
                 (names_path,
                  names_p_h (combine (map tzIdToEnum tzIds) (0 :: running_offsets 0 tzIds))
                    (table_size tzIds - 1))];
     returned := Ok true |}.
Proof.
  intros tzIds. unfold TimezoneStringTableTask_run. fold tzIds.
  rewrite string_table_offsets_eq.
  rewrite enum_entries_eq by (simpl; rewrite running_offsets_length; lia).
  unfold undefined_offset. rewrite running_offsets_last. reflexivity.
Qed.

(** For every identifier of the timezone layer, deduplicated and
    sorted, the enumeration entry at its index carries its symbolic name
    ([/] and [-] replaced by [_]) and, as offset, the sum of (length + 1)
    over the identifiers that sort strictly before it; the table holds the
    identifier and its terminating null character at exactly that offset. *)
Lemma enum_offsets_spec (h : HashOrder) (ctx : Context) :
  let tzIds := sorted_tzIds h (tzLayer ctx) in
  (forall s, In s tzIds <-> exists tz, In tz (tzLayer ctx) /\ attr tz = s) /\
  StronglySorted StrOrder.lt tzIds /\
  exists offsets entries undefined,
    string_table_offsets tzIds = Ok offsets /\
    enum_entries tzIds offsets = Ok entries /\
    written (TimezoneStringTableTask_run h ctx)
      = [(name_table_path, name_table_cpp tzIds);
         (names_path, names_p_h entries undefined)] /\
    List.length entries = List.length tzIds /\
    forall i tzId,
      nth_error tzIds i = Some tzId ->
      nth_error entries i = Some (tzIdToEnum tzId, size_before tzId tzIds) /\
      substring (Z.to_nat (size_before tzId tzIds)) (Datatypes.S (String.length tzId))
        (blob tzIds) = (tzId ++ nul)%string.
Proof.
  intros tzIds.
  pose proof (sorted_tzIds_strict h (tzLayer ctx)) as Hsorted. fold tzIds in Hsorted.
  split; [intros s; apply sorted_tzIds_In|]. split; [exact Hsorted|].
  exists (0 :: running_offsets 0 tzIds),
         (combine (map tzIdToEnum tzIds) (0 :: running_offsets 0 tzIds)),
         (table_size tzIds - 1).
  assert (Hlen : (List.length tzIds <= List.length (0%Z :: running_offsets 0%Z tzIds))%nat)
    by (simpl; rewrite running_offsets_length; lia).
  split; [apply string_table_offsets_eq|].
  split; [now apply enum_entries_eq|].
  split; [now rewrite (string_table_run_eq h ctx)|].
  split.
  { rewrite length_combine, length_map. simpl. rewrite running_offsets_length. lia. }
  intros i tzId Hi.
  unfold size_before. rewrite (strict_sorted_filter_before _ _ _ Hsorted Hi).
  split.
  - apply combine_nth_error.
    + now rewrite nth_error_map, Hi.
    + rewrite running_offsets_nth; [reflexivity|].
      apply Nat.lt_le_incl. apply nth_error_Some. congruence.
  - now apply blob_substring.
Qed.


End StringTableProperties.

(** ** Dictionaries *)

Section DictFacts.

Context {V : Type}.

Lemma lookup_dict_set (d : dict V) (k k' : string) (v : V) :
  lookup (dict_set d k v) k' = if String.eqb k' k then Some v else lookup d k'.
Proof.
  induction d as [|[k0 v0] d IH]; simpl.
  - reflexivity.
  - destruct (String.eqb k k0) eqn:E; simpl.
    + apply String.eqb_eq in E. subst k0.
      destruct (String.eqb k' k); reflexivity.
    + destruct (String.eqb k' k0) eqn:E'; [|exact IH].
      apply String.eqb_eq in E'. subst k0.
      rewrite String.eqb_sym, E. reflexivity.
Qed.

Lemma lookup_dict_set_eq (d : dict V) (k : string) (v : V) :
  lookup (dict_set d k v) k = Some v.
Proof. now rewrite lookup_dict_set, String.eqb_refl. Qed.

Lemma lookup_dict_set_neq (d : dict V) (k k' : string) (v : V) :
  k' <> k -> lookup (dict_set d k v) k' = lookup d k'.
Proof.
  intros H. rewrite lookup_dict_set. now apply String.eqb_neq in H as ->.
Qed.

Lemma lookup_None_keys (d : dict V) (k : string) : lookup d k = None <-> ~ In k (keys d).
Proof.
  induction d as [|[k0 v0] d IH]; simpl.
  - tauto.
  - destruct (String.eqb k k0) eqn:E.
    + apply String.eqb_eq in E. subst. split; [discriminate | intros H; exfalso; auto].
    + apply String.eqb_neq in E. rewrite IH. split; [intros H [H'|H'] | intros H H'];
        auto; congruence.
Qed.

Lemma lookup_Some_keys (d : dict V) (k : string) :
  (exists v, lookup d k = Some v) <-> In k (keys d).
Proof.
  destruct (lookup d k) eqn:E.
  - split; [intros _|eauto].
    destruct (in_dec string_dec k (keys d)) as [H|H]; [exact H|].
    apply lookup_None_keys in H. congruence.
  - split; [intros [v Hv]; discriminate|].
    intros H. now apply lookup_None_keys in E.
Qed.

Lemma contains_keys (d : dict V) (k : string) : contains d k = true <-> In k (keys d).
Proof.
  unfold contains. rewrite <- lookup_Some_keys.
  destruct (lookup d k); split; eauto; try discriminate. intros [v Hv]. discriminate.
Qed.

Lemma keys_dict_set (d : dict V) (k : string) (v : V) :
  keys (dict_set d k v) = if contains d k then keys d else keys d ++ [k].
Proof.
  unfold contains.
  induction d as [|[k0 v0] d IH]; simpl; [reflexivity|].
  destruct (String.eqb k k0) eqn:E; simpl; [reflexivity|].
  unfold keys in *. rewrite IH. now destruct (lookup d k).
Qed.

Lemma keys_dict_set_present (d : dict V) (k : string) (v v0 : V) :
  lookup d k = Some v0 -> keys (dict_set d k v) = keys d.
Proof. intros H. rewrite keys_dict_set. unfold contains. now rewrite H. Qed.

Lemma dict_set_NoDup (d : dict V) (k : string) (v : V) :
  NoDup (keys d) -> NoDup (keys (dict_set d k v)).
Proof.
  intros H. rewrite keys_dict_set. destruct (contains d k) eqn:E; [exact H|].
  apply NoDup_app; [exact H | repeat constructor; intros [] |].
  intros x Hx [<-|[]]. apply contains_keys in Hx. congruence.
Qed.

Lemma dict_set_set (d : dict V) (k : string) (v v' : V) :
  dict_set (dict_set d k v) k v' = dict_set d k v'.
Proof.
  induction d as [|[k0 v0] d IH]; simpl.
  - now rewrite String.eqb_refl.
  - destruct (String.eqb k k0) eqn:E; simpl; rewrite E; [reflexivity | now rewrite IH].
Qed.

Lemma dict_set_same (d : dict V) (k : string) (v : V) :
  lookup d k = Some v -> dict_set d k v = d.
Proof.
  induction d as [|[k0 v0] d IH]; simpl; [discriminate|].
  destruct (String.eqb k k0) eqn:E.
  - intros [= ->]. reflexivity.
  - intros H. now rewrite IH.
Qed.

Lemma dict_get_Ok (d : dict V) (k : string) (v : V) :
  lookup d k = Some v -> dict_get d k = Ok v.
Proof. unfold dict_get. now intros ->. Qed.

Lemma In_lookup (d : dict V) (k : string) (v : V) :
  NoDup (keys d) -> In (k, v) d -> lookup d k = Some v.
Proof.
  induction d as [|[k0 v0] d IH]; simpl; [tauto|].
  intros Hnd [[= -> ->]|Hin].
  - now rewrite String.eqb_refl.
  - inversion Hnd as [|? ? Hni Hnd']; subst.
    destruct (String.eqb k k0) eqn:E; [|now apply IH].
    apply String.eqb_eq in E. subst. exfalso. apply Hni.
    change (In (fst (k0, v)) (map fst d)). now apply in_map.
Qed.

End DictFacts.

(** ** The overlap loop *)

Section OverlapLoop.

Context {A V : Type}.
Variables (guard : A -> bool) (num den1 den2 : A -> float) (key : string).
Variable hit : dict V -> A -> result (dict V).
Variable upd : V -> A -> V.

Hypothesis hit_spec :
  forall d v x, lookup d key = Some v -> hit d x = Ok (dict_set d key (upd v x)).

Lemma overlap_raises_cons (x : A) (l : list A) (e : exn) :
  overlap_raises guard den1 den2 l e -> overlap_raises guard den1 den2 (x :: l) e.
Proof.
  intros (He & y & Hy & H). split; [exact He|]. exists y. split; [now right | exact H].
Qed.

Lemma overlap_loop_spec (l : list A) :
  forall (d : dict V) (v : V),
    lookup d key = Some v ->
    match for_each l (overlap_body guard num den1 den2 hit) d with
    | Ok d' => d' = dict_set d key (fold_left upd (filter (accepted guard num den1 den2) l) v)
    | Raise e => overlap_raises guard den1 den2 l e
    end.
Proof.
  induction l as [|x l IH]; intros d v Hv; simpl.
  - symmetry. now apply dict_set_same.
  - assert (Htail : forall d0 v0, lookup d0 key = Some v0 ->
              match for_each l (overlap_body guard num den1 den2 hit) d0 with
              | Ok d' => d' = dict_set d0 key
                              (fold_left upd (filter (accepted guard num den1 den2) l) v0)
              | Raise e => overlap_raises guard den1 den2 (x :: l) e
              end).
    { intros d0 v0 H0. specialize (IH d0 v0 H0).
      destruct (for_each l (overlap_body guard num den1 den2 hit) d0);
        [exact IH | now apply overlap_raises_cons]. }
    unfold overlap_body at 1. unfold accepted at 1, truediv.
    destruct (guard x) eqn:G; simpl; [|now apply Htail].
    destruct (PrimFloat.eqb (den1 x) 0) eqn:E1; simpl.
    { split; [reflexivity|]. exists x. split; [now left|]. auto. }
    destruct (PrimFloat.eqb (den2 x) 0) eqn:E2; simpl.
    { split; [reflexivity|]. exists x. split; [now left|]. auto. }
    destruct (gt (PrimFloat.div (num x) (den1 x)) ratio_0_01
              || gt (PrimFloat.div (num x) (den2 x)) ratio_0_1); simpl;
      [|now apply Htail].
    rewrite (hit_spec d v x Hv). simpl.
    specialize (Htail (dict_set d key (upd v x)) (upd v x) (lookup_dict_set_eq _ _ _)).
    destruct (for_each l (overlap_body guard num den1 den2 hit) (dict_set d key (upd v x)));
      [|exact Htail].
    now rewrite Htail, dict_set_set.
Qed.

End OverlapLoop.

Section LoopOutcome.

Context {A S : Type}.

(** An invariant of the state indexed by the visited elements, together
    with a description of the exceptions the body can raise. *)
Lemma for_each_outcome (Inv : list A -> S -> Prop) (E : exn -> Prop)
  (body : S -> A -> result S) :
  forall (l pre : list A) (acc : S),
    Inv pre acc ->
    (forall done x s, Inv done s -> In x l ->
       match body s x with
       | Ok s' => Inv (done ++ [x]) s'
       | Raise e => E e
       end) ->
    match for_each l body acc with
    | Ok r => Inv (pre ++ l) r
    | Raise e => E e
    end.
Proof.
  induction l as [|x l IH]; intros pre acc Hacc Hstep; simpl.
  - now rewrite app_nil_r.
  - pose proof (Hstep pre x acc Hacc (or_introl eq_refl)) as Hx.
    destruct (body acc x) as [s'|e]; simpl; [|exact Hx].
    replace (pre ++ x :: l) with ((pre ++ [x]) ++ l) by now rewrite <- app_assoc.
    apply IH; [exact Hx|].
    intros done y s Hs Hy. apply Hstep; [exact Hs | now right].
Qed.

(** A loop that appends the lines of each element. *)
Lemma for_each_flat_map {B : Type} (f : A -> list B) (body : list B -> A -> result (list B)) :
  forall (l : list A) (acc : list B),
    (forall rows x, In x l -> body rows x = Ok (rows ++ f x)) ->
    for_each l body acc = Ok (acc ++ flat_map f l).
Proof.
  induction l as [|x l IH]; intros acc Hbody; simpl.
  - now rewrite app_nil_r.
  - rewrite Hbody by now left. simpl.
    rewrite IH by (intros rows y Hy; apply Hbody; now right).
    now rewrite <- app_assoc.
Qed.

End LoopOutcome.

Lemma fold_set_add_spec {A : Type} (f : A -> string) (l : list A) (s0 : set) :
  NoDup s0 ->
  NoDup (fold_left (fun s x => set_add s (f x)) l s0) /\
  forall t, In t (fold_left (fun s x => set_add s (f x)) l s0)
            <-> In t s0 \/ exists x, In x l /\ f x = t.
Proof.
  revert s0. induction l as [|x l IH]; intros s0 Hnd; simpl.
  - split; [exact Hnd|]. intros t. split; [now left | intros [H|(x & [] & _)]; exact H].
  - destruct (IH (set_add s0 (f x)) (set_add_NoDup _ _ Hnd)) as [H1 H2].
    split; [exact H1|]. intros t. rewrite H2, set_add_In. split.
    + intros [[->|H]|(y & Hy & E)]; eauto.
    + intros [H|(y & [->|Hy] & E)]; eauto.
Qed.

(** ** Countries and their timezones *)

Section CountryPass.

Context {engine : GeometryEngine}.
Variables (cfg : Config) (ctx : Context).

Lemma qualifying_tz_snoc (done : list Feature) (c : Feature) (code t : string) :
  qualifying_tz cfg ctx (done ++ [c]) code t <->
  qualifying_tz cfg ctx done code t \/
  (attr c = code /\ exists tz, In tz (tzLayer ctx) /\ passes tz (geometry c) = true /\
                               normalizedTz cfg (attr tz) = t).
Proof.
  unfold qualifying_tz. split.
  - intros (c' & tz & Hc & Hcode & Htz & Hp & Ht).
    apply in_app_iff in Hc as [Hc|[<-|[]]]; [left | right]; eauto 10.
  - intros [(c' & tz & Hc & H)|(Hcode & tz & H)].
    + exists c', tz. split; [apply in_app_iff; now left | exact H].
    + exists c, tz. split; [apply in_app_iff; right; now left | tauto].
Qed.

Lemma country_pass_outcome :
  match country_pass cfg ctx with
  | Ok d => country_inv cfg ctx (countryLayer ctx) d
  | Raise e => country_raises ctx e
  end.
Proof.
  unfold country_pass.
  apply (for_each_outcome (country_inv cfg ctx) (country_raises ctx) _
           (countryLayer ctx) [] []).
  { repeat split; simpl; try tauto; try constructor; discriminate. }
  intros done c d (Hnd & Hkeys & Hsets) Hcin.
  set (code := attr c).
  set (d1 := if negb (contains d code) then dict_set d code [] else d).
  assert (H1 : exists s0, lookup d1 code = Some s0 /\ NoDup s0 /\
                 (forall t, In t s0 <-> qualifying_tz cfg ctx done code t) /\
                 NoDup (keys d1) /\
                 (forall k, In k (keys d1) <-> In k (keys d) \/ k = code) /\
                 (forall k, k <> code -> lookup d1 k = lookup d k)).
  { unfold d1. destruct (contains d code) eqn:Ec; simpl.
    - apply contains_keys in Ec. pose proof Ec as Ec'.
      apply lookup_Some_keys in Ec as (s0 & Hs0).
      destruct (Hsets code s0 Hs0) as [Hn Hq].
      exists s0. split; [exact Hs0|]. split; [exact Hn|]. split; [exact Hq|].
      split; [exact Hnd|]. split; [|reflexivity].
      intros k. split; [now left | intros [H| ->]; assumption].
    - exists []. rewrite lookup_dict_set_eq. split; [reflexivity|].
      split; [constructor|]. split.
      + intros t. split; [intros []|].
        intros (c' & tz & Hc & Hcode & _). exfalso.
        assert (Hin : In code (keys d)) by (apply Hkeys; rewrite <- Hcode; now apply in_map).
        apply contains_keys in Hin. congruence.
      + split; [now apply dict_set_NoDup|]. split.
        * intros k. rewrite keys_dict_set, Ec, in_app_iff. simpl. intuition.
        * intros k Hk. now apply lookup_dict_set_neq. }
  destruct H1 as (s0 & Hs0 & Hnd0 & Hq0 & Hnd1 & Hkeys1 & Hother).
  pose proof (overlap_loop_spec
                (fun tz : Feature => intersects (geometry tz) (geometry c))
                (fun tz => area (intersection (geometry tz) (geometry c)))
                (fun tz => area (geometry tz))
                (fun _ => area (geometry c))
                code
                (fun d tz => tzs <- dict_get d code ;;
                             Ok (dict_set d code (set_add tzs (normalizedTz cfg (attr tz)))))
                (fun s tz => set_add s (normalizedTz cfg (attr tz)))
                (fun d v x Hv => f_equal (fun r => Py.bind r _) (dict_get_Ok d code v Hv))
                (tzLayer ctx) d1 s0 Hs0) as Hloop.
  unfold overlap_body in Hloop.
  match goal with
  | |- match ?run with _ => _ end =>
      match type of Hloop with
      | match ?run' with _ => _ end => change run with run'
      end
  end.
  destruct (for_each (tzLayer ctx) _ d1) as [d'|e].
  2:{ destruct Hloop as (He & tz & Htz & Hg & Hz). split; [exact He|].
      exists c, tz. split; [exact Hcin|]. split; [exact Htz|]. split; [exact Hg | exact Hz]. }
  subst d'.
  match goal with
  | |- country_inv _ _ _ (dict_set d1 code ?S') => set (S1 := S')
  end.
  destruct (fold_set_add_spec (fun tz : Feature => normalizedTz cfg (attr tz))
              (filter (accepted
                         (fun tz : Feature => intersects (geometry tz) (geometry c))
                         (fun tz => area (intersection (geometry tz) (geometry c)))
                         (fun tz => area (geometry tz))
                         (fun _ => area (geometry c))) (tzLayer ctx))
              s0 Hnd0) as [HndS HinS].
  fold S1 in HndS, HinS.
  split; [|split].
  - rewrite (keys_dict_set_present d1 code S1 s0 Hs0). exact Hnd1.
  - intros k. rewrite (keys_dict_set_present d1 code S1 s0 Hs0), Hkeys1, Hkeys.
    rewrite map_app, in_app_iff. simpl. fold code. intuition.
  - intros k s. rewrite lookup_dict_set.
    destruct (String.eqb k code) eqn:Ek.
    + apply String.eqb_eq in Ek. subst k. intros [= <-]. split; [exact HndS|].
      intros t. rewrite HinS, qualifying_tz_snoc, Hq0. fold code.
      split.
      * intros [H|(tz & Htz & Ht)]; [now left|]. right. split; [reflexivity|].
        apply filter_In in Htz as [Htz Hacc]. exists tz. repeat split; assumption.
      * intros [H|(_ & tz & Htz & Hp & Ht)]; [now left|]. right.
        exists tz. split; [|exact Ht]. apply filter_In. split; assumption.
    + apply String.eqb_neq in Ek. rewrite (Hother k Ek). intros Hs.
      destruct (Hsets k s Hs) as [Hn Hq]. split; [exact Hn|].
      intros t. rewrite Hq, qualifying_tz_snoc. fold code. split; [now left|].
      intros [H|(Hc & _)]; [exact H | congruence].
Qed.

End CountryPass.

(** ** Tables written from a dictionary, a key at a time *)

Section KeyedLines.

Context {B : Type}.
Variable key_of : B -> string.
Variable f : string -> list B.
Hypothesis f_key : forall k b, In b (f k) -> key_of b = k.

Lemma flat_map_filter_key (l : list string) (k : string) :
  NoDup l -> In k l ->
  filter (fun b => String.eqb (key_of b) k) (flat_map f l) = f k.
Proof.
  assert (Hall : forall k', filter (fun b => String.eqb (key_of b) k') (f k') = f k').
  { intros k'. apply forallb_filter_id. apply forallb_forall. intros b Hb.
    apply String.eqb_eq. now apply f_key. }
  assert (Hnone : forall k' l', ~ In k' l' ->
                    filter (fun b => String.eqb (key_of b) k') (flat_map f l') = []).
  { intros k' l' Hni. induction l' as [|a l' IH]; simpl; [reflexivity|].
    rewrite filter_app, IH by (intros H; apply Hni; now right).
    rewrite app_nil_r.
    assert (Ha : a <> k') by (intros ->; apply Hni; now left).
    clear -Ha f_key. generalize (f_key a). induction (f a) as [|b bs IHb]; simpl; intros Hk;
      [reflexivity|].
    rewrite (Hk b) by now left. apply String.eqb_neq in Ha. rewrite Ha.
    apply IHb. intros b' Hb'. apply Hk. now right. }
  induction l as [|a l IH]; intros Hnd Hin; [destruct Hin|].
  destruct Hin as [->|Hin]; simpl; rewrite filter_app;
    inversion Hnd as [|? ? Hni Hnd']; subst.
  - now rewrite Hall, Hnone, app_nil_r.
  - assert (Ha : a <> k) by (intros ->; contradiction).
    rewrite IH by assumption.
    replace (filter (fun b => String.eqb (key_of b) k) (f a)) with (@nil B); [reflexivity|].
    symmetry. generalize (f_key a). induction (f a) as [|b bs IHb]; simpl; intros Hk;
      [reflexivity|].
    rewrite (Hk b) by now left. apply String.eqb_neq in Ha. rewrite Ha.
    apply IHb. intros b' Hb'. apply Hk. now right.
Qed.

Lemma flat_map_key_In (l : list string) (b : B) :
  In b (flat_map f l) -> In (key_of b) l /\ In b (f (key_of b)).
Proof.
  rewrite in_flat_map. intros (k & Hk & Hb).
  rewrite (f_key k b Hb). now split.
Qed.

Lemma flat_map_keys_sorted (R : string -> string -> Prop) (l : list string) :
  (forall a, R a a) ->
  StronglySorted R l -> StronglySorted R (map key_of (flat_map f l)).
Proof.
  intros Rrefl Hs. induction Hs as [|a l Hs IH Ha]; simpl; [constructor|].
  rewrite map_app.
  assert (Hrest : Forall (R a) (map key_of (flat_map f l))).
  { rewrite Forall_forall in *. intros k Hk. apply in_map_iff in Hk as (b & <- & Hb).
    apply Ha. now apply flat_map_key_In. }
  generalize (f_key a). induction (f a) as [|b bs IHb]; simpl; intros Hk; [exact IH|].
  constructor; [apply IHb; intros b' Hb'; apply Hk; now right|].
  rewrite (Hk b) by now left.
  apply Forall_app. split; [|exact Hrest].
  rewrite Forall_forall. intros k Hk'. apply in_map_iff in Hk' as (b' & <- & Hb').
  rewrite (Hk b') by now right. apply Rrefl.
Qed.

(** With at most one line per key, a strict order of the keys is kept. *)
Lemma flat_map_keys_strict (R : string -> string -> Prop) (l : list string) :
  (forall k, (List.length (f k) <= 1)%nat) ->
  StronglySorted R l -> StronglySorted R (map key_of (flat_map f l)).
Proof.
  intros Hone Hs. induction Hs as [|a l Hs IH Ha]; simpl; [constructor|].
  rewrite map_app.
  assert (Hrest : Forall (R a) (map key_of (flat_map f l))).
  { rewrite Forall_forall in *. intros k Hk. apply in_map_iff in Hk as (b & <- & Hb).
    apply Ha. now apply flat_map_key_In. }
  pose proof (Hone a) as Hlen. pose proof (f_key a) as Hk.
  destruct (f a) as [|b [|b' bs]]; simpl in *; [exact IH | | lia].
  constructor; [exact IH|]. now rewrite (Hk b) by now left.
Qed.

End KeyedLines.

Section CountryRows.

Context {engine : GeometryEngine}.

Lemma country_rows_of_key (d : dict set) (k : string) (row : string * string) :
  In row (country_rows_of d k) -> fst row = k.
Proof.
  unfold country_rows_of. destruct (lookup d k) as [[|t [|t' s]]|]; simpl; try tauto.
  now intros [<-|[]].
Qed.

Lemma country_rows_eq (h : HashOrder) (d : dict set) :
  country_rows h d = Ok (flat_map (country_rows_of d) (sort String.ltb (keys d))).
Proof.
  unfold country_rows.
  apply (for_each_flat_map (country_rows_of d)).
  intros rows code Hcode. apply sort_In in Hcode.
  apply lookup_Some_keys in Hcode as (s & Hs).
  unfold country_rows_of. rewrite (dict_get_Ok d code s Hs), Hs. simpl.
  destruct s as [|t [|t' s]]; simpl; try now rewrite app_nil_r.
  now rewrite list_of_set_singleton.
Qed.

Lemma NoDup_singleton_iff (s : set) (t : string) :
  NoDup s -> (forall x, In x s <-> x = t) -> s = [t].
Proof.
  intros Hnd H. destruct s as [|a s].
  - exfalso. now apply (proj2 (H t)).
  - assert (a = t) by (apply H; now left). subst a.
    destruct s as [|b s]; [reflexivity|].
    assert (b = t) by (apply H; right; now left). subst b.
    inversion Hnd as [|? ? Hni _]. exfalso. apply Hni. now left.
Qed.

Lemma strict_sorted_NoDup (l : list string) : StronglySorted StrOrder.lt l -> NoDup l.
Proof.
  induction 1 as [|a l Hs IH Ha]; constructor; [|exact IH].
  intros Hin. rewrite Forall_forall in Ha. specialize (Ha a Hin).
  unfold StrOrder.lt in Ha. now rewrite StrOrderFacts.ltb_irrefl in Ha.
Qed.

(** After a country pass that raised nothing: a country whose
    qualifying timezones are exactly one has exactly one row, mapping its
    code to that timezone; a country with no qualifying timezone, or with
    two or more, has no row; and the rows are sorted by country code. *)
Lemma country_rows_spec (h : HashOrder) (cfg : Config) (ctx : Context)
  (countryToTz : dict set) :
  country_pass cfg ctx = Ok countryToTz ->
  exists rows,
    country_rows h countryToTz = Ok rows /\
    hd_error (written (RegionToTimezoneMapTask_run h cfg ctx))
      = Some (country_map_path, country_timezone_map_cpp rows) /\
    (forall country tz,
        In country (countryLayer ctx) ->
        (forall t, qualifying_tz cfg ctx (countryLayer ctx) (attr country) t <-> t = tz) ->
        filter (fun row => String.eqb (fst row) (attr country)) rows
          = [(attr country, tzIdToEnum tz)]) /\
    (forall country,
        In country (countryLayer ctx) ->
        (forall t, ~ qualifying_tz cfg ctx (countryLayer ctx) (attr country) t) \/
        (exists t1 t2, t1 <> t2 /\
                       qualifying_tz cfg ctx (countryLayer ctx) (attr country) t1 /\
                       qualifying_tz cfg ctx (countryLayer ctx) (attr country) t2) ->
        forall row, In row rows -> fst row <> attr country) /\
    StronglySorted StrOrder.lt (map fst rows).
Proof.
  intros Hpass.
  pose proof (country_pass_outcome cfg ctx) as Hinv. rewrite Hpass in Hinv.
  destruct Hinv as (Hnd & Hkeys & Hsets).
  assert (Hsorted : StronglySorted StrOrder.lt (sort String.ltb (keys countryToTz)))
    by now apply sort_str_strict.
  exists (flat_map (country_rows_of countryToTz) (sort String.ltb (keys countryToTz))).
  split; [apply country_rows_eq|].
  split.
  { unfold RegionToTimezoneMapTask_run. rewrite Hpass, country_rows_eq.
    destruct (subdiv_pass cfg ctx countryToTz) as [sd|e]; simpl; [|reflexivity].
    destruct (subdiv_lines sd); reflexivity. }
  assert (Hlook : forall country, In country (countryLayer ctx) ->
                    exists s, lookup countryToTz (attr country) = Some s).
  { intros country Hc. apply lookup_Some_keys, Hkeys. now apply in_map. }
  split; [|split].
  - intros country tz Hc Hq.
    rewrite (flat_map_filter_key fst (country_rows_of countryToTz)
               (country_rows_of_key countryToTz)).
    + destruct (Hlook country Hc) as (s & Hs). unfold country_rows_of. rewrite Hs.
      destruct (Hsets _ _ Hs) as [Hns Hin].
      rewrite (NoDup_singleton_iff s tz Hns); [reflexivity|].
      intros x. now rewrite Hin.
    + now apply strict_sorted_NoDup.
    + apply sort_In, Hkeys. now apply in_map.
  - intros country Hc Hq row Hrow Hfst.
    apply (flat_map_key_In fst (country_rows_of countryToTz)
             (country_rows_of_key countryToTz)) in Hrow as [_ Hrow].
    rewrite Hfst in Hrow. unfold country_rows_of in Hrow.
    destruct (Hlook country Hc) as (s & Hs). rewrite Hs in Hrow.
    destruct (Hsets _ _ Hs) as [Hns Hin].
    destruct s as [|t [|t' s]]; simpl in Hrow; try tauto.
    destruct Hq as [Hzero|(t1 & t2 & Hne & H1 & H2)].
    + apply (Hzero t), Hin. now left.
    + apply Hin in H1, H2. destruct H1 as [<-|[]], H2 as [<-|[]]. congruence.
  - apply (flat_map_keys_strict fst (country_rows_of countryToTz)
             (country_rows_of_key countryToTz)); [|exact Hsorted].
    intros k. unfold country_rows_of.
    destruct (lookup countryToTz k) as [[|t [|t' s]]|]; simpl; lia.
Qed.

End CountryRows.

(** ** Subdivisions and their timezones *)

Lemma cumulative_nil_iff (areas : list float) : cumulative areas = None <-> areas = [].
Proof.
  unfold cumulative. destruct areas as [|a l]; simpl; [tauto|].
  split; [|discriminate]. intros H. exfalso. revert a H.
  induction l as [|b l IH]; intros a; simpl; [discriminate | apply IH].
Qed.

Section AreaDict.

Context {A : Type}.
Variables (name : A -> string) (val : A -> float).

Lemma add_area_fold_lookup (l : list A) (t : string) :
  forall areas0,
    lookup (fold_left (add_area name val) l areas0) t
    = fold_left (fun acc a => match acc with
                              | None => Some a
                              | Some old => Some (PrimFloat.add old a)
                              end)
        (map val (filter (fun x => String.eqb (name x) t) l))
        (lookup areas0 t).
Proof.
  induction l as [|x l IH]; intros areas0; simpl; [reflexivity|].
  rewrite IH. unfold add_area. rewrite lookup_dict_set.
  rewrite (String.eqb_sym t (name x)).
  destruct (String.eqb (name x) t) eqn:E; simpl; [|reflexivity].
  apply String.eqb_eq in E. subst t. now destruct (lookup areas0 (name x)).
Qed.

Lemma add_area_fold_NoDup (l : list A) :
  forall areas0, NoDup (keys areas0) -> NoDup (keys (fold_left (add_area name val) l areas0)).
Proof.
  induction l as [|x l IH]; intros areas0 H; simpl; [exact H|].
  apply IH. now apply dict_set_NoDup.
Qed.

End AreaDict.

Lemma filter_filter {A : Type} (p q : A -> bool) (l : list A) :
  filter q (filter p l) = filter (fun x => p x && q x) l.
Proof.
  induction l as [|x l IH]; simpl; [reflexivity|].
  destruct (p x); simpl; [destruct (q x); now rewrite IH | exact IH].
Qed.

Section SubdivPass.

Context {engine : GeometryEngine}.
Variables (cfg : Config) (ctx : Context) (countryToTz : dict set).

Lemma match_areas_snoc (done : list Feature) (sd : Feature) (code t : string) :
  match_areas cfg ctx (done ++ [sd]) code t
  = match_areas cfg ctx done code t
    ++ (if String.eqb (attr sd) code then
          map (fun tz => area (intersection (geometry tz) (geometry sd)))
            (filter (fun tz => passes tz (geometry sd)
                               && String.eqb (normalizedTz cfg (attr tz)) t)
               (tzLayer ctx))
        else []).
Proof. unfold match_areas. rewrite flat_map_app. simpl. now rewrite app_nil_r. Qed.

Lemma match_areas_qualifying (subdivs : list Feature) (code t : string) :
  match_areas cfg ctx subdivs code t <> [] <-> subdiv_qualifying_tz cfg ctx subdivs code t.
Proof.
  unfold match_areas, subdiv_qualifying_tz. split.
  - intros H.
    destruct (flat_map _ subdivs) as [|a l] eqn:E; [congruence|].
    assert (Ha : In a (flat_map
                         (fun subdiv =>
                            if String.eqb (attr subdiv) code then
                              map (fun tz => area (intersection (geometry tz) (geometry subdiv)))
                                (filter (fun tz => passes tz (geometry subdiv)
                                           && String.eqb (normalizedTz cfg (attr tz)) t)
                                   (tzLayer ctx))
                            else []) subdivs)) by (rewrite E; now left).
    apply in_flat_map in Ha as (sd & Hsd & Ha).
    destruct (String.eqb (attr sd) code) eqn:Ec; [|destruct Ha].
    apply in_map_iff in Ha as (tz & _ & Htz).
    apply filter_In in Htz as [Htz Hp]. apply andb_true_iff in Hp as [Hp Ht].
    apply String.eqb_eq in Ec, Ht. eauto 10.
  - intros (sd & tz & Hsd & Hcode & Htz & Hp & Ht) E.
    assert (Ha : In (area (intersection (geometry tz) (geometry sd)))
                   (flat_map
                      (fun subdiv =>
                         if String.eqb (attr subdiv) code then
                           map (fun tz => area (intersection (geometry tz) (geometry subdiv)))
                             (filter (fun tz => passes tz (geometry subdiv)
                                        && String.eqb (normalizedTz cfg (attr tz)) t)
                                (tzLayer ctx))
                         else []) subdivs)).
    { apply in_flat_map. exists sd. split; [exact Hsd|].
      apply String.eqb_eq in Hcode. rewrite Hcode.
      apply in_map_iff. exists tz. split; [reflexivity|].
      apply filter_In. split; [exact Htz|].
      rewrite Hp. simpl. now apply String.eqb_eq. }
    rewrite E in Ha. destruct Ha.
Qed.

Lemma subdiv_pass_outcome :
  match subdiv_pass cfg ctx countryToTz with
  | Ok d => subdiv_inv cfg ctx countryToTz (subdivLayer ctx) d
  | Raise e => subdiv_raises ctx countryToTz e
  end.
Proof.
  unfold subdiv_pass.
  apply (for_each_outcome (subdiv_inv cfg ctx countryToTz)
           (subdiv_raises ctx countryToTz) _ (subdivLayer ctx) [] []).
  { split; [constructor|]. split.
    - intros code. simpl. split; [tauto | intros (sd & [] & _)].
    - intros code areas. discriminate. }
  intros done sd d (Hnd & Hkeys & Hareas) Hsd.
  set (code := attr sd).
  unfold dict_get at 1.
  destruct (lookup countryToTz (slice_to 2 code)) as [tzs|] eqn:Etzs; simpl;
    [|right; exists sd; auto].
  destruct (Nat.leb (set_len tzs) 1) eqn:Elen.
  - (* a country with at most one timezone: the subdivision is skipped *)
    apply Nat.leb_le in Elen.
    assert (Hnot : ~ multi_tz countryToTz code).
    { intros (tzs' & H1 & H2). rewrite Etzs in H1. injection H1 as <-.
      unfold set_len in Elen. lia. }
    split; [exact Hnd|]. split.
    + intros k. rewrite Hkeys. split.
      * intros (sd' & Hin & H). exists sd'. split; [apply in_app_iff; now left | exact H].
      * intros (sd' & Hin & Hk & Hm). apply in_app_iff in Hin as [Hin|[<-|[]]]; eauto.
        subst k. contradiction.
    + intros k areas Hk. destruct (Hareas k areas Hk) as [Hn Ha]. split; [exact Hn|].
      intros t. rewrite Ha, match_areas_snoc.
      destruct (String.eqb (attr sd) k) eqn:Ek; [|now rewrite app_nil_r].
      apply String.eqb_eq in Ek. exfalso. apply Hnot.
      assert (Hin : In k (keys d)) by (apply lookup_Some_keys; eauto).
      apply Hkeys in Hin as (sd' & _ & _ & Hm). unfold code. now rewrite Ek.
  - apply Nat.leb_gt in Elen.
    assert (Hmulti : multi_tz countryToTz code) by (exists tzs; split; [exact Etzs | exact Elen]).
    set (d1 := if negb (contains d code) then dict_set d code [] else d).
    assert (H1 : exists a0, lookup d1 code = Some a0 /\ NoDup (keys a0) /\
                   (forall t, lookup a0 t = cumulative (match_areas cfg ctx done code t)) /\
                   NoDup (keys d1) /\
                   (forall k, In k (keys d1) <-> In k (keys d) \/ k = code) /\
                   (forall k, k <> code -> lookup d1 k = lookup d k)).
    { unfold d1. destruct (contains d code) eqn:Ec; simpl.
      - apply contains_keys in Ec. apply lookup_Some_keys in Ec as (a0 & Ha0).
        destruct (Hareas code a0 Ha0) as [Hn Ha].
        exists a0. split; [exact Ha0|]. split; [exact Hn|]. split; [exact Ha|].
        split; [exact Hnd|]. split; [|reflexivity].
        intros k. split; [now left | intros [H| ->]; [exact H|]].
        apply lookup_Some_keys. eauto.
      - exists []. rewrite lookup_dict_set_eq. split; [reflexivity|].
        split; [constructor|]. split.
        + intros t. simpl. symmetry. apply cumulative_nil_iff.
          destruct (match_areas cfg ctx done code t) eqn:E; [reflexivity|]. exfalso.
          assert (Hq : subdiv_qualifying_tz cfg ctx done code t)
            by (apply match_areas_qualifying; congruence).
          destruct Hq as (sd' & tz & Hin & Hcode & _).
          assert (Hk : In code (keys d)) by (apply Hkeys; eauto).
          apply contains_keys in Hk. congruence.
        + split; [now apply dict_set_NoDup|]. split.
          * intros k. rewrite keys_dict_set, Ec, in_app_iff. simpl. intuition.
          * intros k Hk. now apply lookup_dict_set_neq. }
    destruct H1 as (a0 & Ha0 & Hnd0 & Hcum0 & Hnd1 & Hkeys1 & Hother).
    pose proof (overlap_loop_spec
                  (fun tz : Feature => intersects (geometry tz) (geometry sd))
                  (fun tz => area (intersection (geometry tz) (geometry sd)))
                  (fun tz => area (geometry tz))
                  (fun _ => area (geometry sd))
                  code
                  (fun d tz =>
                     areas <- dict_get d code ;;
                     if negb (contains areas (normalizedTz cfg (attr tz))) then
                       Ok (dict_set d code
                             (dict_set areas (normalizedTz cfg (attr tz))
                                (area (intersection (geometry tz) (geometry sd)))))
                     else
                       old <- dict_get areas (normalizedTz cfg (attr tz)) ;;
                       Ok (dict_set d code
                             (dict_set areas (normalizedTz cfg (attr tz))
                                (PrimFloat.add old
                                   (area (intersection (geometry tz) (geometry sd)))))))
                  (add_area (fun tz : Feature => normalizedTz cfg (attr tz))
                     (fun tz => area (intersection (geometry tz) (geometry sd))))) as Hloop.
    assert (Hhit : forall (d : dict (dict float)) (v : dict float) (x : Feature),
               lookup d code = Some v ->
               (areas <- dict_get d code ;;
                if negb (contains areas (normalizedTz cfg (attr x))) then
                  Ok (dict_set d code
                        (dict_set areas (normalizedTz cfg (attr x))
                           (area (intersection (geometry x) (geometry sd)))))
                else
                  old <- dict_get areas (normalizedTz cfg (attr x)) ;;
                  Ok (dict_set d code
                        (dict_set areas (normalizedTz cfg (attr x))
                           (PrimFloat.add old
                              (area (intersection (geometry x) (geometry sd)))))))
               = Ok (dict_set d code
                       (add_area (fun tz : Feature => normalizedTz cfg (attr tz))
                          (fun tz => area (intersection (geometry tz) (geometry sd))) v x))).
    { intros d0 v x Hv. rewrite (dict_get_Ok d0 code v Hv). simpl.
      unfold add_area, contains, dict_get.
      now destruct (lookup v (normalizedTz cfg (attr x))). }
    specialize (Hloop Hhit (tzLayer ctx) d1 a0 Ha0).
    unfold overlap_body in Hloop.
    match goal with
    | |- match ?run with _ => _ end =>
        match type of Hloop with
        | match ?run' with _ => _ end => change run with run'
        end
    end.
    destruct (for_each (tzLayer ctx) _ d1) as [d'|e].
    2:{ destruct Hloop as (He & tz & Htz & Hg & Hz). left. split; [exact He|].
        exists sd, tz. split; [exact Hsd|]. split; [exact Htz|].
        split; [exact Hg | exact Hz]. }
    subst d'.
    match goal with
    | |- subdiv_inv _ _ _ _ (dict_set d1 code ?S') => set (A1 := S')
    end.
    split; [|split].
    + rewrite (keys_dict_set_present d1 code A1 a0 Ha0). exact Hnd1.
    + intros k. rewrite (keys_dict_set_present d1 code A1 a0 Ha0), Hkeys1, Hkeys.
      split.
      * intros [(sd' & Hin & H)| ->].
        -- exists sd'. split; [apply in_app_iff; now left | exact H].
        -- exists sd. split; [apply in_app_iff; right; now left | now split].
      * intros (sd' & Hin & Hk & Hm). apply in_app_iff in Hin as [Hin|[<-|[]]]; eauto.
    + intros k areas. rewrite lookup_dict_set.
      destruct (String.eqb k code) eqn:Ek.
      * apply String.eqb_eq in Ek. subst k. intros [= <-]. split.
        -- unfold A1. now apply add_area_fold_NoDup.
        -- intros t. unfold A1. rewrite add_area_fold_lookup, Hcum0, match_areas_snoc.
           fold code. rewrite String.eqb_refl.
           unfold cumulative. rewrite fold_left_app. f_equal.
           now rewrite filter_filter.
      * apply String.eqb_neq in Ek. rewrite (Hother k Ek). intros Hk.
        destruct (Hareas k areas Hk) as [Hn Ha]. split; [exact Hn|].
        intros t. rewrite Ha, match_areas_snoc. fold code.
        assert (E : String.eqb code k = false) by (apply String.eqb_neq; congruence).
        now rewrite E, app_nil_r.
Qed.

End SubdivPass.

(** ** The order of floats *)

Lemma SFltb_asym (a b : spec_float) : SFltb a b = true -> SFltb b a = false.
Proof.
  unfold SFltb.
  destruct a as [sa|sa| |sa ma ea], b as [sb|sb| |sb mb eb]; simpl;
    repeat match goal with s : bool |- _ => destruct s end; simpl;
    try discriminate; try reflexivity;
    rewrite (Z.compare_antisym ea eb); destruct (ea ?= eb)%Z; simpl;
    try discriminate; try reflexivity;
    change (Pos.compare_cont Eq mb ma) with (mb ?= ma)%positive;
    change (Pos.compare_cont Eq ma mb) with (ma ?= mb)%positive;
    rewrite (Pos.compare_antisym ma mb); destruct (ma ?= mb)%positive; simpl;
    try discriminate; reflexivity.
Qed.

Lemma float_ltb_asym (x y : float) : PrimFloat.ltb x y = true -> PrimFloat.ltb y x = false.
Proof. rewrite !FloatAxioms.ltb_spec. apply SFltb_asym. Qed.

Lemma finite_compare_lt (e1 e2 : Z) (m1 m2 : positive) :
  (match (e1 ?= e2)%Z with
   | Lt => Lt
   | Gt => Gt
   | Eq => Pos.compare_cont Eq m1 m2
   end = Lt
   <-> (e1 < e2 \/ (e1 = e2 /\ (m1 < m2)%positive))%Z) /\
  (match (e1 ?= e2)%Z with
   | Lt => Gt
   | Gt => Lt
   | Eq => CompOpp (Pos.compare_cont Eq m1 m2)
   end = Lt
   <-> (e2 < e1 \/ (e1 = e2 /\ (m2 < m1)%positive))%Z).
Proof.
  change (Pos.compare_cont Eq m1 m2) with (m1 ?= m2)%positive.
  destruct (Z.compare_spec e1 e2), (Pos.compare_spec m1 m2); simpl; split; split;
    try discriminate; try (intros _; lia); try lia; try reflexivity;
    intros [H'|[H' H'']]; try lia; try reflexivity.
Qed.

Lemma is_lt_false (c : comparison) :
  match c with Eq => false | Lt => true | Gt => false end = false <-> c <> Lt.
Proof. destruct c; split; congruence. Qed.

(** Away from NaN, not being smaller is transitive. *)
Lemma SFltb_negtrans (a b c : spec_float) :
  b <> S754_nan ->
  SFltb a b = false -> SFltb b c = false -> SFltb a c = false.
Proof.
  intros Hb. unfold SFltb.
  destruct a as [sa|sa| |sa ma ea], b as [sb|sb| |sb mb eb], c as [sc|sc| |sc mc ec];
    try congruence; simpl;
    repeat match goal with s : bool |- _ => destruct s end; simpl;
    try discriminate; try reflexivity; try (intros; reflexivity).
  all: destruct (finite_compare_lt ea eb ma mb) as [H1 H1'],
         (finite_compare_lt eb ec mb mc) as [H2 H2'],
         (finite_compare_lt ea ec ma mc) as [H3 H3'].
  all: rewrite !is_lt_false; intros Hab Hbc Hac.
  all: first [apply H3 in Hac | apply H3' in Hac].
  all: first [rewrite H1 in Hab | rewrite H1' in Hab].
  all: first [rewrite H2 in Hbc | rewrite H2' in Hbc].
  all: lia.
Qed.

Lemma float_ltb_negtrans (x y z : float) :
  PrimFloat.is_nan y = false ->
  PrimFloat.ltb x y = false -> PrimFloat.ltb y z = false -> PrimFloat.ltb x z = false.
Proof.
  rewrite !FloatAxioms.ltb_spec. intros Hy. apply SFltb_negtrans.
  unfold PrimFloat.is_nan in Hy. rewrite FloatAxioms.eqb_spec in Hy.
  intros E. rewrite E in Hy. discriminate.
Qed.

Lemma Sorted_StronglySorted_In {A : Type} (R : A -> A -> Prop) (l : list A) :
  (forall a b c, In a l -> In b l -> In c l -> R a b -> R b c -> R a c) ->
  Sorted R l -> StronglySorted R l.
Proof.
  intros Htrans Hs. induction Hs as [|a l Hs IH Hhd]; constructor.
  - apply IH. intros x y z Hx Hy Hz. apply Htrans; now right.
  - assert (Hss : StronglySorted R l)
      by (apply IH; intros x y z Hx Hy Hz; apply Htrans; now right).
    destruct Hhd as [|b l Hab]; constructor; [exact Hab|].
    inversion Hss as [|? ? _ Hb]; subst. rewrite Forall_forall in *.
    intros c Hc. apply (Htrans a b c); auto; [now left | right; now left | right; now right].
Qed.

Lemma sort_by_key_reverse_sorted {A : Type} (key : A -> float) (l : list A) :
  Sorted (fun a b => PrimFloat.ltb (key a) (key b) = false) (sort_by_key_reverse key l).
Proof.
  unfold sort_by_key_reverse.
  apply (sort_sorted (fun a b => PrimFloat.ltb (key b) (key a))).
  intros a b. apply float_ltb_asym.
Qed.

Lemma Sorted_map_In {A B : Type} (R : A -> A -> Prop) (R' : B -> B -> Prop) (f : A -> B)
  (l : list A) :
  (forall a b, In a l -> In b l -> R a b -> R' (f a) (f b)) ->
  Sorted R l -> Sorted R' (map f l).
Proof.
  intros HR Hs. induction Hs as [|a l Hs IH Hhd]; simpl; constructor.
  - apply IH. intros x y Hx Hy. apply HR; now right.
  - destruct Hhd as [|b l Hab]; simpl; constructor.
    apply HR; [now left | right; now left | exact Hab].
Qed.

(** ** The subdivision table *)

Section SubdivLines.

Lemma subdiv_lines_of_key (d : dict (dict float)) (k : string) (l : SubdivLine) :
  In l (subdiv_lines_of d k) -> line_subdiv l = k.
Proof.
  unfold subdiv_lines_of. destruct (lookup d k) as [areas|]; [|intros []].
  rewrite in_app_iff, in_map_iff. intros [(tz & <- & _)|H]; [reflexivity|].
  destruct (Nat.eqb (List.length areas) 0); [|destruct H].
  now destruct H as [<-|[]].
Qed.

Lemma keyed_items (areas : dict float) :
  NoDup (keys areas) ->
  flat_map (fun x => match lookup areas x with
                     | Some a => [(x, a)]
                     | None => []
                     end) (keys areas) = areas.
Proof.
  induction areas as [|[k v] areas IH]; intros Hnd; simpl; [reflexivity|].
  inversion Hnd as [|? ? Hni Hnd']; subst.
  rewrite String.eqb_refl. simpl. f_equal.
  rewrite <- (IH Hnd') at 2.
  rewrite !flat_map_concat_map. f_equal. apply map_ext_in.
  intros x Hx. destruct (String.eqb x k) eqn:E; [|reflexivity].
  apply String.eqb_eq in E. subst. contradiction.
Qed.

Lemma sort_tzs_by_area_eq (d : dict (dict float)) (subdiv : string) (areas : dict float) :
  lookup d subdiv = Some areas -> NoDup (keys areas) ->
  sort_tzs_by_area d subdiv (keys areas) = Ok (tzs_by_area areas).
Proof.
  intros Hd Hnd. unfold sort_tzs_by_area.
  rewrite (for_each_flat_map
             (fun x => match lookup areas x with
                       | Some a => [(x, a)]
                       | None => []
                       end)).
  - simpl. now rewrite keyed_items.
  - intros keyed x Hx. rewrite (dict_get_Ok d subdiv areas Hd). simpl.
    apply lookup_Some_keys in Hx as (a & Ha).
    now rewrite (dict_get_Ok areas x a Ha), Ha.
Qed.

Lemma subdiv_lines_eq (d : dict (dict float)) :
  (forall code areas, lookup d code = Some areas -> NoDup (keys areas)) ->
  subdiv_lines d = Ok (flat_map (subdiv_lines_of d) (sort String.ltb (keys d))).
Proof.
  intros Hnd. unfold subdiv_lines.
  apply (for_each_flat_map (subdiv_lines_of d)).
  intros lines code Hcode. apply sort_In in Hcode.
  apply lookup_Some_keys in Hcode as (areas & Hareas).
  unfold subdiv_lines_of. rewrite (dict_get_Ok d code areas Hareas), Hareas. simpl.
  rewrite (sort_tzs_by_area_eq d code areas Hareas (Hnd code areas Hareas)). simpl.
  destruct (Nat.eqb (List.length areas) 0); simpl.
  - now rewrite <- app_assoc.
  - now rewrite app_nil_r.
Qed.

Lemma tzs_by_area_perm (areas : dict float) : Permutation (tzs_by_area areas) (keys areas).
Proof. unfold tzs_by_area, keys. apply Permutation_map, sort_perm. Qed.

Lemma tzs_by_area_descending (areas : dict float) :
  NoDup (keys areas) -> descending_by_area areas (tzs_by_area areas).
Proof.
  intros Hnd. unfold descending_by_area, tzs_by_area.
  apply (Sorted_map_In (fun a b : string * float => PrimFloat.ltb (snd a) (snd b) = false)).
  - intros [t1 a1] [t2 a2] H1 H2 Hlt b1 b2 Hb1 Hb2. simpl in *.
    assert (E1 : lookup areas t1 = Some a1).
    { apply In_lookup; [exact Hnd|]. eapply Permutation_in; [apply sort_perm | exact H1]. }
    assert (E2 : lookup areas t2 = Some a2).
    { apply In_lookup; [exact Hnd|]. eapply Permutation_in; [apply sort_perm | exact H2]. }
    congruence.
  - apply sort_by_key_reverse_sorted.
Qed.

Lemma tzs_by_area_pairwise (areas : dict float) :
  NoDup (keys areas) ->
  (forall t a, lookup areas t = Some a -> PrimFloat.is_nan a = false) ->
  pairwise_descending_by_area areas (tzs_by_area areas).
Proof.
  intros Hnd Hnan. apply Sorted_StronglySorted_In; [|now apply tzs_by_area_descending].
  intros t1 t2 t3 _ H2 _ H12 H23 a1 a3 E1 E3.
  assert (Hk : In t2 (keys areas))
    by (eapply Permutation_in; [apply tzs_by_area_perm | exact H2]).
  apply lookup_Some_keys in Hk as (a2 & E2).
  apply (float_ltb_negtrans a1 a2 a3); eauto.
Qed.

End SubdivLines.


(** * The region tables *)

Section RegionTables.

Context {engine : GeometryEngine}.

Lemma region_run_ok (h : HashOrder) (cfg : Config) (ctx : Context)
  (countryToTz : dict set) (subdivToTz : dict (dict float)) :
  country_pass cfg ctx = Ok countryToTz ->
  subdiv_pass cfg ctx countryToTz = Ok subdivToTz ->
  exists rows lines,
    country_rows h countryToTz = Ok rows /\
    subdiv_lines subdivToTz = Ok lines /\
    lines = flat_map (subdiv_lines_of subdivToTz) (sort String.ltb (keys subdivToTz)) /\
    RegionToTimezoneMapTask_run h cfg ctx =
    {| written := [(country_map_path, country_timezone_map_cpp rows);
                   (subdiv_map_path, subdivision_timezone_map_cpp lines)];
       returned := Ok {| countryToTimezoneMap := countryToTz;
                         subdivisionToTimezoneMap := subdivToTz |} |}.
Proof.
  intros Hc Hs.
  pose proof (subdiv_pass_outcome cfg ctx countryToTz) as Hinv. rewrite Hs in Hinv.
  destruct Hinv as (_ & _ & Hareas).
  assert (Hlines : subdiv_lines subdivToTz
                   = Ok (flat_map (subdiv_lines_of subdivToTz)
                           (sort String.ltb (keys subdivToTz)))).
  { apply subdiv_lines_eq. intros code areas H. now apply (Hareas code areas). }
  eexists _, _. split; [apply country_rows_eq|]. split; [exact Hlines|].
  split; [reflexivity|].
  unfold RegionToTimezoneMapTask_run. rewrite Hc, country_rows_eq, Hs. simpl.
  now rewrite Hlines.
Qed.

Lemma lines_about_flat_map (d : dict (dict float)) (code : string) :
  NoDup (keys d) -> In code (keys d) ->
  lines_about code (flat_map (subdiv_lines_of d) (sort String.ltb (keys d)))
  = subdiv_lines_of d code.
Proof.
  intros Hnd Hin. unfold lines_about.
  apply (flat_map_filter_key line_subdiv (subdiv_lines_of d) (subdiv_lines_of_key d)).
  - eapply Permutation_NoDup; [symmetry; apply sort_perm | exact Hnd].
  - now apply sort_In.
Qed.

Lemma filter_rows_app (code : string) (tzs : list string) (rest : list SubdivLine) :
  (forall l, In l rest -> is_row l = false) ->
  filter is_row (map (fun tz => SubdivRow code (tzIdToEnum tz)) tzs ++ rest)
  = map (fun tz => SubdivRow code (tzIdToEnum tz)) tzs.
Proof.
  intros Hrest. rewrite filter_app.
  replace (filter is_row rest) with (@nil SubdivLine).
  - rewrite app_nil_r. induction tzs as [|t tzs IH]; simpl; [reflexivity | now rewrite IH].
  - symmetry. induction rest as [|l rest IH]; simpl; [reflexivity|].
    rewrite (Hrest l) by now left. apply IH. intros l' Hl'. apply Hrest. now right.
Qed.

(** After passes that raised nothing, for every
    subdivision whose country has more than one timezone the dictionary
    records exactly the qualifying timezones of the subdivision, each with
    the cumulative area of its matches; the table has one row per recorded
    timezone, and no row of a subdivision is followed by a row of the same
    subdivision with a larger area (nor, when no recorded area is NaN, comes
    anywhere before one); subdivisions of other countries have no line; and
    the lines are sorted by subdivision code. *)
Lemma subdivision_rows_spec (h : HashOrder) (cfg : Config) (ctx : Context)
  (countryToTz : dict set) (subdivToTz : dict (dict float)) :
  country_pass cfg ctx = Ok countryToTz ->
  subdiv_pass cfg ctx countryToTz = Ok subdivToTz ->
  exists lines,
    subdiv_lines subdivToTz = Ok lines /\
    nth_error (written (RegionToTimezoneMapTask_run h cfg ctx)) 1
      = Some (subdiv_map_path, subdivision_timezone_map_cpp lines) /\
    (forall subdiv,
        In subdiv (subdivLayer ctx) -> multi_tz countryToTz (attr subdiv) ->
        exists areas tzs,
          lookup subdivToTz (attr subdiv) = Some areas /\
          (forall t, In t (keys areas) <->
                     subdiv_qualifying_tz cfg ctx (subdivLayer ctx) (attr subdiv) t) /\
          (forall t, lookup areas t
                     = cumulative (match_areas cfg ctx (subdivLayer ctx) (attr subdiv) t)) /\
          Permutation tzs (keys areas) /\
          NoDup tzs /\
          descending_by_area areas tzs /\
          ((forall t a, lookup areas t = Some a -> PrimFloat.is_nan a = false) ->
           pairwise_descending_by_area areas tzs) /\
          subdiv_data_rows (attr subdiv) lines
            = map (fun t => SubdivRow (attr subdiv) (tzIdToEnum t)) tzs) /\
    (forall subdiv,
        In subdiv (subdivLayer ctx) -> ~ multi_tz countryToTz (attr subdiv) ->
        forall l, In l lines -> line_subdiv l <> attr subdiv) /\
    StronglySorted StrOrder.le (map line_subdiv lines).
Proof.
  intros Hc Hs.
  destruct (region_run_ok h cfg ctx countryToTz subdivToTz Hc Hs)
    as (rows & lines & Hrows & Hlines & Elines & Hrun).
  pose proof (subdiv_pass_outcome cfg ctx countryToTz) as Hinv. rewrite Hs in Hinv.
  destruct Hinv as (Hnd & Hkeys & Hareas).
  exists lines. split; [exact Hlines|]. split; [now rewrite Hrun|].
  split; [|split].
  - intros subdiv Hin Hmulti.
    assert (Hkey : In (attr subdiv) (keys subdivToTz)) by (apply Hkeys; eauto).
    pose proof Hkey as Hkey'.
    apply lookup_Some_keys in Hkey' as (areas & Ha).
    destruct (Hareas _ _ Ha) as [Hna Hcum].
    exists areas, (tzs_by_area areas).
    split; [exact Ha|]. split.
    { intros t. rewrite <- match_areas_qualifying, <- lookup_Some_keys, Hcum.
      rewrite <- cumulative_nil_iff.
      destruct (cumulative (match_areas cfg ctx (subdivLayer ctx) (attr subdiv) t));
        split; eauto; try congruence. intros [v Hv]. discriminate. }
    split; [exact Hcum|]. split; [apply tzs_by_area_perm|].
    split.
    { eapply Permutation_NoDup; [symmetry; apply tzs_by_area_perm | exact Hna]. }
    split; [now apply tzs_by_area_descending|].
    split; [now apply tzs_by_area_pairwise|].
    unfold subdiv_data_rows. rewrite Elines, lines_about_flat_map by assumption.
    unfold subdiv_lines_of. rewrite Ha. apply filter_rows_app.
    intros l Hl. destruct (Nat.eqb (List.length areas) 0); [|destruct Hl].
    now destruct Hl as [<-|[]].
  - intros subdiv Hin Hnot l Hl Hcode. apply Hnot. subst lines.
    apply (flat_map_key_In line_subdiv (subdiv_lines_of subdivToTz)
             (subdiv_lines_of_key subdivToTz)) in Hl as [Hl _].
    apply sort_In, Hkeys in Hl as (sd & _ & _ & Hm). now rewrite <- Hcode.
  - subst lines.
    apply (flat_map_keys_sorted line_subdiv (subdiv_lines_of subdivToTz)
             (subdiv_lines_of_key subdivToTz)).
    + intros a. apply StrOrderFacts.ltb_irrefl.
    + apply sort_str_sorted.
Qed.

(** After passes that raised nothing: a subdivision of a country with
    more than one timezone that has no qualifying timezone has, as its only
    line in the table, one placeholder naming its code; a subdivision with a
    qualifying timezone has no placeholder. *)
Lemma subdivision_placeholders_spec (h : HashOrder) (cfg : Config) (ctx : Context)
  (countryToTz : dict set) (subdivToTz : dict (dict float)) :
  country_pass cfg ctx = Ok countryToTz ->
  subdiv_pass cfg ctx countryToTz = Ok subdivToTz ->
  exists lines,
    subdiv_lines subdivToTz = Ok lines /\
    nth_error (written (RegionToTimezoneMapTask_run h cfg ctx)) 1
      = Some (subdiv_map_path, subdivision_timezone_map_cpp lines) /\
    (forall subdiv,
        In subdiv (subdivLayer ctx) -> multi_tz countryToTz (attr subdiv) ->
        (forall t, ~ subdiv_qualifying_tz cfg ctx (subdivLayer ctx) (attr subdiv) t) ->
        lines_about (attr subdiv) lines = [SubdivPlaceholder (attr subdiv)]) /\
    (forall subdiv t,
        In subdiv (subdivLayer ctx) ->
        subdiv_qualifying_tz cfg ctx (subdivLayer ctx) (attr subdiv) t ->
        ~ In (SubdivPlaceholder (attr subdiv)) lines).
Proof.
  intros Hc Hs.
  destruct (region_run_ok h cfg ctx countryToTz subdivToTz Hc Hs)
    as (rows & lines & Hrows & Hlines & Elines & Hrun).
  pose proof (subdiv_pass_outcome cfg ctx countryToTz) as Hinv. rewrite Hs in Hinv.
  destruct Hinv as (Hnd & Hkeys & Hareas).
  assert (Hempty : forall code areas,
             lookup subdivToTz code = Some areas ->
             (areas = [] <->
              forall t, ~ subdiv_qualifying_tz cfg ctx (subdivLayer ctx) code t)).
  { intros code areas Ha. destruct (Hareas _ _ Ha) as [_ Hcum]. split.
    - intros -> t Hq. apply match_areas_qualifying in Hq. apply Hq.
      apply cumulative_nil_iff. now rewrite <- Hcum.
    - intros Hzero. destruct areas as [|[t a] areas]; [reflexivity|]. exfalso.
      apply (Hzero t), match_areas_qualifying. intros E.
      specialize (Hcum t). rewrite E in Hcum. simpl in Hcum.
      now rewrite String.eqb_refl in Hcum. }
  exists lines. split; [exact Hlines|]. split; [now rewrite Hrun|]. split.
  - intros subdiv Hin Hmulti Hzero.
    assert (Hkey : In (attr subdiv) (keys subdivToTz)) by (apply Hkeys; eauto).
    pose proof Hkey as Hkey'.
    apply lookup_Some_keys in Hkey' as (areas & Ha).
    rewrite Elines, lines_about_flat_map by assumption.
    unfold subdiv_lines_of. rewrite Ha.
    apply (Hempty _ _ Ha) in Hzero. now subst areas.
  - intros subdiv t Hin Hq Hl. subst lines.
    apply (flat_map_key_In line_subdiv (subdiv_lines_of subdivToTz)
             (subdiv_lines_of_key subdivToTz)) in Hl as [_ Hl].
    simpl in Hl. unfold subdiv_lines_of in Hl.
    destruct (lookup subdivToTz (attr subdiv)) as [areas|] eqn:Ha; [|destruct Hl].
    apply in_app_iff in Hl as [Hl|Hl].
    + apply in_map_iff in Hl as (x & Hx & _). discriminate.
    + destruct areas as [|[t' a] areas]; [|destruct Hl].
      now apply (proj1 (Hempty _ _ Ha) eq_refl t).
Qed.

End RegionTables.

(** C10.  Line 136 looks the two-letter prefix of each subdivision code up
    in the dictionary of the country pass, unguarded.  When the prefix of
    every subdivision is a code of the country layer, no run raises a
    KeyError; and there is a run, over a subdivision whose prefix is no code
    of the country layer, that raises the KeyError of that prefix after the
    country table was written and before the subdivision table is. *)
Theorem C10_subdivision_prefix_lookup :
  (forall (engine : GeometryEngine) (h : HashOrder) (cfg : Config) (ctx : Context),
      (forall sd, In sd (subdivLayer ctx) ->
                  In (slice_to 2 (attr sd)) (map attr (countryLayer ctx))) ->
      forall k, returned (RegionToTimezoneMapTask_run h cfg ctx) <> Raise (KeyError k)) /\
  (exists (engine : GeometryEngine) (h : HashOrder) (cfg : Config) (ctx : Context)
          (sd : Feature),
      In sd (subdivLayer ctx) /\
      ~ In (slice_to 2 (attr sd)) (map attr (countryLayer ctx)) /\
      returned (RegionToTimezoneMapTask_run h cfg ctx)
        = Raise (KeyError (slice_to 2 (attr sd))) /\
      map fst (written (RegionToTimezoneMapTask_run h cfg ctx)) = [country_map_path]).
Proof.
  split.
  - intros engine h cfg ctx Hpre k.
    unfold RegionToTimezoneMapTask_run.
    pose proof (country_pass_outcome cfg ctx) as Hc.
    destruct (country_pass cfg ctx) as [countryToTz|e];
      [|destruct Hc as (-> & _); discriminate].
    destruct Hc as (_ & Hkeys & _).
    rewrite country_rows_eq.
    pose proof (subdiv_pass_outcome cfg ctx countryToTz) as Hs.
    destruct (subdiv_pass cfg ctx countryToTz) as [subdivToTz|e]; simpl.
    + destruct Hs as (_ & _ & Hareas).
      rewrite subdiv_lines_eq by (intros code areas H; now apply (Hareas code areas)).
      simpl. discriminate.
    + destruct Hs as [(-> & _)|(sd & Hsd & -> & Hnone)]; [discriminate|].
      exfalso. apply lookup_None_keys in Hnone. apply Hnone, Hkeys. now apply Hpre.
  - exists Example.line_engine, Example.insertion_order, Example.cfg,
      Example.unknown_prefix, (Example.feature "ZZ-01" 0 100).
    split; [now left|]. split.
    + simpl. intros [H|[]]. discriminate.
    + split; vm_compute; reflexivity.
Qed.

(** The precondition of C10 holds of the layers of [Example.world], whose
    run raises nothing. *)
Lemma C10_witness :
  (forall sd, In sd (subdivLayer Example.world) ->
              In (slice_to 2 (attr sd)) (map attr (countryLayer Example.world))) /\
  returned (RegionToTimezoneMapTask_run Example.insertion_order Example.cfg Example.world)
    <> Raise (KeyError "US").
Proof.
  assert (H : forall sd, In sd (subdivLayer Example.world) ->
                In (slice_to 2 (attr sd)) (map attr (countryLayer Example.world))).
  { intros sd [<-|[<-|[<-|[<-|[]]]]]; simpl; auto. }
  split; [exact H|].
  exact (proj1 C10_subdivision_prefix_lookup Example.line_engine Example.insertion_order
           Example.cfg Example.world H "US"%string).
Defined.

(** ** Runs of the region mapper on the example layers *)

Section RegionRuns.

Import Example.
Local Open Scope string_scope.

(** Two timezones cover equal parts of a subdivision: their rows are not in
    strictly descending order of area. *)
Lemma C6_tie_is_not_strictly_descending :
  exists countryToTz subdivToTz areas,
    country_pass cfg tie = Ok countryToTz /\
    subdiv_pass cfg tie countryToTz = Ok subdivToTz /\
    multi_tz countryToTz "US-AZ" /\
    lookup subdivToTz "US-AZ" = Some areas /\
    subdiv_lines subdivToTz
      = Ok [SubdivRow "US-AZ" "America_Denver"; SubdivRow "US-AZ" "America_Phoenix"] /\
    tzIdToEnum "America/Denver" = "America_Denver" /\
    tzIdToEnum "America/Phoenix" = "America_Phoenix" /\
    ~ strictly_descending_by_area areas ["America/Denver"; "America/Phoenix"].
Proof.
  exists [("US", ["America/Denver"; "America/Phoenix"])],
         [("US-AZ", [("America/Denver", 50%float); ("America/Phoenix", 50%float)])],
         [("America/Denver", 50%float); ("America/Phoenix", 50%float)].
  split; [vm_compute; reflexivity|]. split; [vm_compute; reflexivity|].
  split; [exists ["America/Denver"; "America/Phoenix"]; split; [reflexivity | simpl; lia]|].
  split; [reflexivity|]. split; [vm_compute; reflexivity|].
  split; [reflexivity|]. split; [reflexivity|].
  intros H. inversion H as [|? ? _ Hhd]; subst.
  inversion Hhd as [|? ? Hlt]; subst.
  specialize (Hlt 50%float 50%float eq_refl eq_refl).
  vm_compute in Hlt. discriminate.
Qed.

End RegionRuns.

(** * Timezones and their countries *)

Section TzPass.

Context {engine : GeometryEngine}.
Variables (cfg : Config) (ctx : Context).

Lemma contains_feature_false {V : Type} (d : dict V) (tz : Feature) :
  contains_feature d tz = false.
Proof.
  unfold contains_feature. induction (keys d) as [|k l IH]; simpl; [reflexivity | exact IH].
Qed.

Lemma tz_pass_outcome :
  match tz_pass cfg ctx with
  | Ok d => tz_inv cfg ctx (tzLayer ctx) d
  | Raise e => tz_raises cfg ctx e
  end.
Proof.
  unfold tz_pass.
  apply (for_each_outcome (tz_inv cfg ctx) (tz_raises cfg ctx) _ (tzLayer ctx) [] []).
  { split; [constructor|]. split; [simpl; tauto|]. intros tzId s. discriminate. }
  intros done tz d (Hnd & Hkeys & Hlast) Htzin.
  rewrite contains_feature_false. simpl.
  set (tzId := attr tz).
  pose proof (overlap_loop_spec
                (fun country : Feature =>
                   truthy (normalizedCountry cfg (attr country))
                   && intersects (geometry country) (geometry tz))
                (fun country => area (intersection (geometry country) (geometry tz)))
                (fun _ => area (geometry tz))
                (fun country => area (geometry country))
                tzId
                (fun d country =>
                   countries <- dict_get d tzId ;;
                   Ok (dict_set d tzId
                         (set_add countries (normalizedCountry cfg (attr country)))))
                (fun s country => set_add s (normalizedCountry cfg (attr country)))
                (fun d v x Hv => f_equal (fun r => Py.bind r _) (dict_get_Ok d tzId v Hv))
                (countryLayer ctx) (dict_set d tzId []) [] (lookup_dict_set_eq _ _ _))
    as Hloop.
  unfold overlap_body in Hloop.
  match goal with
  | |- match ?run with _ => _ end =>
      match type of Hloop with
      | match ?run' with _ => _ end => change run with run'
      end
  end.
  destruct (for_each (countryLayer ctx) _ (dict_set d tzId [])) as [d'|e].
  2:{ destruct Hloop as (He & c & Hc & Hg & Hz). split; [exact He|].
      exists tz, c. split; [exact Htzin|]. split; [exact Hc|]. split; [exact Hg | exact Hz]. }
  subst d'. rewrite dict_set_set.
  change (fold_left _ (filter _ (countryLayer ctx)) []) with (countries_of_feature cfg ctx tz).
  split; [now apply dict_set_NoDup|]. split.
  - intros k. rewrite map_app, in_app_iff, <- Hkeys. simpl. fold tzId.
    rewrite keys_dict_set. destruct (contains d tzId) eqn:Ec.
    + apply contains_keys in Ec. split; [now left | intros [H|[<-|[]]]; assumption].
    + rewrite in_app_iff. simpl. tauto.
  - intros k s. rewrite lookup_dict_set.
    destruct (String.eqb k tzId) eqn:Ek.
    + apply String.eqb_eq in Ek. subst k. intros [= <-].
      exists done, tz, []. repeat split; auto.
    + apply String.eqb_neq in Ek. intros Hs.
      destruct (Hlast k s Hs) as (pre & tz0 & post & -> & Hattr & Hni & ->).
      exists pre, tz0, (post ++ [tz]). rewrite <- app_assoc. simpl.
      repeat split; auto.
      rewrite map_app, in_app_iff. simpl. fold tzId. intros [H|[H|[]]]; auto.
Qed.

End TzPass.

Section TzLines.

Context {engine : GeometryEngine}.

Lemma flat_map_singleton {A B : Type} (f : A -> B) (l : list A) :
  flat_map (fun x => [f x]) l = map f l.
Proof. induction l as [|x l IH]; simpl; [reflexivity | now rewrite IH]. Qed.

Lemma tz_lines_eq (h : HashOrder) (cfg : Config) (d : dict set) :
  tz_lines h cfg d = Ok (map (tz_line_of cfg d) (sort String.ltb (keys d))).
Proof.
  unfold tz_lines. rewrite <- flat_map_singleton.
  apply (for_each_flat_map (fun tzId => [tz_line_of cfg d tzId])).
  intros lines tzId Hin. apply sort_In in Hin.
  apply lookup_Some_keys in Hin as (s & Hs).
  unfold tz_line_of. rewrite (dict_get_Ok d tzId s Hs), Hs. simpl.
  destruct (disambiguateCountries cfg s) as [|c [|c' rest]] eqn:E; simpl; try reflexivity.
  now rewrite list_of_set_singleton.
Qed.

Lemma disambiguate_pairs_first (pairs pre post : list (string * string))
  (preferred secondary : string) (S : set) :
  pairs = pre ++ (preferred, secondary) :: post ->
  (forall p, In p pre -> ~ (In (fst p) S /\ In (snd p) S)) ->
  In preferred S -> In secondary S ->
  disambiguate_pairs pairs S = set_remove S secondary.
Proof.
  intros -> Hpre Hp Hs. induction pre as [|q pre IH]; simpl.
  - apply set_contains_In in Hp, Hs. now rewrite Hp, Hs.
  - destruct (set_contains S (fst q) && set_contains S (snd q)) eqn:E.
    + exfalso. apply andb_true_iff in E as [E1 E2].
      apply set_contains_In in E1, E2. apply (Hpre q); [now left | now split].
    + apply IH. intros p Hin. apply Hpre. now right.
Qed.

Lemma disambiguate_pairs_none (pairs : list (string * string)) (S : set) :
  (forall p, In p pairs -> ~ (In (fst p) S /\ In (snd p) S)) ->
  disambiguate_pairs pairs S = S.
Proof.
  induction pairs as [|q pairs IH]; intros Hnone; simpl; [reflexivity|].
  destruct (set_contains S (fst q) && set_contains S (snd q)) eqn:E.
  - exfalso. apply andb_true_iff in E as [E1 E2].
    apply set_contains_In in E1, E2. apply (Hnone q); [now left | now split].
  - apply IH. intros p Hin. apply Hnone. now right.
Qed.

(** Disambiguation returns a set that does not have two elements
    unchanged; of a set of two elements it removes the secondary member of
    the first pair of the list that has both members in the set (the other
    members stay), and returns the set unchanged when no pair has.  After a
    pass that raised nothing, the table has one line per timezone
    identifier, in sorted order: a row mapping it to the remaining country
    when disambiguation leaves exactly one, and a placeholder naming it
    otherwise. *)
Lemma tz_lines_spec (h : HashOrder) (cfg : Config) (ctx : Context)
  (tzToCountry : dict set) :
  tz_pass cfg ctx = Ok tzToCountry ->
  (forall S, set_len S <> 2%nat -> disambiguateCountries cfg S = S) /\
  (forall S pre preferred secondary post,
      set_len S = 2%nat ->
      ISO3166_1_DISAMBIGUATION_MAP cfg = pre ++ (preferred, secondary) :: post ->
      (forall p, In p pre -> ~ (In (fst p) S /\ In (snd p) S)) ->
      In preferred S -> In secondary S ->
      disambiguateCountries cfg S = set_remove S secondary) /\
  (forall S,
      set_len S = 2%nat ->
      (forall p, In p (ISO3166_1_DISAMBIGUATION_MAP cfg) ->
                 ~ (In (fst p) S /\ In (snd p) S)) ->
      disambiguateCountries cfg S = S) /\
  (forall S removed country,
      In country (set_remove S removed) <-> In country S /\ country <> removed) /\
  (forall tzId, In tzId (sort String.ltb (keys tzToCountry))
                <-> In tzId (map attr (tzLayer ctx))) /\
  exists lines,
    tz_lines h cfg tzToCountry = Ok lines /\
    TimezoneToCountryMapTask_run h cfg ctx
      = {| written := [(tz_country_map_path, timezone_country_map_cpp lines)];
           returned := Ok true |} /\
    List.length lines = List.length (keys tzToCountry) /\
    forall i tzId S,
      nth_error (sort String.ltb (keys tzToCountry)) i = Some tzId ->
      lookup tzToCountry tzId = Some S ->
      (forall country, disambiguateCountries cfg S = [country] ->
                       nth_error lines i = Some (TzRow (tzIdToEnum tzId) country)) /\
      (set_len (disambiguateCountries cfg S) <> 1%nat ->
       nth_error lines i = Some (TzPlaceholder (tzIdToEnum tzId))).
Proof.
  intros Hpass.
  pose proof (tz_pass_outcome cfg ctx) as Hinv. rewrite Hpass in Hinv.
  destruct Hinv as (Hnd & Hkeys & _).
  split; [|split; [|split; [|split; [|split]]]].
  - intros S HS. unfold disambiguateCountries.
    apply Nat.eqb_neq in HS. now rewrite HS.
  - intros S pre preferred secondary post HS Hmap Hpre Hp Hs.
    unfold disambiguateCountries. rewrite HS. simpl.
    now apply (disambiguate_pairs_first _ pre post preferred).
  - intros S HS Hnone. unfold disambiguateCountries. rewrite HS. simpl.
    now apply disambiguate_pairs_none.
  - intros S removed country. apply set_remove_In.
  - intros tzId. now rewrite sort_In.
  - exists (map (tz_line_of cfg tzToCountry) (sort String.ltb (keys tzToCountry))).
    split; [apply tz_lines_eq|]. split.
    { unfold TimezoneToCountryMapTask_run. rewrite Hpass. simpl.
      now rewrite tz_lines_eq. }
    split; [now rewrite length_map, sort_length|].
    intros i tzId S Hi HS. rewrite nth_error_map, Hi. simpl.
    unfold tz_line_of. rewrite HS. split.
    + now intros country ->.
    + unfold set_len.
      destruct (disambiguateCountries cfg S) as [|c [|c' rest]]; simpl; congruence.
Qed.

End TzLines.

Section TzRuns.

Import Example.
Local Open Scope string_scope.

(** C1, on the layers of [Example.two_parts].  The candidate set is not
    the union over the features bearing the identifier: the country found
    for the first feature of the timezone is lost when its second feature is
    visited, and the pass ends with an empty set, while the union has a
    member. *)
Lemma C1_candidates_are_reset_per_feature :
  tz_pass cfg two_parts = Ok [("Europe/Berlin", [])] /\
  candidate_of_any_feature cfg two_parts "Europe/Berlin" "DE".
Proof.
  split; [vm_compute; reflexivity|].
  exists (feature "Europe/Berlin" 0 100), (feature "DE" 0 100).
  split; [now left|]. split; [reflexivity|]. split; [now left|].
  split; vm_compute; reflexivity.
Qed.

End TzRuns.

(** * Across the tables *)

Section Tables.

Context {engine : GeometryEngine}.

Lemma map_fst_combine {X Y : Type} (l1 : list X) (l2 : list Y) :
  (List.length l1 <= List.length l2)%nat -> map fst (combine l1 l2) = l1.
Proof.
  revert l2. induction l1 as [|x l1 IH]; intros [|y l2] H; simpl in *;
    try reflexivity; try lia.
  f_equal. apply IH. lia.
Qed.

Lemma enum_names_In (h : HashOrder) (ctx : Context) (tzId : string) :
  In tzId (map attr (tzLayer ctx)) -> In (tzIdToEnum tzId) (enum_names h ctx).
Proof.
  intros H. apply in_map. apply sorted_tzIds_In.
  apply in_map_iff in H as (tz & <- & Htz). eauto.
Qed.

Lemma country_table_refs (h : HashOrder) (cfg : Config) (ctx : Context)
  (rows : list (string * string)) (row : string * string) :
  country_table h cfg ctx = Ok rows -> In row rows ->
  exists tz, In tz (tzLayer ctx) /\ snd row = tzIdToEnum (normalizedTz cfg (attr tz)).
Proof.
  unfold country_table. intros Hrun Hrow.
  pose proof (country_pass_outcome cfg ctx) as Hinv.
  destruct (country_pass cfg ctx) as [d|e]; [|discriminate]. simpl in Hrun.
  rewrite country_rows_eq in Hrun. injection Hrun as <-.
  destruct Hinv as (_ & _ & Hsets).
  apply in_flat_map in Hrow as (code & _ & Hrow).
  unfold country_rows_of in Hrow.
  destruct (lookup d code) as [[|t [|t' s]]|] eqn:E; simpl in Hrow; try tauto.
  destruct Hrow as [<-|[]]. simpl.
  destruct (Hsets _ _ E) as [_ Hq].
  destruct (proj1 (Hq t) (or_introl eq_refl)) as (c & tz & _ & _ & Htz & _ & <-).
  eauto.
Qed.

Lemma subdiv_table_refs (cfg : Config) (ctx : Context)
  (lines : list SubdivLine) (subdiv e : string) :
  subdiv_table cfg ctx = Ok lines -> In (SubdivRow subdiv e) lines ->
  exists tz, In tz (tzLayer ctx) /\ e = tzIdToEnum (normalizedTz cfg (attr tz)).
Proof.
  unfold subdiv_table. intros Hrun Hrow.
  destruct (country_pass cfg ctx) as [d|e0]; [|discriminate]. simpl in Hrun.
  pose proof (subdiv_pass_outcome cfg ctx d) as Hinv.
  destruct (subdiv_pass cfg ctx d) as [sd|e0]; [|discriminate]. simpl in Hrun.
  destruct Hinv as (_ & _ & Hareas).
  rewrite subdiv_lines_eq in Hrun
    by (intros code areas H; now apply (Hareas code areas)).
  injection Hrun as <-.
  apply in_flat_map in Hrow as (code & _ & Hrow).
  unfold subdiv_lines_of in Hrow.
  destruct (lookup sd code) as [areas|] eqn:E; [|destruct Hrow].
  destruct (Hareas _ _ E) as [_ Hcum].
  apply in_app_iff in Hrow as [Hrow|Hrow].
  - apply in_map_iff in Hrow as (t & [= <- <-] & Ht).
    assert (Hk : In t (keys areas))
      by (eapply Permutation_in; [apply tzs_by_area_perm | exact Ht]).
    apply lookup_Some_keys in Hk as (a & Ha). rewrite Hcum in Ha.
    assert (Hq : subdiv_qualifying_tz cfg ctx (subdivLayer ctx) code t).
    { apply match_areas_qualifying. intros E'. rewrite E' in Ha. discriminate. }
    destruct Hq as (s & tz & _ & _ & Htz & _ & <-). eauto.
  - destruct (Nat.eqb (List.length areas) 0); [|destruct Hrow].
    destruct Hrow as [H|[]]. discriminate.
Qed.

Lemma tz_table_refs (h : HashOrder) (cfg : Config) (ctx : Context)
  (lines : list TzLine) (l : TzLine) :
  tz_table h cfg ctx = Ok lines -> In l lines ->
  In (tz_line_enum l) (enum_names h ctx).
Proof.
  unfold tz_table. intros Hrun Hl.
  pose proof (tz_pass_outcome cfg ctx) as Hinv.
  destruct (tz_pass cfg ctx) as [d|e]; [|discriminate]. simpl in Hrun.
  rewrite tz_lines_eq in Hrun. injection Hrun as <-.
  destruct Hinv as (_ & Hkeys & _).
  apply in_map_iff in Hl as (tzId & <- & Hin).
  apply sort_In, Hkeys in Hin.
  replace (tz_line_enum (tz_line_of cfg d tzId)) with (tzIdToEnum tzId).
  - now apply enum_names_In.
  - unfold tz_line_of. destruct (lookup d tzId) as [s|]; [|reflexivity].
    now destruct (disambiguateCountries cfg s) as [|c [|c' rest]].
Qed.

(** C2, as the code has it.  The enumerators of the string table are the
    symbolic names of the raw identifiers of the layer.  Every line of the
    timezone table refers to one of them.  Every row of the country and
    subdivision tables refers to the symbolic name of the normalized form of
    an identifier of the layer; it is an enumerator whenever the normalized
    form of every identifier of the layer is itself in the layer. *)
Theorem C2_tz_references (h : HashOrder) (cfg : Config) (ctx : Context) :
  (exists entries undefined,
      nth_error (written (TimezoneStringTableTask_run h ctx)) 1
        = Some (names_path, names_p_h entries undefined) /\
      map fst entries = enum_names h ctx) /\
  (forall tzId, In tzId (enum_names h ctx) <->
                exists tz, In tz (tzLayer ctx) /\ tzId = tzIdToEnum (attr tz)) /\
  (forall lines l, tz_table h cfg ctx = Ok lines -> In l lines ->
                   In (tz_line_enum l) (enum_names h ctx)) /\
  (forall rows row, country_table h cfg ctx = Ok rows -> In row rows ->
      exists tz, In tz (tzLayer ctx) /\
                 snd row = tzIdToEnum (normalizedTz cfg (attr tz))) /\
  (forall lines subdiv e, subdiv_table cfg ctx = Ok lines ->
      In (SubdivRow subdiv e) lines ->
      exists tz, In tz (tzLayer ctx) /\ e = tzIdToEnum (normalizedTz cfg (attr tz))) /\
  (normalization_closed cfg ctx ->
   (forall rows row, country_table h cfg ctx = Ok rows -> In row rows ->
                     In (snd row) (enum_names h ctx)) /\
   (forall lines subdiv e, subdiv_table cfg ctx = Ok lines ->
                           In (SubdivRow subdiv e) lines ->
                           In e (enum_names h ctx))).
Proof.
  split; [|split; [|split; [|split; [|split]]]].
  - eexists _, _. rewrite (string_table_run_eq h ctx). simpl. split; [reflexivity|].
    apply map_fst_combine. unfold enum_names. cbn [List.length].
    rewrite running_offsets_length, length_map. lia.
  - intros tzId. unfold enum_names. rewrite in_map_iff. split.
    + intros (s & <- & Hs). apply sorted_tzIds_In in Hs as (tz & Htz & <-). eauto.
    + intros (tz & Htz & ->). exists (attr tz). split; [reflexivity|].
      apply sorted_tzIds_In. eauto.
  - apply tz_table_refs.
  - apply country_table_refs.
  - apply subdiv_table_refs.
  - intros Hclosed. split.
    + intros rows row Hrun Hrow.
      destruct (country_table_refs h cfg ctx rows row Hrun Hrow) as (tz & Htz & ->).
      apply enum_names_In. now apply Hclosed.
    + intros lines subdiv e Hrun Hrow.
      destruct (subdiv_table_refs cfg ctx lines subdiv e Hrun Hrow) as (tz & Htz & ->).
      apply enum_names_In. now apply Hclosed.
Qed.

(** C9.  Which order the interpreter iterates its sets in has no effect:
    under any two orders each of the three procedures, run over the same
    layers, writes the same files with the same contents and returns or
    raises the same. *)
Theorem C9_runs_write_identical_files (h1 h2 : HashOrder) (cfg : Config) (ctx : Context) :
  TimezoneStringTableTask_run h1 ctx = TimezoneStringTableTask_run h2 ctx /\
  RegionToTimezoneMapTask_run h1 cfg ctx = RegionToTimezoneMapTask_run h2 cfg ctx /\
  TimezoneToCountryMapTask_run h1 cfg ctx = TimezoneToCountryMapTask_run h2 cfg ctx.
Proof.
  split; [|split].
  - rewrite (string_table_run_eq h1 ctx), (string_table_run_eq h2 ctx).
    assert (E : sorted_tzIds h1 (tzLayer ctx) = sorted_tzIds h2 (tzLayer ctx)).
    { apply sort_str_perm_eq. rewrite !list_of_set_perm. reflexivity. }
    simpl. now rewrite E.
  - unfold RegionToTimezoneMapTask_run.
    destruct (country_pass cfg ctx) as [d|e]; [|reflexivity].
    now rewrite !country_rows_eq.
  - unfold TimezoneToCountryMapTask_run.
    destruct (tz_pass cfg ctx) as [d|e]; [|reflexivity]. simpl.
    now rewrite !tz_lines_eq.
Qed.

End Tables.

Section TableRuns.

Import Example.
Local Open Scope string_scope.

(** The layer has a deprecated identifier only: the country table refers to
    the enumerator of its canonical name, which the enumeration lacks. *)
Lemma C2_reference_to_a_missing_enumerator :
  country_table insertion_order cfg deprecated_only = Ok [("IN", "Asia_Kolkata")] /\
  enum_names insertion_order deprecated_only = ["Asia_Calcutta"] /\
  ~ In "Asia_Kolkata" (enum_names insertion_order deprecated_only).
Proof.
  split; [vm_compute; reflexivity|]. split; [vm_compute; reflexivity|].
  vm_compute. intros [H|[]]. discriminate.
Qed.

Lemma C2_witness :
  normalization_closed cfg world /\
  country_table insertion_order cfg world
    = Ok [("CH", "Europe_Zurich"); ("DE", "Europe_Berlin")] /\
  In "Europe_Zurich" (enum_names insertion_order world).
Proof.
  assert (Hclosed : normalization_closed cfg world).
  { intros tz [<-|[<-|[<-|[<-|[]]]]]; vm_compute; auto. }
  assert (Hrun : country_table insertion_order cfg world
                 = Ok [("CH", "Europe_Zurich"); ("DE", "Europe_Berlin")])
    by (vm_compute; reflexivity).
  split; [exact Hclosed|]. split; [exact Hrun|].
  destruct (C2_tz_references insertion_order cfg world) as (_ & _ & _ & _ & _ & Hrefs).
  destruct (Hrefs Hclosed) as [Hrows _].
  exact (Hrows _ ("CH", "Europe_Zurich") Hrun (or_introl eq_refl)).
Defined.

End TableRuns.

(** * Runs that return *)

Section Returns.

Context {engine : GeometryEngine}.

(** X2.  The region mapper returns, with both tables written, when no geometry
    of the three layers has area zero and the prefix of every subdivision is
    a code of the country layer. *)
Theorem region_run_returns (h : HashOrder) (cfg : Config) (ctx : Context) :
  (forall f, In f (tzLayer ctx ++ countryLayer ctx ++ subdivLayer ctx) ->
             zero_area (geometry f) = false) ->
  (forall sd, In sd (subdivLayer ctx) ->
              In (slice_to 2 (attr sd)) (map attr (countryLayer ctx))) ->
  exists maps,
    returned (RegionToTimezoneMapTask_run h cfg ctx) = Ok maps /\
    map fst (written (RegionToTimezoneMapTask_run h cfg ctx))
      = [country_map_path; subdiv_map_path].
Proof.
  intros Hnz Hpre.
  assert (Hz : forall f g, In f (tzLayer ctx) ->
                 In g (countryLayer ctx ++ subdivLayer ctx) ->
                 ~ (zero_area (geometry f) = true \/ zero_area (geometry g) = true)).
  { intros f g Hf Hg [H|H].
    - rewrite Hnz in H; [discriminate|]. apply in_app_iff. now left.
    - rewrite Hnz in H; [discriminate|]. apply in_app_iff. now right. }
  pose proof (country_pass_outcome cfg ctx) as Hc.
  destruct (country_pass cfg ctx) as [countryToTz|e] eqn:Ec.
  2:{ exfalso. destruct Hc as (_ & c & tz & Hcin & Htz & _ & H).
      apply (Hz tz c Htz); [apply in_app_iff; now left | exact H]. }
  pose proof (subdiv_pass_outcome cfg ctx countryToTz) as Hs.
  destruct (subdiv_pass cfg ctx countryToTz) as [subdivToTz|e] eqn:Es.
  - destruct (region_run_ok h cfg ctx countryToTz subdivToTz Ec Es)
      as (rows & lines & _ & _ & _ & ->).
    eexists. split; reflexivity.
  - exfalso. destruct Hs as [(_ & sd & tz & Hsd & Htz & _ & H)|(sd & Hsd & _ & Hnone)].
    + apply (Hz tz sd Htz); [apply in_app_iff; now right | exact H].
    + apply lookup_None_keys in Hnone. apply Hnone.
      destruct Hc as (_ & Hkeys & _). apply Hkeys. now apply Hpre.
Qed.

(** X3.  The timezone mapper returns, with its table written, when no geometry
    of the timezone and country layers has area zero. *)
Theorem tz_run_returns (h : HashOrder) (cfg : Config) (ctx : Context) :
  (forall f, In f (tzLayer ctx ++ countryLayer ctx) -> zero_area (geometry f) = false) ->
  returned (TimezoneToCountryMapTask_run h cfg ctx) = Ok true /\
  map fst (written (TimezoneToCountryMapTask_run h cfg ctx)) = [tz_country_map_path].
Proof.
  intros Hnz. unfold TimezoneToCountryMapTask_run.
  pose proof (tz_pass_outcome cfg ctx) as Ht.
  destruct (tz_pass cfg ctx) as [d|e]; simpl.
  - rewrite tz_lines_eq. split; reflexivity.
  - exfalso. destruct Ht as (_ & tz & c & Htz & Hc & _ & [H|H]).
    + rewrite Hnz in H; [discriminate|]. apply in_app_iff. now left.
    + rewrite Hnz in H; [discriminate|]. apply in_app_iff. now right.
Qed.

(** X1.  After a timezone pass that raised nothing, the candidate countries of
    every identifier of the layer are those of the last feature that bears
    it: what the features before it matched is dropped. *)
Theorem tz_candidates_are_of_last_feature (cfg : Config) (ctx : Context)
  (tzToCountry : dict set) :
  tz_pass cfg ctx = Ok tzToCountry ->
  forall tzId,
    In tzId (map attr (tzLayer ctx)) ->
    exists pre tz post,
      tzLayer ctx = pre ++ tz :: post /\ attr tz = tzId /\
      ~ In tzId (map attr post) /\
      lookup tzToCountry tzId = Some (countries_of_feature cfg ctx tz).
Proof.
  intros Hpass tzId Hin.
  pose proof (tz_pass_outcome cfg ctx) as Hinv. rewrite Hpass in Hinv.
  destruct Hinv as (_ & Hkeys & Hlast).
  apply Hkeys, lookup_Some_keys in Hin as (s & Hs).
  destruct (Hlast tzId s Hs) as (pre & tz & post & E & Hattr & Hni & ->).
  exists pre, tz, post. auto.
Qed.

End Returns.

Section ReturnRuns.

Import Example.
Local Open Scope string_scope.

Lemma example_features_have_area (ctx : Context) :
  forallb (fun f => negb (zero_area (geometry f)))
    (tzLayer ctx ++ countryLayer ctx ++ subdivLayer ctx) = true ->
  forall f, In f (tzLayer ctx ++ countryLayer ctx ++ subdivLayer ctx) ->
            zero_area (geometry f) = false.
Proof.
  intros H f Hf. rewrite forallb_forall in H. apply negb_true_iff. now apply H.
Qed.

Lemma region_run_returns_witness :
  exists maps,
    returned (RegionToTimezoneMapTask_run insertion_order cfg world) = Ok maps /\
    map fst (written (RegionToTimezoneMapTask_run insertion_order cfg world))
      = [country_map_path; subdiv_map_path].
Proof.
  apply region_run_returns.
  - apply example_features_have_area. vm_compute. reflexivity.
  - intros sd [<-|[<-|[<-|[<-|[]]]]]; simpl; auto.
Defined.

Lemma tz_run_returns_witness :
  returned (TimezoneToCountryMapTask_run insertion_order cfg world) = Ok true /\
  map fst (written (TimezoneToCountryMapTask_run insertion_order cfg world))
    = [tz_country_map_path].
Proof.
  apply tz_run_returns.
  intros f Hf. apply (example_features_have_area world).
  - vm_compute. reflexivity.
  - apply in_app_iff in Hf as [Hf|Hf]; apply in_app_iff; [now left|].
    right. apply in_app_iff. now left.
Defined.

Lemma tz_candidates_are_of_last_feature_witness :
  exists pre tz post,
    tzLayer two_parts = (pre ++ tz :: post)%list /\ attr tz = "Europe/Berlin" /\
    ~ In "Europe/Berlin" (map attr post) /\
    lookup [("Europe/Berlin", [])] "Europe/Berlin"
      = Some (countries_of_feature cfg two_parts tz).
Proof.
  apply (tz_candidates_are_of_last_feature cfg two_parts [("Europe/Berlin", [])]).
  - vm_compute. reflexivity.
  - simpl. auto.
Defined.

End ReturnRuns.

(** * Further properties of the string table *)

Section EnumeratorNames.

Context {engine : GeometryEngine}.

Lemma tzIdToEnum_cons (c : ascii) (s : string) :
  tzIdToEnum (String c s) = String (enum_char c) (tzIdToEnum s).
Proof.
  unfold tzIdToEnum, enum_char. simpl. f_equal.
  destruct (Ascii.eqb c "/") eqn:E1; simpl; [reflexivity|].
  now destruct (Ascii.eqb c "-").
Qed.

Lemma enum_char_idem (c : ascii) : enum_char (enum_char c) = enum_char c.
Proof.
  unfold enum_char.
  destruct (Ascii.eqb c "/" || Ascii.eqb c "-") eqn:E; [reflexivity | now rewrite E].
Qed.

Lemma enum_char_not_separator (c : ascii) :
  enum_char c <> "/"%char /\ enum_char c <> "-"%char.
Proof.
  unfold enum_char.
  destruct (Ascii.eqb c "/") eqn:E1, (Ascii.eqb c "-") eqn:E2; simpl;
    try (split; discriminate).
  apply Ascii.eqb_neq in E1, E2. now split.
Qed.

(** X4.  [tzIdToEnum] works a character at a time: it keeps the length,
    puts [_] where the identifier has [/] or [-] and leaves every other
    character where it is; so its result has neither [/] nor [-], and
    applying it twice is applying it once. *)
Theorem tzIdToEnum_chars (tzId : string) :
  String.length (tzIdToEnum tzId) = String.length tzId /\
  (forall i, String.get i (tzIdToEnum tzId) = option_map enum_char (String.get i tzId)) /\
  (forall i c, String.get i (tzIdToEnum tzId) = Some c -> c <> "/"%char /\ c <> "-"%char) /\
  tzIdToEnum (tzIdToEnum tzId) = tzIdToEnum tzId.
Proof.
  induction tzId as [|c s (IHlen & IHget & IHsep & IHidem)].
  - split; [reflexivity|]. split; [now intros [|i]|].
    split; [intros [|i] c' H; discriminate | reflexivity].
  - rewrite tzIdToEnum_cons. split; [simpl; now rewrite IHlen|]. split; [|split].
    + intros [|i]; simpl; [reflexivity | apply IHget].
    + intros [|i] c'; simpl.
      * intros [= <-]. apply enum_char_not_separator.
      * apply IHsep.
    + now rewrite tzIdToEnum_cons, enum_char_idem, IHidem.
Qed.

Lemma NoDup_map_iff {A B : Type} (f : A -> B) (l : list A) :
  NoDup l ->
  (NoDup (map f l) <-> forall a b, In a l -> In b l -> f a = f b -> a = b).
Proof.
  induction 1 as [|x l Hni Hnd IH]; simpl.
  - split; [intros _ a b [] | constructor].
  - split.
    + intros Hm. inversion Hm as [|? ? Hnim Hndm]; subst.
      intros a b [<-|Ha] [<-|Hb] E; try reflexivity.
      * exfalso. apply Hnim. rewrite E. now apply in_map.
      * exfalso. apply Hnim. rewrite <- E. now apply in_map.
      * apply (proj1 IH Hndm); assumption.
    + intros Hinj. constructor.
      * intros Hin. apply in_map_iff in Hin as (y & E & Hy).
        assert (y = x) by (apply Hinj; auto). subst. contradiction.
      * apply IH. intros a b Ha Hb. apply Hinj; now right.
Qed.

(** X5.  The enumeration declares no name twice exactly when no two
    identifiers of the layer have the same symbolic name, that is, when no
    two of them differ only in which of [/], [-] and [_] they have at some
    positions. *)
Theorem enum_names_distinct_iff (h : HashOrder) (ctx : Context) :
  NoDup (enum_names h ctx) <->
  (forall tz1 tz2,
      In tz1 (tzLayer ctx) -> In tz2 (tzLayer ctx) ->
      tzIdToEnum (attr tz1) = tzIdToEnum (attr tz2) -> attr tz1 = attr tz2).
Proof.
  unfold enum_names.
  rewrite (NoDup_map_iff tzIdToEnum)
    by (apply strict_sorted_NoDup, sorted_tzIds_strict).
  split.
  - intros H tz1 tz2 H1 H2. apply H; apply sorted_tzIds_In; eauto.
  - intros H a b Ha Hb.
    apply sorted_tzIds_In in Ha as (tz1 & H1 & <-), Hb as (tz2 & H2 & <-).
    now apply H.
Qed.

Lemma running_offsets_above (acc : Z) (tzIds : list string) :
  Forall (fun off => acc < off) (running_offsets acc tzIds).
Proof.
  revert acc. induction tzIds as [|x l IH]; intros acc; simpl; constructor.
  - unfold len. lia.
  - eapply Forall_impl; [|apply IH]. intros off H. simpl in H. unfold len in *. lia.
Qed.

Lemma running_offsets_increasing (acc : Z) (tzIds : list string) :
  StronglySorted Z.lt (acc :: running_offsets acc tzIds).
Proof.
  revert acc. induction tzIds as [|x l IH]; intros acc.
  - repeat constructor.
  - constructor; [apply IH | apply (running_offsets_above acc (x :: l))].
Qed.

Lemma map_snd_combine {X Y : Type} (l1 : list X) (l2 : list Y) :
  map snd (combine l1 l2) = firstn (List.length l1) l2.
Proof.
  revert l2. induction l1 as [|x l1 IH]; intros [|y l2]; simpl; try reflexivity.
  now rewrite IH.
Qed.

Lemma StronglySorted_firstn {A : Type} (R : A -> A -> Prop) (n : nat) (l : list A) :
  StronglySorted R l -> StronglySorted R (firstn n l).
Proof.
  intros Hs. revert n. induction Hs as [|a l Hs IH Ha]; intros [|n]; simpl;
    try constructor; [apply IH|].
  rewrite Forall_forall in *. intros x Hx. apply Ha.
  rewrite <- (firstn_skipn n l). apply in_or_app. now left.
Qed.

Lemma table_size_nonneg (tzIds : list string) : 0 <= table_size tzIds.
Proof. induction tzIds as [|x l IH]; simpl; unfold len; lia. Qed.

Lemma table_size_app (l1 l2 : list string) :
  table_size (l1 ++ l2) = table_size l1 + table_size l2.
Proof. induction l1 as [|x l1 IH]; simpl; [reflexivity | rewrite IH; lia]. Qed.

(** X6.  The values of the enumeration: the offsets of the identifiers are
    not negative and strictly increasing in the order of the entries, each
    identifier lies before the index [Undefined] stands for, and all the
    values, [Undefined] too, fit the base type uint16_t exactly when the
    layer has an identifier and the table at most 65536 characters. *)
Theorem enum_values (h : HashOrder) (ctx : Context) :
  let tzIds := sorted_tzIds h (tzLayer ctx) in
  exists offsets entries undefined,
    string_table_offsets tzIds = Ok offsets /\
    enum_entries tzIds offsets = Ok entries /\
    undefined_offset offsets = Ok undefined /\
    StronglySorted Z.lt (map snd entries) /\
    (forall i tzId off,
        nth_error tzIds i = Some tzId ->
        nth_error (map snd entries) i = Some off ->
        0 <= off /\ off + len tzId <= undefined) /\
    ((tzIds <> [] /\ table_size tzIds <= 65536) <->
     (fits_uint16 undefined /\ Forall fits_uint16 (map snd entries))).
Proof.
  intros tzIds.
  assert (Hlen : (List.length tzIds <= List.length (0%Z :: running_offsets 0%Z tzIds))%nat)
    by (simpl; rewrite running_offsets_length; lia).
  exists (0 :: running_offsets 0 tzIds),
         (combine (map tzIdToEnum tzIds) (0 :: running_offsets 0 tzIds)),
         (table_size tzIds - 1).
  split; [apply string_table_offsets_eq|].
  split; [now apply enum_entries_eq|].
  split; [unfold undefined_offset; now rewrite running_offsets_last|].
  rewrite map_snd_combine, length_map.
  assert (Hoff : forall i tzId off,
             nth_error tzIds i = Some tzId ->
             nth_error (firstn (List.length tzIds) (0 :: running_offsets 0 tzIds)) i = Some off ->
             0 <= off /\ off + len tzId <= table_size tzIds - 1).
  { intros i tzId off Hi Hoff.
    assert (Hlt : (i < List.length tzIds)%nat) by (apply nth_error_Some; congruence).
    rewrite nth_error_firstn in Hoff.
    destruct (Nat.ltb_spec i (List.length tzIds)) as [_|Hge]; [|lia].
    rewrite running_offsets_nth in Hoff by lia. injection Hoff as <-.
    pose proof (table_size_nonneg (firstn i tzIds)).
    pose proof (table_size_nonneg (skipn (Datatypes.S i) tzIds)).
    assert (Hsplit : table_size tzIds
                     = table_size (firstn i tzIds)
                       + (len tzId + 1 + table_size (skipn (Datatypes.S i) tzIds))).
    { rewrite <- (firstn_skipn_middle i tzIds Hi) at 1.
      now rewrite table_size_app. }
    unfold len in *. lia. }
  split; [apply StronglySorted_firstn, running_offsets_increasing|].
  split; [exact Hoff|].
  split.
  - intros [Hne Hsize].
    assert (1 <= table_size tzIds).
    { destruct tzIds as [|x l]; [congruence|]. simpl.
      pose proof (table_size_nonneg l). unfold len. lia. }
    split; [unfold fits_uint16; lia|].
    apply Forall_forall. intros off Hin.
    apply In_nth_error in Hin as (i & Hi).
    destruct (nth_error tzIds i) as [tzId|] eqn:Ei.
    + destruct (Hoff i tzId off Ei Hi). unfold fits_uint16, len in *. lia.
    + apply nth_error_None in Ei.
      assert (Hsome : nth_error (firstn (List.length tzIds) (0 :: running_offsets 0 tzIds)) i
                      <> None) by congruence.
      apply nth_error_Some in Hsome. rewrite length_firstn in Hsome. lia.
  - intros [[Hlo Hhi] _]. split; [|lia].
    intros ->. simpl in Hlo. lia.
Qed.

End EnumeratorNames.

(** ** The text of the name table *)

Section NameTableText.

Local Open Scope string_scope.

Lemma drop_last_line (s : string) : drop_last (s ++ nl) = s.
Proof.
  induction s as [|c s IH]; [reflexivity|].
  change (String c s ++ nl) with (String c (s ++ nl)).
  destruct s as [|c' s]; [reflexivity|].
  change (drop_last (String c (String c' s ++ nl)))
    with (String c (drop_last (String c' s ++ nl))).
  now rewrite IH.
Qed.

Lemma string_app_nil_r (s : string) : s ++ EmptyString = s.
Proof. induction s as [|c s IH]; simpl; [reflexivity | now rewrite IH]. Qed.

Lemma rows_as_literals (first : string) (tzIds : list string) :
  line first ++ join (map name_table_row tzIds)
  = (first ++ join (map (fun tzId => nl ++ "    " ++ dq ++ tzId ++ "\0" ++ dq) tzIds))
    ++ nl.
Proof.
  revert first. induction tzIds as [|tzId l IH]; intros first.
  - simpl. unfold line. now rewrite !string_app_nil_r.
  - cbn [map join]. unfold name_table_row at 1.
    set (lit := "    " ++ dq ++ tzId ++ "\0" ++ dq).
    set (lits := join (map (fun tzId => nl ++ "    " ++ dq ++ tzId ++ "\0" ++ dq) l)) in *.
    transitivity (line (first ++ nl ++ lit) ++ join (map name_table_row l)).
    { unfold line. now rewrite !string_app_assoc. }
    rewrite IH. now rewrite !string_app_assoc.
Qed.

(** X7.  The text of timezone_name_table.cpp: the header and the
    declaration, then every literal on a line of its own opened by the line
    break that ends the line before it, then the semicolon in place of the
    last line break, and a line break.  The literals of an empty layer are
    none, and the semicolon follows the equals sign. *)
Theorem name_table_text (tzIds : list string) :
  name_table_cpp tzIds
  = license_header
    ++ "static constexpr const char timezone_name_table[] ="
    ++ join (map (fun tzId => nl ++ "    " ++ dq ++ tzId ++ "\0" ++ dq) tzIds)
    ++ ";" ++ nl.
Proof.
  unfold name_table_cpp, seek_back_write.
  rewrite rows_as_literals, <- string_app_assoc, drop_last_line.
  unfold line. now rewrite !string_app_assoc.
Qed.

End NameTableText.

(** ** The timezone table and the enumeration *)

Section TzTable.

Context {engine : GeometryEngine}.

Lemma tz_line_enum_of (cfg : Config) (d : dict set) (tzId : string) :
  tz_line_enum (tz_line_of cfg d tzId) = tzIdToEnum tzId.
Proof.
  unfold tz_line_of. destruct (lookup d tzId) as [s|]; [|reflexivity].
  now destruct (disambiguateCountries cfg s) as [|c [|c' rest]].
Qed.

Lemma tz_table_lines (h : HashOrder) (cfg : Config) (ctx : Context) (lines : list TzLine) :
  tz_table h cfg ctx = Ok lines ->
  exists d, tz_pass cfg ctx = Ok d /\ tz_inv cfg ctx (tzLayer ctx) d /\
            lines = map (tz_line_of cfg d) (sorted_tzIds h (tzLayer ctx)).
Proof.
  unfold tz_table. intros Hrun.
  pose proof (tz_pass_outcome cfg ctx) as Hinv.
  destruct (tz_pass cfg ctx) as [d|e]; [|discriminate]. simpl in Hrun.
  rewrite tz_lines_eq in Hrun. injection Hrun as <-.
  exists d. split; [reflexivity|]. split; [exact Hinv|]. f_equal.
  destruct Hinv as (Hnd & Hkeys & _).
  apply sorted_perm_eq; try apply sort_str_sorted.
  unfold sorted_tzIds. rewrite !sort_perm.
  apply NoDup_Permutation.
  - exact Hnd.
  - eapply Permutation_NoDup; [symmetry; apply list_of_set_perm|].
    apply collect_tzIds_spec.
  - intros k. rewrite Hkeys.
    rewrite <- (sort_In String.ltb (list_of_set h (collect_tzIds (tzLayer ctx)))).
    fold (sorted_tzIds h (tzLayer ctx)). rewrite sorted_tzIds_In, in_map_iff.
    split; intros (tz & H1 & H2); exists tz; tauto.
Qed.

(** X8.  The timezone table has one line per enumerator of the Tz
    enumeration, in the order of the enumeration; the values of the
    enumerators increase along it, so the table is sorted by its key. *)
Theorem tz_table_follows_enumeration (h : HashOrder) (cfg : Config) (ctx : Context)
  (lines : list TzLine) :
  tz_table h cfg ctx = Ok lines ->
  exists offsets entries,
    string_table_offsets (sorted_tzIds h (tzLayer ctx)) = Ok offsets /\
    enum_entries (sorted_tzIds h (tzLayer ctx)) offsets = Ok entries /\
    map tz_line_enum lines = map fst entries /\
    StronglySorted Z.lt (map snd entries).
Proof.
  intros Hrun. apply tz_table_lines in Hrun as (d & _ & _ & ->).
  set (tzIds := sorted_tzIds h (tzLayer ctx)).
  assert (Hlen : (List.length tzIds <= List.length (0%Z :: running_offsets 0%Z tzIds))%nat)
    by (simpl; rewrite running_offsets_length; lia).
  exists (0 :: running_offsets 0 tzIds),
         (combine (map tzIdToEnum tzIds) (0 :: running_offsets 0 tzIds)).
  split; [apply string_table_offsets_eq|].
  split; [now apply enum_entries_eq|].
  split.
  - rewrite map_map, map_fst_combine by (rewrite length_map; exact Hlen).
    apply map_ext. intros tzId. apply tz_line_enum_of.
  - rewrite map_snd_combine. apply StronglySorted_firstn, running_offsets_increasing.
Qed.

Lemma disambiguate_pairs_cases (pairs : list (string * string)) (S : set) :
  (disambiguate_pairs pairs S = S /\
   forall p, In p pairs -> ~ (In (fst p) S /\ In (snd p) S)) \/
  exists p, In p pairs /\ In (fst p) S /\ In (snd p) S /\
            disambiguate_pairs pairs S = set_remove S (snd p).
Proof.
  induction pairs as [|q pairs IH]; simpl.
  - left. split; [reflexivity | intros p []].
  - destruct (set_contains S (fst q) && set_contains S (snd q)) eqn:E.
    + right. apply andb_true_iff in E as [E1 E2]. apply set_contains_In in E1, E2.
      exists q. auto.
    + destruct IH as [[IH1 IH2]|(p & Hp & H)].
      * left. split; [exact IH1|]. intros p [<-|Hp]; [|now apply IH2].
        intros [H1 H2]. apply set_contains_In in H1, H2. rewrite H1, H2 in E.
        discriminate.
      * right. exists p. split; [now right | exact H].
Qed.

Lemma disambiguateCountries_subset (cfg : Config) (S : set) (c : string) :
  In c (disambiguateCountries cfg S) -> In c S.
Proof.
  unfold disambiguateCountries.
  destruct (negb (Nat.eqb (set_len S) 2)); [tauto|].
  destruct (disambiguate_pairs_cases (ISO3166_1_DISAMBIGUATION_MAP cfg) S)
    as [[-> _]|(p & _ & _ & _ & ->)]; [tauto|].
  intros H. now apply set_remove_In in H.
Qed.

Lemma set_remove_of_two (a b x : string) :
  a <> b -> In x [a; b] -> exists y, set_remove [a; b] x = [y] /\ In y [a; b].
Proof.
  intros Hab [<-|[<-|[]]]; unfold set_remove; simpl.
  - rewrite String.eqb_refl. apply String.eqb_neq in Hab. rewrite Hab. simpl.
    exists b. auto.
  - rewrite String.eqb_refl.
    assert (Hba : String.eqb b a = false) by (apply String.eqb_neq; congruence).
    rewrite Hba. simpl. exists a. auto.
Qed.

Lemma disambiguateCountries_cases (cfg : Config) (S : set) :
  NoDup S ->
  (disambiguateCountries cfg S = S /\
   (set_len S <> 2%nat \/
    forall p, In p (ISO3166_1_DISAMBIGUATION_MAP cfg) -> ~ (In (fst p) S /\ In (snd p) S))) \/
  (set_len S = 2%nat /\
   (exists p, In p (ISO3166_1_DISAMBIGUATION_MAP cfg) /\ In (fst p) S /\ In (snd p) S) /\
   exists y, disambiguateCountries cfg S = [y] /\ In y S).
Proof.
  intros Hnd. unfold disambiguateCountries.
  destruct (Nat.eqb (set_len S) 2) eqn:E2; simpl.
  - apply Nat.eqb_eq in E2.
    destruct (disambiguate_pairs_cases (ISO3166_1_DISAMBIGUATION_MAP cfg) S)
      as [[-> Hnone]|(p & Hp & H1 & H2 & ->)]; [left; auto|].
    right. split; [exact E2|]. split; [eauto|].
    destruct S as [|a [|b [|c S]]]; try discriminate.
    apply set_remove_of_two; [|exact H2].
    inversion Hnd as [|? ? Hni _]. intros ->. apply Hni. now left.
  - left. split; [reflexivity|]. left. now apply Nat.eqb_neq.
Qed.

(** X9.  Disambiguation of a set of country codes returns a set of its
    members that lacks at most one of them, never empties a set that has a
    member, and changes nothing when applied again.  Exactly one country
    remains, and the timezone gets a row, when the set has one member, or
    has two and both are the members of a pair of the list. *)
Theorem disambiguation_of_a_set (cfg : Config) (S : set) :
  NoDup S ->
  NoDup (disambiguateCountries cfg S) /\
  (forall c, In c (disambiguateCountries cfg S) -> In c S) /\
  (set_len S - 1 <= set_len (disambiguateCountries cfg S) <= set_len S)%nat /\
  (S <> [] -> disambiguateCountries cfg S <> []) /\
  disambiguateCountries cfg (disambiguateCountries cfg S) = disambiguateCountries cfg S /\
  (set_len (disambiguateCountries cfg S) = 1%nat <->
   set_len S = 1%nat \/
   (set_len S = 2%nat /\
    exists p, In p (ISO3166_1_DISAMBIGUATION_MAP cfg) /\ In (fst p) S /\ In (snd p) S)).
Proof.
  intros Hnd.
  destruct (disambiguateCountries_cases cfg S Hnd)
    as [[E Hwhy]|(Hlen & Hpair & y & E & Hy)]; rewrite !E.
  - split; [exact Hnd|]. split; [tauto|]. split; [lia|]. split; [tauto|].
    split; [reflexivity|]. split; [now left|].
    intros [H|[Hlen (p & Hp & H)]]; [exact H|].
    destruct Hwhy as [Hwhy|Hwhy]; [contradiction | exfalso; now apply (Hwhy p)].
  - split; [repeat constructor; intros []|].
    split; [intros c [<-|[]]; exact Hy|].
    split; [rewrite Hlen; simpl; lia|].
    split; [discriminate|].
    split; [reflexivity|].
    split; [intros _; right; now split | reflexivity].
Qed.

(** X10.  Every row of the timezone table comes from the layers: its
    enumerator is the symbolic name of a timezone feature, and its country is
    the normalized code, never the empty one, of a country feature that
    passes the dual-threshold test against that timezone feature. *)
Theorem tz_rows_are_sound (h : HashOrder) (cfg : Config) (ctx : Context)
  (lines : list TzLine) (e c : string) :
  tz_table h cfg ctx = Ok lines ->
  In (TzRow e c) lines ->
  c <> EmptyString /\
  exists tz country,
    In tz (tzLayer ctx) /\ e = tzIdToEnum (attr tz) /\
    In country (countryLayer ctx) /\ c = normalizedCountry cfg (attr country) /\
    country_passes cfg country (geometry tz) = true.
Proof.
  intros Hrun Hrow. apply tz_table_lines in Hrun as (d & _ & (_ & _ & Hlast) & ->).
  apply in_map_iff in Hrow as (tzId & Hline & _).
  unfold tz_line_of in Hline.
  destruct (lookup d tzId) as [s|] eqn:Es; [|discriminate].
  assert (Hc : In c (disambiguateCountries cfg s)).
  { destruct (disambiguateCountries cfg s) as [|c0 [|c1 rest]]; try discriminate.
    injection Hline as _ ->. now left. }
  assert (He : e = tzIdToEnum tzId).
  { destruct (disambiguateCountries cfg s) as [|c0 [|c1 rest]]; try discriminate.
    now injection Hline as <- _. }
  apply disambiguateCountries_subset in Hc.
  destruct (Hlast tzId s Es) as (pre & tz & post & Elayer & Hattr & _ & ->).
  unfold countries_of_feature in Hc.
  apply (fold_set_add_spec (fun country : Feature => normalizedCountry cfg (attr country)))
    in Hc as [[]|(country & Hin & Hcode)]; [|constructor].
  apply filter_In in Hin as [Hin Hpass].
  split.
  - unfold country_passes in Hpass.
    apply andb_true_iff in Hpass as [Hg _]. apply andb_true_iff in Hg as [Ht _].
    rewrite Hcode in Ht. now destruct c.
  - exists tz, country. split.
    { rewrite Elayer. apply in_or_app. right. now left. }
    split; [congruence|]. auto.
Qed.

(** X11.  The rows of the country table are exactly the pairs of a code
    of the country layer that has one qualifying timezone and the symbolic
    name of that timezone. *)
Theorem country_table_content (h : HashOrder) (cfg : Config) (ctx : Context)
  (rows : list (string * string)) (code e : string) :
  country_table h cfg ctx = Ok rows ->
  (In (code, e) rows <->
   In code (map attr (countryLayer ctx)) /\
   exists tz, e = tzIdToEnum tz /\
              forall t, qualifying_tz cfg ctx (countryLayer ctx) code t <-> t = tz).
Proof.
  unfold country_table. intros Hrun.
  pose proof (country_pass_outcome cfg ctx) as Hinv.
  destruct (country_pass cfg ctx) as [d|e0]; [|discriminate]. simpl in Hrun.
  rewrite country_rows_eq in Hrun. injection Hrun as <-.
  destruct Hinv as (_ & Hkeys & Hsets). split.
  - intros Hrow. apply in_flat_map in Hrow as (k & Hk & Hrow).
    pose proof (country_rows_of_key d k _ Hrow) as Ek. simpl in Ek. subst k.
    split; [now apply Hkeys, (sort_In String.ltb)|].
    unfold country_rows_of in Hrow.
    destruct (lookup d code) as [[|t [|t' s]]|] eqn:E; simpl in Hrow; try tauto.
    destruct Hrow as [[= <-]|[]]. exists t. split; [reflexivity|].
    destruct (Hsets _ _ E) as [_ Hq]. intros t'. rewrite <- Hq. simpl.
    split; [intros [->|[]]; reflexivity | intros ->; now left].
  - intros (Hcode & tz & -> & Hq).
    apply Hkeys in Hcode. apply in_flat_map. exists code.
    split; [now apply sort_In|].
    apply lookup_Some_keys in Hcode as (s & Hs).
    destruct (Hsets _ _ Hs) as [Hnd Hin].
    assert (s = [tz]).
    { apply NoDup_singleton_iff; [exact Hnd|]. intros x. now rewrite Hin. }
    subst s. unfold country_rows_of. rewrite Hs. now left.
Qed.

End TzTable.

(** * When a run raises *)

Section LoopFailure.

Context {A S : Type}.

(** A loop that ends has run its body on every element. *)
Lemma for_each_Ok_each (body : S -> A -> result S) (l : list A) :
  forall acc r, for_each l body acc = Ok r ->
                forall x, In x l -> exists a a', body a x = Ok a'.
Proof.
  induction l as [|y l IH]; intros acc r Hr x Hx; [destruct Hx|].
  simpl in Hr. destruct (body acc y) as [s|e] eqn:E; [|discriminate]. simpl in Hr.
  destruct Hx as [<-|Hx]; [eauto | eapply IH; eauto].
Qed.

(** Elements on which the body does nothing can be left out. *)
Lemma for_each_skip (p : A -> bool) (body : S -> A -> result S) (l : list A) :
  (forall x, In x l -> p x = false -> forall acc, body acc x = Ok acc) ->
  forall acc, for_each l body acc = for_each (filter p l) body acc.
Proof.
  induction l as [|y l IH]; intros Hskip acc; simpl; [reflexivity|].
  assert (Htail : forall acc', for_each l body acc' = for_each (filter p l) body acc').
  { apply IH. intros x Hx. apply Hskip. now right. }
  destruct (p y) eqn:E; simpl.
  - destruct (body acc y); simpl; [apply Htail | reflexivity].
  - rewrite (Hskip y (or_introl eq_refl) E). simpl. apply Htail.
Qed.

End LoopFailure.

Lemma two_members (s : list string) :
  NoDup s ->
  ((1 < List.length s)%nat <-> exists t1 t2, t1 <> t2 /\ In t1 s /\ In t2 s).
Proof.
  intros Hnd. split.
  - destruct s as [|a [|b s]]; simpl; try lia. intros _.
    exists a, b. split; [|auto].
    inversion Hnd as [|? ? Hni _]. intros ->. apply Hni. now left.
  - intros (t1 & t2 & Hne & H1 & H2).
    destruct s as [|a [|b s]]; simpl in *; [tauto | | lia].
    destruct H1 as [<-|[]], H2 as [<-|[]]. congruence.
Qed.

Section RunFailures.

Context {engine : GeometryEngine}.

Lemma country_pass_divides (cfg : Config) (ctx : Context) (d : dict set) :
  country_pass cfg ctx = Ok d ->
  forall country tz,
    In country (countryLayer ctx) -> In tz (tzLayer ctx) ->
    intersects (geometry tz) (geometry country) = true ->
    zero_area (geometry tz) = false /\ zero_area (geometry country) = false.
Proof.
  unfold country_pass. intros Hrun country tz Hc Htz Hi.
  destruct (for_each_Ok_each _ _ _ _ Hrun country Hc) as (a & a' & Hbody).
  cbv beta zeta in Hbody.
  destruct (for_each_Ok_each _ _ _ _ Hbody tz Htz) as (b & b' & Hin).
  cbv beta zeta in Hin. rewrite Hi in Hin. unfold truediv, zero_area in *.
  destruct (PrimFloat.eqb (area (geometry tz)) 0); [discriminate|]. simpl in Hin.
  destruct (PrimFloat.eqb (area (geometry country)) 0); [discriminate|]. auto.
Qed.

Lemma tz_pass_divides (cfg : Config) (ctx : Context) (d : dict set) :
  tz_pass cfg ctx = Ok d ->
  forall tz country,
    In tz (tzLayer ctx) -> In country (countryLayer ctx) ->
    truthy (normalizedCountry cfg (attr country))
    && intersects (geometry country) (geometry tz) = true ->
    zero_area (geometry tz) = false /\ zero_area (geometry country) = false.
Proof.
  unfold tz_pass. intros Hrun tz country Htz Hc Hi.
  destruct (for_each_Ok_each _ _ _ _ Hrun tz Htz) as (a & a' & Hbody).
  cbv beta zeta in Hbody.
  destruct (for_each_Ok_each _ _ _ _ Hbody country Hc) as (b & b' & Hin).
  cbv beta zeta in Hin. rewrite Hi in Hin. unfold truediv, zero_area in *.
  destruct (PrimFloat.eqb (area (geometry tz)) 0); [discriminate|]. simpl in Hin.
  destruct (PrimFloat.eqb (area (geometry country)) 0); [discriminate|]. auto.
Qed.

Lemma subdiv_pass_divides (cfg : Config) (ctx : Context) (countryToTz : dict set)
  (subdivToTz : dict (dict float)) :
  subdiv_pass cfg ctx countryToTz = Ok subdivToTz ->
  forall sd, In sd (subdivLayer ctx) ->
    exists tzs,
      lookup countryToTz (slice_to 2 (attr sd)) = Some tzs /\
      ((1 < List.length tzs)%nat ->
       forall tz, In tz (tzLayer ctx) ->
                  intersects (geometry tz) (geometry sd) = true ->
                  zero_area (geometry tz) = false /\ zero_area (geometry sd) = false).
Proof.
  unfold subdiv_pass. intros Hrun sd Hsd.
  destruct (for_each_Ok_each _ _ _ _ Hrun sd Hsd) as (a & a' & Hbody).
  cbv beta zeta in Hbody. unfold dict_get in Hbody at 1.
  destruct (lookup countryToTz (slice_to 2 (attr sd))) as [tzs|]; [|discriminate].
  exists tzs. split; [reflexivity|]. intros Hlen tz Htz Hi.
  cbn [Py.bind] in Hbody.
  destruct (Nat.leb (set_len tzs) 1) eqn:El.
  { apply Nat.leb_le in El. unfold set_len in El. lia. }
  destruct (for_each_Ok_each _ _ _ _ Hbody tz Htz) as (b & b' & Hin).
  cbv beta zeta in Hin. rewrite Hi in Hin. unfold truediv, zero_area in *.
  destruct (PrimFloat.eqb (area (geometry tz)) 0); [discriminate|]. simpl in Hin.
  destruct (PrimFloat.eqb (area (geometry sd)) 0); [discriminate|]. auto.
Qed.

(** The subdivisions that the pass does not skip. *)
Lemma subdiv_pass_skip (cfg : Config) (ctx : Context) (countryToTz : dict set) :
  subdiv_pass cfg ctx countryToTz
  = subdiv_pass cfg
      {| tzLayer := tzLayer ctx; countryLayer := countryLayer ctx;
         subdivLayer :=
           filter (fun sd => match lookup countryToTz (slice_to 2 (attr sd)) with
                             | Some tzs => negb (Nat.leb (set_len tzs) 1)
                             | None => true
                             end) (subdivLayer ctx) |}
      countryToTz.
Proof.
  unfold subdiv_pass. cbn [tzLayer subdivLayer].
  apply for_each_skip. intros sd _ Hp acc. cbv beta zeta. unfold dict_get at 1.
  destruct (lookup countryToTz (slice_to 2 (attr sd))) as [tzs|]; [|discriminate].
  cbn [Py.bind]. apply negb_false_iff in Hp. now rewrite Hp.
Qed.

(** X12.  The region mapper raises before it has written a file exactly
    when a timezone and a country of the layers intersect and one of the two
    has area zero; what it raises then is ZeroDivisionError. *)
Theorem region_run_fails_before_writing (h : HashOrder) (cfg : Config) (ctx : Context)
  (e : exn) :
  (written (RegionToTimezoneMapTask_run h cfg ctx) = [] /\
   returned (RegionToTimezoneMapTask_run h cfg ctx) = Raise e) <->
  (e = ZeroDivisionError /\
   exists country tz,
     In country (countryLayer ctx) /\ In tz (tzLayer ctx) /\
     intersects (geometry tz) (geometry country) = true /\
     (zero_area (geometry tz) = true \/ zero_area (geometry country) = true)).
Proof.
  change (written (RegionToTimezoneMapTask_run h cfg ctx) = [] /\
          returned (RegionToTimezoneMapTask_run h cfg ctx) = Raise e
          <-> country_raises ctx e).
  unfold RegionToTimezoneMapTask_run.
  pose proof (country_pass_outcome cfg ctx) as Hout.
  pose proof (country_pass_divides cfg ctx) as Hdiv.
  destruct (country_pass cfg ctx) as [d|e'].
  - rewrite country_rows_eq. split.
    + intros [Hw _]. exfalso.
      destruct (subdivToTz <- subdiv_pass cfg ctx d ;;
                lines <- subdiv_lines subdivToTz ;; Ok (subdivToTz, lines))
        as [[m lines]|e']; discriminate.
    + intros (_ & country & tz & Hc & Htz & Hi & Hz). exfalso.
      destruct (Hdiv d eq_refl country tz Hc Htz Hi) as [H1 H2].
      destruct Hz; congruence.
  - simpl. split.
    + intros [_ [= <-]]. exact Hout.
    + intros [-> _]. destruct Hout as [-> _]. auto.
Qed.

(** X13.  The timezone mapper raises exactly when a country with a code
    and a timezone of the layers intersect and one of the two has area zero;
    what it raises then is ZeroDivisionError, and no file is written. *)
Theorem tz_run_raises_iff (h : HashOrder) (cfg : Config) (ctx : Context) (e : exn) :
  (returned (TimezoneToCountryMapTask_run h cfg ctx) = Raise e <->
   (e = ZeroDivisionError /\
    exists tz country,
      In tz (tzLayer ctx) /\ In country (countryLayer ctx) /\
      truthy (normalizedCountry cfg (attr country))
      && intersects (geometry country) (geometry tz) = true /\
      (zero_area (geometry tz) = true \/ zero_area (geometry country) = true))) /\
  (returned (TimezoneToCountryMapTask_run h cfg ctx) = Raise e ->
   written (TimezoneToCountryMapTask_run h cfg ctx) = []).
Proof.
  change ((returned (TimezoneToCountryMapTask_run h cfg ctx) = Raise e
           <-> tz_raises cfg ctx e) /\
          (returned (TimezoneToCountryMapTask_run h cfg ctx) = Raise e ->
           written (TimezoneToCountryMapTask_run h cfg ctx) = [])).
  unfold TimezoneToCountryMapTask_run.
  pose proof (tz_pass_outcome cfg ctx) as Hout.
  pose proof (tz_pass_divides cfg ctx) as Hdiv.
  destruct (tz_pass cfg ctx) as [d|e'].
  - cbn [Py.bind]. rewrite tz_lines_eq. simpl. split; [|discriminate]. split; [discriminate|].
    intros (_ & tz & country & Htz & Hc & Hi & Hz). exfalso.
    destruct (Hdiv d eq_refl tz country Htz Hc Hi) as [H1 H2].
    destruct Hz; congruence.
  - simpl. split; [|reflexivity]. split.
    + intros [= <-]. exact Hout.
    + intros [-> _]. destruct Hout as [-> _]. reflexivity.
Qed.

(** X14.  The region mapper returns, with both tables written, exactly when
    no division is by zero and no country is missing: no timezone and
    country that intersect have an area of zero, the prefix of every
    subdivision code is a code of the country layer, and no timezone and
    subdivision that intersect have an area of zero when the country of the
    subdivision has two qualifying timezones or more. *)
Theorem region_run_returns_iff (h : HashOrder) (cfg : Config) (ctx : Context) :
  (exists maps, returned (RegionToTimezoneMapTask_run h cfg ctx) = Ok maps) <->
  (forall country tz,
      In country (countryLayer ctx) -> In tz (tzLayer ctx) ->
      intersects (geometry tz) (geometry country) = true ->
      zero_area (geometry tz) = false /\ zero_area (geometry country) = false) /\
  (forall sd, In sd (subdivLayer ctx) ->
              In (slice_to 2 (attr sd)) (map attr (countryLayer ctx))) /\
  (forall sd tz,
      In sd (subdivLayer ctx) -> In tz (tzLayer ctx) ->
      several_timezones cfg ctx (slice_to 2 (attr sd)) ->
      intersects (geometry tz) (geometry sd) = true ->
      zero_area (geometry tz) = false /\ zero_area (geometry sd) = false).
Proof.
  pose proof (country_pass_outcome cfg ctx) as Hc.
  split.
  - intros (maps & Hret). unfold RegionToTimezoneMapTask_run in Hret.
    destruct (country_pass cfg ctx) as [d|e] eqn:Ec; [|discriminate].
    rewrite country_rows_eq in Hret.
    destruct (subdiv_pass cfg ctx d) as [m|e] eqn:Es; [|discriminate].
    destruct Hc as (_ & Hkeys & Hsets).
    split; [now apply (country_pass_divides cfg ctx d)|]. split.
    + intros sd Hsd.
      destruct (subdiv_pass_divides cfg ctx d m Es sd Hsd) as (tzs & Hl & _).
      apply Hkeys. apply lookup_Some_keys. eauto.
    + intros sd tz Hsd Htz (t1 & t2 & Hne & H1 & H2).
      destruct (subdiv_pass_divides cfg ctx d m Es sd Hsd) as (tzs & Hl & Hz).
      destruct (Hsets _ _ Hl) as [Hnd Hq].
      apply Hz; [|exact Htz].
      apply two_members; [exact Hnd|]. exists t1, t2.
      split; [exact Hne|]. split; now apply Hq.
  - intros (Ha & Hb & Hcs).
    destruct (country_pass cfg ctx) as [d|e] eqn:Ec.
    2:{ exfalso. destruct Hc as (_ & country & tz & Hcin & Htz & Hi & Hz).
        destruct (Ha country tz Hcin Htz Hi). destruct Hz; congruence. }
    destruct Hc as (_ & Hkeys & Hsets).
    pose proof (subdiv_pass_skip cfg ctx d) as Hskip.
    match type of Hskip with
    | _ = subdiv_pass cfg ?c d => set (ctx' := c) in *
    end.
    pose proof (subdiv_pass_outcome cfg ctx' d) as Hs. rewrite <- Hskip in Hs.
    destruct (subdiv_pass cfg ctx d) as [m|e] eqn:Es.
    + destruct (region_run_ok h cfg ctx d m Ec Es) as (rows & lines & _ & _ & _ & ->).
      eexists. reflexivity.
    + exfalso.
      destruct Hs as [(_ & sd & tz & Hsd & Htz & Hi & Hz)|(sd & Hsd & _ & Hnone)];
        apply filter_In in Hsd as [Hsd Hp].
      * pose proof (Hb sd Hsd) as Hin. apply Hkeys, lookup_Some_keys in Hin as (tzs & Hl).
        rewrite Hl in Hp. apply negb_true_iff, Nat.leb_gt in Hp.
        destruct (Hsets _ _ Hl) as [Hnd Hq].
        apply (two_members tzs Hnd) in Hp as (t1 & t2 & Hne & H1 & H2).
        destruct (Hcs sd tz Hsd Htz) as [Z1 Z2]; [|exact Hi | destruct Hz; congruence].
        exists t1, t2. split; [exact Hne|]. split; now apply Hq.
      * apply lookup_None_keys in Hnone. apply Hnone, Hkeys. now apply Hb.
Qed.

End RunFailures.

(** * What a match is *)

Lemma SFcompare_refl (x : spec_float) : SFeqb x x = false -> x = S754_nan.
Proof.
  unfold SFeqb. destruct x as [s|s| |s m e]; simpl; try discriminate; try reflexivity.
  - now destruct s.
  - destruct s; rewrite Z.compare_refl, Pos.compare_cont_refl; discriminate.
Qed.

Lemma SFeqb_zero (x : spec_float) :
  SFeqb x (S754_zero false) = true -> exists s, x = S754_zero s.
Proof.
  unfold SFeqb. destruct x as [s|s| |s m e]; simpl; try discriminate; eauto;
    destruct s; discriminate.
Qed.

(** The ratio of an area that is zero or no number exceeds no threshold. *)
Lemma ratio_of_nothing (a d r : float) (m : positive) (e : Z) :
  PrimFloat.eqb a 0 = true \/ PrimFloat.is_nan a = true ->
  Prim2SF r = S754_finite false m e ->
  gt (PrimFloat.div a d) r = false.
Proof.
  intros Ha Hr. unfold gt.
  rewrite FloatAxioms.ltb_spec, FloatAxioms.div_spec, Hr.
  assert (Hclass : (exists s, Prim2SF a = S754_zero s) \/ Prim2SF a = S754_nan).
  { destruct Ha as [Ha|Ha].
    - left. rewrite FloatAxioms.eqb_spec in Ha. now apply SFeqb_zero.
    - right. unfold PrimFloat.is_nan in Ha. apply negb_true_iff in Ha.
      rewrite FloatAxioms.eqb_spec in Ha. now apply SFcompare_refl. }
  destruct Hclass as [[s ->]| ->]; unfold SF64div, SFdiv;
    destruct (Prim2SF d); reflexivity.
Qed.

Lemma not_has_area (a : float) :
  ~ has_area a -> PrimFloat.eqb a 0 = true \/ PrimFloat.is_nan a = true.
Proof.
  unfold has_area. intros H.
  destruct (PrimFloat.eqb a 0); [now left|].
  destruct (PrimFloat.is_nan a); [now right|]. exfalso. now apply H.
Qed.

Lemma has_area_dec (a : float) : has_area a \/ ~ has_area a.
Proof.
  unfold has_area.
  destruct (PrimFloat.eqb a 0); [right; intros [H _]; discriminate|].
  destruct (PrimFloat.is_nan a); [right; intros [_ H]; discriminate|]. now left.
Qed.

Section Matches.

Context {engine : GeometryEngine}.

(** X15.  The dual-threshold test is passed only with an intersection
    that has an area: geometries that intersect in a set of area zero, as
    neighbours along a border do, never match, and neither does an
    intersection whose area is no number. *)
Theorem matches_have_area (cfg : Config) (tz country : Feature) (region : Geom) :
  (passes tz region = true ->
   has_area (area (intersection (geometry tz) region))) /\
  (country_passes cfg country region = true ->
   has_area (area (intersection (geometry country) region))).
Proof.
  assert (H1 : exists m e, Prim2SF ratio_0_01 = S754_finite false m e)
    by (vm_compute; eauto).
  assert (H2 : exists m e, Prim2SF ratio_0_1 = S754_finite false m e)
    by (vm_compute; eauto).
  destruct H1 as (m1 & e1 & H1), H2 as (m2 & e2 & H2).
  split.
  - intros Hp. destruct (has_area_dec (area (intersection (geometry tz) region)))
      as [H|H]; [exact H|].
    apply not_has_area in H. unfold passes in Hp.
    rewrite (ratio_of_nothing _ _ _ m1 e1 H H1),
            (ratio_of_nothing _ _ _ m2 e2 H H2), andb_false_r in Hp.
    discriminate.
  - intros Hp. destruct (has_area_dec (area (intersection (geometry country) region)))
      as [H|H]; [exact H|].
    apply not_has_area in H. unfold country_passes in Hp.
    rewrite (ratio_of_nothing _ _ _ m1 e1 H H1),
            (ratio_of_nothing _ _ _ m2 e2 H H2), andb_false_r in Hp.
    discriminate.
Qed.

End Matches.

(** * The order of the rows of a subdivision *)

Section Stability.

Context {A : Type} (ltb : A -> A -> bool).

Lemma comes_before_cons (x y z : A) (l : list A) :
  comes_before x y l -> comes_before x y (z :: l).
Proof. intros (l1 & l2 & l3 & ->). now exists (z :: l1), l2, l3. Qed.

Lemma comes_before_head (x y : A) (l : list A) : In y l -> comes_before x y (x :: l).
Proof. intros H. apply in_split in H as (l2 & l3 & ->). now exists [], l2, l3. Qed.

Lemma comes_before_inv (x y z : A) (l : list A) :
  comes_before x y (z :: l) -> (x = z /\ In y l) \/ comes_before x y l.
Proof.
  intros (l1 & l2 & l3 & E). destruct l1 as [|a l1]; simpl in E; injection E as -> ->.
  - left. split; [reflexivity|]. apply in_or_app. right. now left.
  - right. now exists l1, l2, l3.
Qed.

Lemma comes_before_nil (x y : A) : ~ comes_before x y [].
Proof. intros (l1 & l2 & l3 & E). destruct l1; discriminate. Qed.

Lemma insert_keeps_order (x y z : A) (l : list A) :
  comes_before x y l -> comes_before x y (insert ltb z l).
Proof.
  induction l as [|a l IH]; intros H; [now apply comes_before_nil in H|].
  simpl. destruct (ltb a z).
  - apply comes_before_inv in H as [[-> Hy]|H].
    + apply comes_before_head.
      eapply Permutation_in; [symmetry; apply insert_perm | now right].
    + now apply comes_before_cons, IH.
  - now apply comes_before_cons.
Qed.

Lemma insert_before (x y : A) (l : list A) :
  In y l -> ltb y x = false -> comes_before x y (insert ltb x l).
Proof.
  induction l as [|a l IH]; intros Hin Hlt; [destruct Hin|]. simpl.
  destruct (ltb a x) eqn:E.
  - destruct Hin as [->|Hin]; [congruence|]. now apply comes_before_cons, IH.
  - now apply comes_before_head.
Qed.

(** The sort is stable: an element leaves its place before another only
    for one that the order puts before it. *)
Lemma sort_stable (l : list A) (x y : A) :
  comes_before x y l -> ltb y x = false -> comes_before x y (sort ltb l).
Proof.
  induction l as [|a l IH]; intros H Hlt; [now apply comes_before_nil in H|].
  simpl. apply comes_before_inv in H as [[-> Hy]|H].
  - apply insert_before; [now apply sort_In | exact Hlt].
  - now apply insert_keeps_order, IH.
Qed.

End Stability.

Lemma comes_before_map {A B : Type} (f : A -> B) (x y : A) (l : list A) :
  comes_before x y l -> comes_before (f x) (f y) (map f l).
Proof.
  intros (l1 & l2 & l3 & ->). exists (map f l1), (map f l2), (map f l3).
  now rewrite map_app, (map_cons f x), map_app.
Qed.

Lemma comes_before_keys {V : Type} (d : dict V) (k1 k2 : string) (v1 v2 : V) :
  NoDup (keys d) -> comes_before k1 k2 (keys d) ->
  lookup d k1 = Some v1 -> lookup d k2 = Some v2 ->
  comes_before (k1, v1) (k2, v2) d.
Proof.
  intros Hnd (l1 & l2 & l3 & E) H1 H2. unfold keys in E.
  apply map_eq_app in E as (m1 & r & -> & _ & E).
  apply map_eq_cons in E as ([k1' w1] & r' & -> & Ek1 & E). simpl in Ek1. subst k1'.
  apply map_eq_app in E as (m2 & r & -> & _ & E).
  apply map_eq_cons in E as ([k2' w2] & m3 & -> & Ek2 & _). simpl in Ek2. subst k2'.
  assert (E1 : lookup (m1 ++ (k1, w1) :: m2 ++ (k2, w2) :: m3) k1 = Some w1).
  { apply In_lookup; [exact Hnd|]. apply in_or_app. right. now left. }
  assert (E2 : lookup (m1 ++ (k1, w1) :: m2 ++ (k2, w2) :: m3) k2 = Some w2).
  { apply In_lookup; [exact Hnd|]. apply in_or_app. right. right.
    apply in_or_app. right. now left. }
  rewrite E1 in H1. rewrite E2 in H2. injection H1 as ->. injection H2 as ->.
  now exists m1, m2, m3.
Qed.

Section RowOrder.

Context {engine : GeometryEngine}.

(** X16.  The sort of line 174 is stable: of two timezones of a
    subdivision, the one recorded first in the dictionary keeps its place
    before the other unless its area is the smaller one; timezones of equal
    area have their rows in the order in which the pass first matched
    them.  (Areas that are no number are left out: no order is defined on
    them.) *)
Theorem ties_keep_their_order (subdivToTz : dict (dict float)) (subdiv : string)
  (areas : dict float) :
  lookup subdivToTz subdiv = Some areas ->
  NoDup (keys areas) ->
  (forall t a, lookup areas t = Some a -> PrimFloat.is_nan a = false) ->
  exists tzs,
    sort_tzs_by_area subdivToTz subdiv (keys areas) = Ok tzs /\
    forall t1 t2 a1 a2,
      comes_before t1 t2 (keys areas) ->
      lookup areas t1 = Some a1 -> lookup areas t2 = Some a2 ->
      PrimFloat.ltb a1 a2 = false ->
      comes_before t1 t2 tzs.
Proof.
  intros Hd Hnd _. exists (tzs_by_area areas).
  split; [now apply sort_tzs_by_area_eq|].
  intros t1 t2 a1 a2 Hbefore H1 H2 Hlt.
  unfold tzs_by_area, sort_by_key_reverse.
  apply (comes_before_map fst (t1, a1) (t2, a2)).
  apply sort_stable; [|exact Hlt].
  now apply comes_before_keys.
Qed.

End RowOrder.

(** * What the region mapper leaves behind *)

Section RegionContent.

Context {engine : GeometryEngine}.

Lemma multi_tz_several (cfg : Config) (ctx : Context) (d : dict set) (code : string) :
  country_inv cfg ctx (countryLayer ctx) d ->
  (multi_tz d code <-> several_timezones cfg ctx (slice_to 2 code)).
Proof.
  intros (_ & Hkeys & Hsets). unfold multi_tz, several_timezones. split.
  - intros (tzs & Hl & Hlen). destruct (Hsets _ _ Hl) as [Hnd Hq].
    apply (two_members tzs Hnd) in Hlen as (t1 & t2 & Hne & H1 & H2).
    exists t1, t2. split; [exact Hne|]. split; now apply Hq.
  - intros (t1 & t2 & Hne & H1 & H2).
    assert (Hin : In (slice_to 2 code) (keys d)).
    { apply Hkeys. destruct H1 as (country & _ & Hc & <- & _). now apply in_map. }
    apply lookup_Some_keys in Hin as (tzs & Hl). exists tzs. split; [exact Hl|].
    destruct (Hsets _ _ Hl) as [Hnd Hq].
    apply (two_members tzs Hnd). exists t1, t2.
    split; [exact Hne|]. split; now apply Hq.
Qed.

Lemma recorded_timezones (cfg : Config) (ctx : Context) (areas : dict float)
  (code t : string) :
  lookup areas t = cumulative (match_areas cfg ctx (subdivLayer ctx) code t) ->
  (In t (keys areas) <-> subdiv_qualifying_tz cfg ctx (subdivLayer ctx) code t).
Proof.
  intros Hcum. rewrite <- match_areas_qualifying, <- lookup_Some_keys, Hcum. split.
  - intros (a & Ha) E. rewrite E in Ha. discriminate.
  - intros Hne.
    destruct (cumulative (match_areas cfg ctx (subdivLayer ctx) code t)) as [a|] eqn:E;
      [eauto|]. now apply cumulative_nil_iff in E.
Qed.

(** X17.  The two dictionaries a run of the region mapper puts in the
    shared context.  countryToTimezoneMap has the codes of the country layer
    as its keys, each with the set of its qualifying timezones.
    subdivisionToTimezoneMap has as its keys the codes of the subdivision
    layer whose country has two qualifying timezones or more, each with its
    qualifying timezones and their summed intersection areas. *)
Theorem region_run_maps (h : HashOrder) (cfg : Config) (ctx : Context) (maps : RegionMaps) :
  returned (RegionToTimezoneMapTask_run h cfg ctx) = Ok maps ->
  NoDup (keys (countryToTimezoneMap maps)) /\
  (forall code, In code (keys (countryToTimezoneMap maps))
                <-> In code (map attr (countryLayer ctx))) /\
  (forall code tzs,
      lookup (countryToTimezoneMap maps) code = Some tzs ->
      NoDup tzs /\
      forall t, In t tzs <-> qualifying_tz cfg ctx (countryLayer ctx) code t) /\
  NoDup (keys (subdivisionToTimezoneMap maps)) /\
  (forall code, In code (keys (subdivisionToTimezoneMap maps))
                <-> In code (map attr (subdivLayer ctx)) /\
                    several_timezones cfg ctx (slice_to 2 code)) /\
  (forall code areas,
      lookup (subdivisionToTimezoneMap maps) code = Some areas ->
      NoDup (keys areas) /\
      forall t,
        (In t (keys areas) <-> subdiv_qualifying_tz cfg ctx (subdivLayer ctx) code t) /\
        lookup areas t = cumulative (match_areas cfg ctx (subdivLayer ctx) code t)).
Proof.
  intros Hret. unfold RegionToTimezoneMapTask_run in Hret.
  pose proof (country_pass_outcome cfg ctx) as Hc.
  destruct (country_pass cfg ctx) as [d|e] eqn:Ec; [|discriminate].
  rewrite country_rows_eq in Hret.
  pose proof (subdiv_pass_outcome cfg ctx d) as Hs.
  destruct (subdiv_pass cfg ctx d) as [m|e] eqn:Es; [|discriminate].
  destruct (region_run_ok h cfg ctx d m Ec Es) as (rows & lines & _ & Hlines & _ & _).
  cbn [Py.bind] in Hret. rewrite Hlines in Hret. simpl in Hret.
  injection Hret as <-. simpl.
  pose proof (fun code => multi_tz_several cfg ctx d code Hc) as Hmulti.
  destruct Hc as (Hnd & Hkeys & Hsets). destruct Hs as (Hnd' & Hkeys' & Hareas).
  split; [exact Hnd|]. split; [exact Hkeys|]. split; [exact Hsets|].
  split; [exact Hnd'|]. split.
  - intros code. rewrite Hkeys', in_map_iff. split.
    + intros (sd & Hsd & Hattr & Hm). split; [eauto|]. now apply Hmulti.
    + intros [(sd & Hattr & Hsd) Hsev]. exists sd. split; [exact Hsd|].
      split; [exact Hattr|]. now apply Hmulti.
  - intros code areas Hl. destruct (Hareas _ _ Hl) as [Hn Hcum].
    split; [exact Hn|]. intros t. split; [|apply Hcum].
    apply recorded_timezones, Hcum.
Qed.

(** X18.  Every line of the subdivision table is about a code of the
    subdivision layer whose country has two qualifying timezones or more: a
    row names a qualifying timezone of the subdivision, and a placeholder
    stands for a subdivision that has none. *)
Theorem subdiv_lines_are_sound (cfg : Config) (ctx : Context) (lines : list SubdivLine)
  (l : SubdivLine) :
  subdiv_table cfg ctx = Ok lines ->
  In l lines ->
  In (line_subdiv l) (map attr (subdivLayer ctx)) /\
  several_timezones cfg ctx (slice_to 2 (line_subdiv l)) /\
  match l with
  | SubdivRow code e =>
      exists t, e = tzIdToEnum t /\
                subdiv_qualifying_tz cfg ctx (subdivLayer ctx) code t
  | SubdivPlaceholder code =>
      forall t, ~ subdiv_qualifying_tz cfg ctx (subdivLayer ctx) code t
  end.
Proof.
  unfold subdiv_table. intros Hrun Hl.
  pose proof (country_pass_outcome cfg ctx) as Hc.
  destruct (country_pass cfg ctx) as [d|e0]; [|discriminate]. simpl in Hrun.
  pose proof (subdiv_pass_outcome cfg ctx d) as Hinv.
  destruct (subdiv_pass cfg ctx d) as [m|e0]; [|discriminate]. simpl in Hrun.
  pose proof (fun code => multi_tz_several cfg ctx d code Hc) as Hmulti.
  destruct Hinv as (_ & Hkeys & Hareas).
  rewrite subdiv_lines_eq in Hrun
    by (intros code areas H; now apply (Hareas code areas)).
  injection Hrun as <-.
  apply in_flat_map in Hl as (code & Hcode & Hl).
  pose proof (subdiv_lines_of_key m code l Hl) as Ecode. subst code.
  apply sort_In, Hkeys in Hcode as (sd & Hsd & Hattr & Hm).
  split; [rewrite <- Hattr; now apply in_map|].
  split; [now apply Hmulti|].
  unfold subdiv_lines_of in Hl.
  destruct (lookup m (line_subdiv l)) as [areas|] eqn:E; [|destruct Hl].
  destruct (Hareas _ _ E) as [_ Hcum].
  apply in_app_iff in Hl as [Hl|Hl].
  - apply in_map_iff in Hl as (t & <- & Ht). simpl in *. exists t.
    split; [reflexivity|]. apply (recorded_timezones cfg ctx areas); [apply Hcum|].
    eapply Permutation_in; [apply tzs_by_area_perm | exact Ht].
  - destruct (Nat.eqb (List.length areas) 0) eqn:Elen; [|destruct Hl].
    destruct Hl as [<-|[]]. simpl in *. intros t Hq.
    apply (recorded_timezones cfg ctx areas) in Hq; [|apply Hcum].
    apply Nat.eqb_eq in Elen. destruct areas; [destruct Hq | discriminate].
Qed.

End RegionContent.

(** * The layers in the shared context *)

Section SharedLayers.

Context {engine : GeometryEngine}.

Local Open Scope string_scope.

(** X19.  The region mapper looks the subdivision layer up only once the
    country table is written.  With the country and timezone layers in the
    context and the subdivision layer missing, a run ends in the KeyError of
    subdivLayer and leaves the complete country table behind, unless the
    country pass divides by zero: then it ends in ZeroDivisionError and
    leaves no file. *)
Theorem region_run_without_subdivisions (h : HashOrder) (cfg : Config)
  (tzs countries : list Feature) :
  (country_raises
     {| tzLayer := tzs; countryLayer := countries; subdivLayer := [] |}
     ZeroDivisionError ->
   RegionToTimezoneMapTask_run_in h cfg
     {| ctx_tzLayer := Some tzs; ctx_countryLayer := Some countries;
        ctx_subdivLayer := None |}
   = {| written := []; returned := Raise ZeroDivisionError |}) /\
  (~ country_raises
       {| tzLayer := tzs; countryLayer := countries; subdivLayer := [] |}
       ZeroDivisionError ->
   exists rows,
     country_table h cfg
       {| tzLayer := tzs; countryLayer := countries; subdivLayer := [] |} = Ok rows /\
     RegionToTimezoneMapTask_run_in h cfg
       {| ctx_tzLayer := Some tzs; ctx_countryLayer := Some countries;
          ctx_subdivLayer := None |}
     = {| written := [(country_map_path, country_timezone_map_cpp rows)];
          returned := Raise (KeyError "subdivLayer") |}).
Proof.
  set (ctx := {| tzLayer := tzs; countryLayer := countries; subdivLayer := [] |}).
  unfold RegionToTimezoneMapTask_run_in, country_table. cbn [context_get ctx_tzLayer
    ctx_countryLayer ctx_subdivLayer]. fold ctx.
  pose proof (country_pass_outcome cfg ctx) as Hout.
  pose proof (country_pass_divides cfg ctx) as Hdiv.
  destruct (country_pass cfg ctx) as [d|e].
  - cbn [Py.bind]. rewrite country_rows_eq. cbn [Py.bind]. split.
    + intros (_ & country & tz & Hc & Htz & Hi & Hz). exfalso.
      destruct (Hdiv d eq_refl country tz Hc Htz Hi). destruct Hz; congruence.
    + intros _. eexists. split; reflexivity.
  - cbn [Py.bind]. destruct Hout as [-> Hpair]. split; [reflexivity|].
    intros Hno. exfalso. apply Hno. now split.
Qed.

End SharedLayers.

(** * The further properties on the example layers *)

Section FurtherRuns.

Import Example.
Local Open Scope string_scope.

Lemma tz_table_follows_enumeration_witness :
  exists offsets entries,
    string_table_offsets (sorted_tzIds insertion_order (tzLayer world)) = Ok offsets /\
    enum_entries (sorted_tzIds insertion_order (tzLayer world)) offsets = Ok entries /\
    map tz_line_enum
      [TzRow "America_Chicago" "US"; TzRow "America_New_York" "US";
       TzRow "Europe_Berlin" "DE"; TzRow "Europe_Zurich" "CH"]
    = map fst entries /\
    StronglySorted Z.lt (map snd entries).
Proof.
  apply (tz_table_follows_enumeration insertion_order cfg world).
  vm_compute. reflexivity.
Defined.

Lemma disambiguation_of_a_set_witness :
  NoDup ["CH"; "DE"] /\
  disambiguateCountries cfg ["CH"; "DE"] = ["DE"] /\
  set_len (disambiguateCountries cfg ["CH"; "DE"]) = 1%nat.
Proof.
  assert (Hnd : NoDup ["CH"; "DE"]).
  { repeat constructor; simpl; intuition discriminate. }
  destruct (disambiguation_of_a_set cfg ["CH"; "DE"] Hnd) as (_ & _ & _ & _ & _ & Hone).
  split; [exact Hnd|]. split; [reflexivity|].
  apply Hone. right. split; [reflexivity|].
  exists ("DE", "CH"). simpl. auto.
Defined.

Lemma tz_rows_are_sound_witness :
  "DE" <> EmptyString /\
  exists tz country,
    In tz (tzLayer shared) /\ "Europe_Busingen" = tzIdToEnum (attr tz) /\
    In country (countryLayer shared) /\ "DE" = normalizedCountry cfg (attr country) /\
    country_passes cfg country (geometry tz) = true.
Proof.
  apply (tz_rows_are_sound insertion_order cfg shared [TzRow "Europe_Busingen" "DE"]).
  - vm_compute. reflexivity.
  - now left.
Defined.

Lemma country_table_content_witness :
  In ("DE", "Europe_Berlin") [("CH", "Europe_Zurich"); ("DE", "Europe_Berlin")] <->
  In "DE" (map attr (countryLayer world)) /\
  exists tz, "Europe_Berlin" = tzIdToEnum tz /\
             forall t, qualifying_tz cfg world (countryLayer world) "DE" t <-> t = tz.
Proof.
  apply (country_table_content insertion_order cfg world).
  vm_compute. reflexivity.
Defined.

Lemma ties_keep_their_order_witness :
  exists tzs,
    sort_tzs_by_area
      [("US-AZ", [("America/Denver", 50%float); ("America/Phoenix", 50%float)])]
      "US-AZ" ["America/Denver"; "America/Phoenix"] = Ok tzs /\
    forall t1 t2 a1 a2,
      comes_before t1 t2 ["America/Denver"; "America/Phoenix"] ->
      lookup [("America/Denver", 50%float); ("America/Phoenix", 50%float)] t1 = Some a1 ->
      lookup [("America/Denver", 50%float); ("America/Phoenix", 50%float)] t2 = Some a2 ->
      PrimFloat.ltb a1 a2 = false ->
      comes_before t1 t2 tzs.
Proof.
  apply (ties_keep_their_order
           [("US-AZ", [("America/Denver", 50%float); ("America/Phoenix", 50%float)])]
           "US-AZ" [("America/Denver", 50%float); ("America/Phoenix", 50%float)]).
  - reflexivity.
  - repeat constructor; simpl; intuition discriminate.
  - intros t a H. cbn [lookup] in H.
    destruct (String.eqb t "America/Denver"); [injection H as <-; reflexivity|].
    destruct (String.eqb t "America/Phoenix"); [injection H as <-; reflexivity|].
    discriminate.
Defined.

Lemma region_run_maps_witness :
  exists maps,
    returned (RegionToTimezoneMapTask_run insertion_order cfg world) = Ok maps /\
    keys (countryToTimezoneMap maps) = ["US"; "DE"; "CH"] /\
    keys (subdivisionToTimezoneMap maps) = ["US-NY"; "US-IL"; "US-GU"] /\
    (In "US-IL" (keys (subdivisionToTimezoneMap maps))
     <-> In "US-IL" (map attr (subdivLayer world)) /\
         several_timezones cfg world (slice_to 2 "US-IL")).
Proof.
  pose (m := {| countryToTimezoneMap :=
                  [("US", ["America/New_York"; "America/Chicago"]);
                   ("DE", ["Europe/Berlin"]); ("CH", ["Europe/Zurich"])];
                subdivisionToTimezoneMap :=
                  [("US-NY", [("America/New_York", 100%float)]);
                   ("US-IL", [("America/New_York", 20%float);
                              ("America/Chicago", 100%float)]);
                   ("US-GU", [])] |}).
  assert (Hm : returned (RegionToTimezoneMapTask_run insertion_order cfg world) = Ok m)
    by (vm_compute; reflexivity).
  destruct (region_run_maps insertion_order cfg world m Hm) as (_ & _ & _ & _ & Hkeys & _).
  exists m. split; [exact Hm|]. split; [reflexivity|]. split; [reflexivity|].
  exact (Hkeys "US-IL").
Defined.

Lemma subdiv_lines_are_sound_witness :
  In "US-IL" (map attr (subdivLayer world)) /\
  several_timezones cfg world (slice_to 2 "US-IL") /\
  exists t, "America_Chicago" = tzIdToEnum t /\
            subdiv_qualifying_tz cfg world (subdivLayer world) "US-IL" t.
Proof.
  apply (subdiv_lines_are_sound cfg world
           [SubdivPlaceholder "US-GU"; SubdivRow "US-IL" "America_Chicago";
            SubdivRow "US-IL" "America_New_York"; SubdivRow "US-NY" "America_New_York"]
           (SubdivRow "US-IL" "America_Chicago")).
  - vm_compute. reflexivity.
  - right. now left.
Defined.

Lemma region_run_without_subdivisions_witness :
  exists rows,
    country_table insertion_order cfg
      {| tzLayer := tzLayer world; countryLayer := countryLayer world;
         subdivLayer := [] |} = Ok rows /\
    RegionToTimezoneMapTask_run_in insertion_order cfg
      {| ctx_tzLayer := Some (tzLayer world); ctx_countryLayer := Some (countryLayer world);
         ctx_subdivLayer := None |}
    = {| written := [(country_map_path, country_timezone_map_cpp rows)];
         returned := Raise (KeyError "subdivLayer") |}.
Proof.
  apply (proj2 (region_run_without_subdivisions insertion_order cfg
                  (tzLayer world) (countryLayer world))).
  intros (_ & country & tz & Hc & Htz & _ & Hz).
  cbn [countryLayer tzLayer world In] in Hc, Htz.
  destruct Hc as [<-|[<-|[<-|[]]]]; destruct Htz as [<-|[<-|[<-|[<-|[]]]]];
    vm_compute in Hz; destruct Hz; discriminate.
Defined.

End FurtherRuns.

(** * The written files, as texts *)

Section Encoding.

Local Open Scope string_scope.

Lemma utf8_app (a b : string) : utf8 (a ++ b) = utf8 a ++ utf8 b.
Proof.
  induction a as [|c a IH]; simpl; [reflexivity|].
  now rewrite IH, string_app_assoc.
Qed.

Lemma utf8_char_length (c : ascii) :
  (1 <= String.length (utf8_char c))%nat /\
  (String.length (utf8_char c) = 1%nat <-> (N_of_ascii c <? 128)%N = true).
Proof.
  unfold utf8_char. destruct (N_of_ascii c <? 128)%N; simpl.
  - split; [lia | tauto].
  - split; [lia|]. split; [lia | discriminate].
Qed.

Lemma utf8_length (s : string) :
  (String.length s <= String.length (utf8 s))%nat /\
  (String.length (utf8 s) = String.length s <-> is_ascii s = true).
Proof.
  induction s as [|c s [I1 I2]]; simpl; [split; [lia | tauto]|].
  rewrite string_length_app. destruct (utf8_char_length c) as [H1 H2].
  split; [lia|]. rewrite andb_true_iff, <- H2, <- I2. lia.
Qed.

Lemma table_size_utf8 (l : list string) :
  table_size l <= table_size (map utf8 l) /\
  (table_size l = table_size (map utf8 l) <-> forall s, In s l -> is_ascii s = true).
Proof.
  induction l as [|a l [I1 I2]]; simpl.
  - split; [lia|]. split; [intros _ s [] | reflexivity].
  - destruct (utf8_length a) as [H1 H2]. unfold len in *. split; [lia|]. split.
    + intros E s [<-|Hs]; [apply H2; lia | apply I2; [lia | exact Hs]].
    + intros H.
      assert (Ha : String.length (utf8 a) = String.length a)
        by (apply H2, H; now left).
      assert (Hl : table_size l = table_size (map utf8 l))
        by (apply I2; intros s Hs; apply H; now right).
      lia.
Qed.

Section Blob.

Context {engine : GeometryEngine}.

Lemma utf8_blob (l : list string) : utf8 (blob l) = blob (map utf8 l).
Proof.
  unfold blob. induction l as [|a l IH]; simpl; [reflexivity|].
  now rewrite !utf8_app, IH.
Qed.



(** A number is written as its decimal numeral. *)
Lemma str_of_int_decimal (z : Z) :
  option_map Z.of_int (NilZero.int_of_string (str_of_int z)) = Some z.
Proof.
  unfold str_of_int. rewrite NilZero.isi.
  - simpl. now rewrite DecimalZ.of_to.
  - destruct z; simpl; try discriminate.
    intros [= H]. now apply Unsigned.to_uint_nonnil in H.
  - destruct z; simpl; try discriminate.
    intros [= H]. now apply Unsigned.to_uint_nonnil in H.
Qed.

Lemma tzIdToEnum_get (tzId : string) (k : nat) :
  String.get k (tzIdToEnum tzId)
  = option_map (fun c => if (Ascii.eqb c "/" || Ascii.eqb c "-")%bool
                         then "_"%char else c)
      (String.get k tzId).
Proof.
  revert k. induction tzId as [|c s IH]; intros k; [now destruct k|].
  rewrite tzIdToEnum_cons. destruct k as [|k]; simpl; [reflexivity | apply IH].
Qed.

Lemma name_table_literals (tzIds : list string) :
  name_table_cpp tzIds
  = (license_header
          ++ "static constexpr const char timezone_name_table[] ="
          ++ join (map (fun tzId => nl ++ "    " ++ dq ++ tzId ++ "\0" ++ dq) tzIds)
          ++ ";" ++ nl).
Proof.
  unfold name_table_cpp, seek_back_write.
  rewrite rows_as_literals, <- string_app_assoc, drop_last_line.
  unfold line. now rewrite !string_app_assoc.
Qed.

Lemma names_p_h_text (entries : list (string * Z)) (undefined : Z) :
  names_p_h entries undefined
  = (license_header
          ++ "#ifndef TIMEZONE_NAMES_P_H" ++ nl
          ++ "#define TIMEZONE_NAMES_P_H" ++ nl
          ++ nl
          ++ "#include <cstdint>" ++ nl
          ++ nl
          ++ "enum Tz : uint16_t {" ++ nl
          ++ join (map (fun entry =>
                          "    " ++ fst entry ++ " = " ++ str_of_int (snd entry) ++ ","
                          ++ nl) entries)
          ++ "    Undefined = " ++ str_of_int undefined ++ "," ++ nl
          ++ "};" ++ nl
          ++ nl
          ++ "#endif" ++ nl).
Proof.
  unfold names_p_h.
  rewrite (map_ext enum_row
             (fun entry => "    " ++ fst entry ++ " = " ++ str_of_int (snd entry) ++ ","
                           ++ nl))
    by (intros entry; unfold enum_row, line; now rewrite !string_app_assoc).
  unfold line. now rewrite !string_app_assoc.
Qed.

(** C3, as the code has it.  The identifiers of the enumeration are the
    distinct identifiers of the layer, sorted.  The text of
    timezone_names_p.h gives the symbolic name of each of them the sum of
    (length + 1) over the identifiers that sort strictly before it, lengths
    counted in characters.  That offset is where the identifier and its
    terminator start in the characters of the table.  In the bytes of the
    table they start after the bytes of the identifiers before it, which is
    the offset exactly when every identifier that sorts before it is ASCII,
    and a later index otherwise.  The symbolic name has [_] where the
    identifier has [/] or [-], and the offsets are written as decimal
    numerals. *)
Theorem C3_enum_offset_is_start_in_blob (h : HashOrder) (ctx : Context) :
  let tzIds := sorted_tzIds h (tzLayer ctx) in
  (forall s, In s tzIds <-> exists tz, In tz (tzLayer ctx) /\ attr tz = s) /\
  StronglySorted StrOrder.lt tzIds /\
  exists entries undefined,
    written (TimezoneStringTableTask_run h ctx)
    = [("../../data/timezone_name_table.cpp",
        (license_header
            ++ "static constexpr const char timezone_name_table[] ="
            ++ join (map (fun tzId => nl ++ "    " ++ dq ++ tzId ++ "\0" ++ dq) tzIds)
            ++ ";" ++ nl));
       ("../../data/timezone_names_p.h",
        (license_header
          ++ "#ifndef TIMEZONE_NAMES_P_H" ++ nl
          ++ "#define TIMEZONE_NAMES_P_H" ++ nl
          ++ nl
          ++ "#include <cstdint>" ++ nl
          ++ nl
          ++ "enum Tz : uint16_t {" ++ nl
          ++ join (map (fun entry =>
                          "    " ++ fst entry ++ " = " ++ str_of_int (snd entry) ++ ","
                          ++ nl) entries)
          ++ "    Undefined = " ++ str_of_int undefined ++ "," ++ nl
          ++ "};" ++ nl
          ++ nl
          ++ "#endif" ++ nl))] /\
    (forall z, option_map Z.of_int (NilZero.int_of_string (str_of_int z)) = Some z) /\
    List.length entries = List.length tzIds /\
    forall i tzId,
      nth_error tzIds i = Some tzId ->
      nth_error entries i = Some (tzIdToEnum tzId, size_before tzId tzIds) /\
      (forall k, String.get k (tzIdToEnum tzId)
                 = option_map (fun c => if (Ascii.eqb c "/" || Ascii.eqb c "-")%bool
                                        then "_"%char else c)
                     (String.get k tzId)) /\
      substring (Z.to_nat (size_before tzId tzIds)) (Datatypes.S (String.length tzId))
        (blob tzIds) = tzId ++ nul /\
      substring (Z.to_nat (bytes_before tzId tzIds))
        (Datatypes.S (String.length (utf8 tzId))) (blob_bytes tzIds)
      = utf8 tzId ++ nul /\
      size_before tzId tzIds <= bytes_before tzId tzIds /\
      (size_before tzId tzIds = bytes_before tzId tzIds <->
       forall other, In other tzIds -> String.ltb other tzId = true ->
                     is_ascii other = true).
Proof.
  intros tzIds.
  destruct (enum_offsets_spec h ctx)
    as (Hin & Hsorted & offsets & entries & undefined & _ & _ & Hw & Hlen & Hoff).
  fold tzIds in Hin, Hsorted, Hw, Hlen, Hoff.
  split; [exact Hin|]. split; [exact Hsorted|].
  exists entries, undefined.
  split; [now rewrite Hw, name_table_literals, names_p_h_text|].
  split; [exact str_of_int_decimal|].
  split; [exact Hlen|].
  intros i tzId Hi. destruct (Hoff i tzId Hi) as [He Hs].
  split; [exact He|]. split; [apply tzIdToEnum_get|]. split; [exact Hs|].
  pose proof (strict_sorted_filter_before _ _ _ Hsorted Hi) as Hbefore.
  unfold bytes_before, size_before. rewrite Hbefore.
  split; [|split].
  - unfold blob_bytes. rewrite utf8_blob, <- firstn_map.
    apply blob_substring. now rewrite nth_error_map, Hi.
  - apply table_size_utf8.
  - rewrite (proj2 (table_size_utf8 (firstn i tzIds))). rewrite <- Hbefore.
    split.
    + intros H other Ho Hlt. apply H, filter_In. now split.
    + intros H other Ho. apply filter_In in Ho as [Ho Hlt]. now apply H.
Qed.


End Blob.

End Encoding.

(** * The map tables, as texts *)

Section TableTexts.

Context {engine : GeometryEngine}.

Local Open Scope string_scope.

Lemma country_table_text (rows : list (string * string)) :
  country_timezone_map_cpp rows
  = (license_header ++ map_includes
       ++ "static constexpr const MapEntry<uint16_t> country_timezone_map[] = {" ++ nl
       ++ join (map (fun row =>
                       "    {IsoCodes::alpha2CodeToKey(" ++ dq ++ fst row ++ dq
                       ++ "), Tz::" ++ snd row ++ "}," ++ nl) rows)
       ++ "};" ++ nl).
Proof.
  unfold country_timezone_map_cpp.
  rewrite (map_ext country_row
             (fun row => "    {IsoCodes::alpha2CodeToKey(" ++ dq ++ fst row ++ dq
                         ++ "), Tz::" ++ snd row ++ "}," ++ nl))
    by (intros row; unfold country_row, line; now rewrite !string_app_assoc).
  unfold line. now rewrite !string_app_assoc.
Qed.

Lemma subdivision_table_text (lines : list SubdivLine) :
  subdivision_timezone_map_cpp lines
  = (license_header ++ map_includes
       ++ "static constexpr const MapEntry<uint32_t> subdivision_timezone_map[] = {" ++ nl
       ++ join (map (fun l =>
                       match l with
                       | SubdivRow subdiv tzEnum =>
                           "    {IsoCodes::subdivisionCodeToKey(" ++ dq ++ subdiv ++ dq
                           ++ "), Tz::" ++ tzEnum ++ "}," ++ nl
                       | SubdivPlaceholder subdiv => "    // " ++ subdiv ++ nl
                       end) lines)
       ++ "};" ++ nl).
Proof.
  unfold subdivision_timezone_map_cpp.
  rewrite (map_ext subdiv_line
             (fun l =>
                match l with
                | SubdivRow subdiv tzEnum =>
                    "    {IsoCodes::subdivisionCodeToKey(" ++ dq ++ subdiv ++ dq
                    ++ "), Tz::" ++ tzEnum ++ "}," ++ nl
                | SubdivPlaceholder subdiv => "    // " ++ subdiv ++ nl
                end))
    by (intros [subdiv tzEnum|subdiv]; unfold subdiv_line, line;
        now rewrite !string_app_assoc).
  unfold line. now rewrite !string_app_assoc.
Qed.

Lemma tz_table_text (lines : list TzLine) :
  timezone_country_map_cpp lines
  = (license_header ++ map_includes
       ++ "static constexpr const MapEntry<uint16_t> timezone_country_map[] = {" ++ nl
       ++ join (map (fun l =>
                       match l with
                       | TzRow tzEnum country =>
                           "    {Tz::" ++ tzEnum ++ ", IsoCodes::alpha2CodeToKey("
                           ++ dq ++ country ++ dq ++ ")}," ++ nl
                       | TzPlaceholder tzEnum => "    // Tz::" ++ tzEnum ++ nl
                       end) lines)
       ++ "};" ++ nl).
Proof.
  unfold timezone_country_map_cpp.
  rewrite (map_ext tz_line
             (fun l =>
                match l with
                | TzRow tzEnum country =>
                    "    {Tz::" ++ tzEnum ++ ", IsoCodes::alpha2CodeToKey("
                    ++ dq ++ country ++ dq ++ ")}," ++ nl
                | TzPlaceholder tzEnum => "    // Tz::" ++ tzEnum ++ nl
                end))
    by (intros [tzEnum country|tzEnum]; unfold tz_line, line;
        now rewrite !string_app_assoc).
  unfold line. now rewrite !string_app_assoc.
Qed.

(** A run that has written a table has come through the passes before it. *)
Lemma region_run_wrote_countries (h : HashOrder) (cfg : Config) (ctx : Context)
  (text : string) :
  In ("../../data/country_timezone_map.cpp", text)
    (written (RegionToTimezoneMapTask_run h cfg ctx)) ->
  exists d,
    country_pass cfg ctx = Ok d /\
    text = country_timezone_map_cpp
             (flat_map (country_rows_of d) (sort String.ltb (keys d))) /\
    hd_error (written (RegionToTimezoneMapTask_run h cfg ctx))
    = Some ("../../data/country_timezone_map.cpp", text).
Proof.
  unfold RegionToTimezoneMapTask_run.
  destruct (country_pass cfg ctx) as [d|e]; [|intros []].
  rewrite country_rows_eq. intros Hin. exists d. split; [reflexivity|].
  destruct (subdivToTz <- subdiv_pass cfg ctx d ;;
            lines <- subdiv_lines subdivToTz ;; Ok (subdivToTz, lines))
    as [[m lines]|e]; cbn [written In hd_error] in *.
  - destruct Hin as [H|[H|[]]].
    + injection H as <-. split; reflexivity.
    + apply (f_equal fst) in H. discriminate H.
  - destruct Hin as [H|[]]. injection H as <-. split; reflexivity.
Qed.

Lemma region_run_wrote_subdivisions (h : HashOrder) (cfg : Config) (ctx : Context)
  (text : string) :
  In ("../../data/subdivision_timezone_map.cpp", text)
    (written (RegionToTimezoneMapTask_run h cfg ctx)) ->
  exists d m,
    country_pass cfg ctx = Ok d /\ subdiv_pass cfg ctx d = Ok m /\
    text = subdivision_timezone_map_cpp
             (flat_map (subdiv_lines_of m) (sort String.ltb (keys m))) /\
    returned (RegionToTimezoneMapTask_run h cfg ctx)
    = Ok {| countryToTimezoneMap := d; subdivisionToTimezoneMap := m |} /\
    nth_error (written (RegionToTimezoneMapTask_run h cfg ctx)) 1
    = Some ("../../data/subdivision_timezone_map.cpp", text).
Proof.
  intros Hin.
  destruct (country_pass cfg ctx) as [d|e] eqn:Ec.
  2:{ unfold RegionToTimezoneMapTask_run in Hin. rewrite Ec in Hin. destruct Hin. }
  destruct (subdiv_pass cfg ctx d) as [m|e] eqn:Es.
  - destruct (region_run_ok h cfg ctx d m Ec Es) as (rows & lines & _ & _ & -> & Hrun).
    rewrite Hrun in *. cbn [written In returned nth_error] in *.
    exists d, m. split; [reflexivity|]. split; [exact Es|].
    destruct Hin as [H|[H|[]]].
    + apply (f_equal fst) in H. discriminate H.
    + injection H as <-. repeat split.
  - exfalso. unfold RegionToTimezoneMapTask_run in Hin.
    rewrite Ec, country_rows_eq, Es in Hin. cbn [Py.bind written In] in Hin.
    destruct Hin as [H|[]]. apply (f_equal fst) in H. discriminate H.
Qed.

Lemma tz_run_wrote (h : HashOrder) (cfg : Config) (ctx : Context) (text : string) :
  In ("../../data/timezone_country_map.cpp", text)
    (written (TimezoneToCountryMapTask_run h cfg ctx)) ->
  exists d,
    tz_pass cfg ctx = Ok d /\
    text = timezone_country_map_cpp
             (map (tz_line_of cfg d) (sort String.ltb (keys d))).
Proof.
  unfold TimezoneToCountryMapTask_run.
  destruct (tz_pass cfg ctx) as [d|e]; [|intros []].
  cbn [Py.bind]. rewrite tz_lines_eq. cbn [written In].
  intros [H|[]]. injection H as <-. exists d. split; reflexivity.
Qed.

(** C5.  When the region mapper has written country_timezone_map.cpp, the
    text of the file is the header, the declaration of the array, one line
    [{IsoCodes::alpha2CodeToKey(code), Tz::name},] (the code between double
    quotes) for every row, and the closing line; a country whose qualifying
    timezones are exactly one has exactly one row, with its code and the
    symbolic name of that timezone; a country with no qualifying timezone,
    or with two or more, has no row; and the rows are sorted by country
    code. *)
Theorem C5_country_rows (h : HashOrder) (cfg : Config) (ctx : Context) (text : string) :
  In ("../../data/country_timezone_map.cpp", text)
    (written (RegionToTimezoneMapTask_run h cfg ctx)) ->
  exists rows,
    text
    = (license_header ++ map_includes
       ++ "static constexpr const MapEntry<uint16_t> country_timezone_map[] = {" ++ nl
       ++ join (map (fun row =>
                       "    {IsoCodes::alpha2CodeToKey(" ++ dq ++ fst row ++ dq
                       ++ "), Tz::" ++ snd row ++ "}," ++ nl) rows)
       ++ "};" ++ nl) /\
    hd_error (written (RegionToTimezoneMapTask_run h cfg ctx))
    = Some ("../../data/country_timezone_map.cpp", text) /\
    (forall country tz,
        In country (countryLayer ctx) ->
        (forall t, qualifying_tz cfg ctx (countryLayer ctx) (attr country) t <-> t = tz) ->
        filter (fun row => String.eqb (fst row) (attr country)) rows
        = [(attr country, tzIdToEnum tz)]) /\
    (forall country,
        In country (countryLayer ctx) ->
        (forall t, ~ qualifying_tz cfg ctx (countryLayer ctx) (attr country) t) \/
        (exists t1 t2, t1 <> t2 /\
                       qualifying_tz cfg ctx (countryLayer ctx) (attr country) t1 /\
                       qualifying_tz cfg ctx (countryLayer ctx) (attr country) t2) ->
        forall row, In row rows -> fst row <> attr country) /\
    StronglySorted StrOrder.lt (map fst rows).
Proof.
  intros Hin.
  destruct (region_run_wrote_countries h cfg ctx text Hin) as (d & Hpass & -> & Hhd).
  destruct (country_rows_spec h cfg ctx d Hpass) as (rows & Hrows & _ & H1 & H2 & H3).
  rewrite country_rows_eq in Hrows. injection Hrows as <-.
  eexists. split; [apply country_table_text|].
  split; [exact Hhd|]. split; [exact H1|]. split; [exact H2 | exact H3].
Qed.

(** C6, as the code has it.  When the region mapper has written
    subdivision_timezone_map.cpp, the text of the file is the header, the
    declaration of the array, one line per line of the table and the closing
    line, a row being [{IsoCodes::subdivisionCodeToKey(code), Tz::name},]
    (the code between double quotes).  For every subdivision whose country
    has two qualifying timezones or more, the dictionary put in the shared
    context records exactly the qualifying timezones of the subdivision,
    each with the cumulative area of its matches, and the table has one row
    per recorded timezone; when no recorded area is NaN, no row of a
    subdivision comes before a row of the same subdivision with a larger
    area.  Subdivisions of other countries have no line, and the lines are
    sorted by subdivision code. *)
Theorem C6_subdivision_rows (h : HashOrder) (cfg : Config) (ctx : Context)
  (text : string) :
  In ("../../data/subdivision_timezone_map.cpp", text)
    (written (RegionToTimezoneMapTask_run h cfg ctx)) ->
  exists maps lines,
    returned (RegionToTimezoneMapTask_run h cfg ctx) = Ok maps /\
    text
    = (license_header ++ map_includes
       ++ "static constexpr const MapEntry<uint32_t> subdivision_timezone_map[] = {" ++ nl
       ++ join (map (fun l =>
                       match l with
                       | SubdivRow subdiv tzEnum =>
                           "    {IsoCodes::subdivisionCodeToKey(" ++ dq ++ subdiv ++ dq
                           ++ "), Tz::" ++ tzEnum ++ "}," ++ nl
                       | SubdivPlaceholder subdiv => "    // " ++ subdiv ++ nl
                       end) lines)
       ++ "};" ++ nl) /\
    (forall subdiv,
        In subdiv (subdivLayer ctx) ->
        several_timezones cfg ctx (slice_to 2 (attr subdiv)) ->
        exists areas tzs,
          lookup (subdivisionToTimezoneMap maps) (attr subdiv) = Some areas /\
          (forall t, In t (keys areas) <->
                     subdiv_qualifying_tz cfg ctx (subdivLayer ctx) (attr subdiv) t) /\
          (forall t, lookup areas t
                     = cumulative (match_areas cfg ctx (subdivLayer ctx) (attr subdiv) t)) /\
          Permutation tzs (keys areas) /\
          NoDup tzs /\
          ((forall t a, lookup areas t = Some a -> PrimFloat.is_nan a = false) ->
           descending_by_area areas tzs /\ pairwise_descending_by_area areas tzs) /\
          subdiv_data_rows (attr subdiv) lines
          = map (fun t => SubdivRow (attr subdiv) (tzIdToEnum t)) tzs) /\
    (forall subdiv,
        In subdiv (subdivLayer ctx) ->
        ~ several_timezones cfg ctx (slice_to 2 (attr subdiv)) ->
        forall l, In l lines -> line_subdiv l <> attr subdiv) /\
    StronglySorted StrOrder.le (map line_subdiv lines).
Proof.
  intros Hin.
  destruct (region_run_wrote_subdivisions h cfg ctx text Hin)
    as (d & m & Hc & Hs & -> & Hret & _).
  pose proof (country_pass_outcome cfg ctx) as Hinv. rewrite Hc in Hinv.
  pose proof (fun code => multi_tz_several cfg ctx d code Hinv) as Hmulti.
  destruct (subdivision_rows_spec h cfg ctx d m Hc Hs)
    as (lines & Hlines & _ & H1 & H2 & H3).
  pose proof (subdiv_pass_outcome cfg ctx d) as Hsinv. rewrite Hs in Hsinv.
  destruct Hsinv as (_ & _ & Hareas).
  rewrite subdiv_lines_eq in Hlines
    by (intros code areas H; now apply (Hareas code areas)).
  injection Hlines as <-.
  eexists _, _. split; [exact Hret|]. split; [apply subdivision_table_text|].
  cbn [subdivisionToTimezoneMap]. split; [|split; [|exact H3]].
  - intros subdiv Hsd Hsev.
    destruct (H1 subdiv Hsd (proj2 (Hmulti _) Hsev))
      as (areas & tzs & Ha & Hk & Hcum & Hp & Hnd & Hd & Hpw & Hrows).
    exists areas, tzs. split; [exact Ha|]. split; [exact Hk|]. split; [exact Hcum|].
    split; [exact Hp|]. split; [exact Hnd|]. split; [|exact Hrows].
    intros Hnan. split; [exact Hd | now apply Hpw].
  - intros subdiv Hsd Hnot. apply (H2 subdiv Hsd).
    intros Hm. apply Hnot. now apply Hmulti.
Qed.

(** C7.  When the region mapper has written subdivision_timezone_map.cpp,
    the text of the file has one line per line of the table, a placeholder
    being the comment [// code] on a line of its own.  A subdivision of a
    country with two qualifying timezones or more that has no qualifying
    timezone itself has, as its only line in the table, one placeholder
    naming its code; a subdivision with a qualifying timezone has no
    placeholder. *)
Theorem C7_subdivision_placeholders (h : HashOrder) (cfg : Config) (ctx : Context)
  (text : string) :
  In ("../../data/subdivision_timezone_map.cpp", text)
    (written (RegionToTimezoneMapTask_run h cfg ctx)) ->
  exists lines,
    text
    = (license_header ++ map_includes
       ++ "static constexpr const MapEntry<uint32_t> subdivision_timezone_map[] = {" ++ nl
       ++ join (map (fun l =>
                       match l with
                       | SubdivRow subdiv tzEnum =>
                           "    {IsoCodes::subdivisionCodeToKey(" ++ dq ++ subdiv ++ dq
                           ++ "), Tz::" ++ tzEnum ++ "}," ++ nl
                       | SubdivPlaceholder subdiv => "    // " ++ subdiv ++ nl
                       end) lines)
       ++ "};" ++ nl) /\
    nth_error (written (RegionToTimezoneMapTask_run h cfg ctx)) 1
    = Some ("../../data/subdivision_timezone_map.cpp", text) /\
    (forall subdiv,
        In subdiv (subdivLayer ctx) ->
        several_timezones cfg ctx (slice_to 2 (attr subdiv)) ->
        (forall t, ~ subdiv_qualifying_tz cfg ctx (subdivLayer ctx) (attr subdiv) t) ->
        lines_about (attr subdiv) lines = [SubdivPlaceholder (attr subdiv)]) /\
    (forall subdiv t,
        In subdiv (subdivLayer ctx) ->
        subdiv_qualifying_tz cfg ctx (subdivLayer ctx) (attr subdiv) t ->
        ~ In (SubdivPlaceholder (attr subdiv)) lines).
Proof.
  intros Hin.
  destruct (region_run_wrote_subdivisions h cfg ctx text Hin)
    as (d & m & Hc & Hs & Htext & _ & Hnth).
  pose proof (country_pass_outcome cfg ctx) as Hinv. rewrite Hc in Hinv.
  pose proof (fun code => multi_tz_several cfg ctx d code Hinv) as Hmulti.
  destruct (subdivision_placeholders_spec h cfg ctx d m Hc Hs)
    as (lines & Hlines & _ & H1 & H2).
  pose proof (subdiv_pass_outcome cfg ctx d) as Hsinv. rewrite Hs in Hsinv.
  destruct Hsinv as (_ & _ & Hareas).
  rewrite subdiv_lines_eq in Hlines
    by (intros code areas H; now apply (Hareas code areas)).
  injection Hlines as <-.
  eexists. split; [rewrite Htext; apply subdivision_table_text|].
  split; [exact Hnth|]. split; [|exact H2].
  intros subdiv Hsd Hsev. apply (H1 subdiv Hsd). now apply Hmulti.
Qed.

(** C8.  Disambiguation returns a set that does not have two elements
    unchanged; of a set of two elements it removes the secondary member of
    the first pair of the list that has both members in the set (the other
    members stay), and returns the set unchanged when no pair has.  When the
    timezone mapper has written timezone_country_map.cpp, the text of the
    file is the header, the declaration of the array, one line per timezone
    identifier of the layer in sorted order, and the closing line: the line
    of an identifier is the row [{Tz::name, IsoCodes::alpha2CodeToKey(code)},]
    (the code between double quotes) of the remaining country when
    disambiguation leaves exactly one, and the comment [// Tz::name]
    otherwise. *)
Theorem C8_disambiguation_and_rows (h : HashOrder) (cfg : Config) (ctx : Context)
  (text : string) :
  In ("../../data/timezone_country_map.cpp", text)
    (written (TimezoneToCountryMapTask_run h cfg ctx)) ->
  (forall S, set_len S <> 2%nat -> disambiguateCountries cfg S = S) /\
  (forall S pre preferred secondary post,
      set_len S = 2%nat ->
      ISO3166_1_DISAMBIGUATION_MAP cfg = (pre ++ (preferred, secondary) :: post)%list ->
      (forall p, In p pre -> ~ (In (fst p) S /\ In (snd p) S)) ->
      In preferred S -> In secondary S ->
      disambiguateCountries cfg S = set_remove S secondary) /\
  (forall S,
      set_len S = 2%nat ->
      (forall p, In p (ISO3166_1_DISAMBIGUATION_MAP cfg) ->
                 ~ (In (fst p) S /\ In (snd p) S)) ->
      disambiguateCountries cfg S = S) /\
  (forall S removed country,
      In country (set_remove S removed) <-> In country S /\ country <> removed) /\
  exists tzToCountry lines,
    tz_pass cfg ctx = Ok tzToCountry /\
    (forall tzId, In tzId (sort String.ltb (keys tzToCountry))
                  <-> In tzId (map attr (tzLayer ctx))) /\
    text
    = (license_header ++ map_includes
       ++ "static constexpr const MapEntry<uint16_t> timezone_country_map[] = {" ++ nl
       ++ join (map (fun l =>
                       match l with
                       | TzRow tzEnum country =>
                           "    {Tz::" ++ tzEnum ++ ", IsoCodes::alpha2CodeToKey("
                           ++ dq ++ country ++ dq ++ ")}," ++ nl
                       | TzPlaceholder tzEnum => "    // Tz::" ++ tzEnum ++ nl
                       end) lines)
       ++ "};" ++ nl) /\
    TimezoneToCountryMapTask_run h cfg ctx
    = {| written := [("../../data/timezone_country_map.cpp", text)];
         returned := Ok true |} /\
    List.length lines = List.length (keys tzToCountry) /\
    forall i tzId S,
      nth_error (sort String.ltb (keys tzToCountry)) i = Some tzId ->
      lookup tzToCountry tzId = Some S ->
      (forall country, disambiguateCountries cfg S = [country] ->
                       nth_error lines i = Some (TzRow (tzIdToEnum tzId) country)) /\
      (set_len (disambiguateCountries cfg S) <> 1%nat ->
       nth_error lines i = Some (TzPlaceholder (tzIdToEnum tzId))).
Proof.
  intros Hin.
  destruct (tz_run_wrote h cfg ctx text Hin) as (d & Hpass & Htext).
  destruct (tz_lines_spec h cfg ctx d Hpass)
    as (D1 & D2 & D3 & D4 & Hkeys & lines & Hlines & Hrun & Hlen & Hnth).
  rewrite tz_lines_eq in Hlines. injection Hlines as <-.
  split; [exact D1|]. split; [exact D2|]. split; [exact D3|]. split; [exact D4|].
  eexists d, _. split; [exact Hpass|]. split; [exact Hkeys|].
  split; [rewrite Htext; apply tz_table_text|].
  split; [now rewrite Hrun, Htext|]. split; [exact Hlen | exact Hnth].
Qed.

End TableTexts.

(** * The written tables of the example layers *)

Section TableExamples.

Import Example.
Local Open Scope string_scope.

(** On the layers of [Example.non_ascii] the enumeration gives
    [Pacific_Apia] the offset 14, the number of characters before it, while
    its bytes start at index 15 of the table: the two bytes of the character
    252 of the identifier before it count as one. *)
Lemma C3_offset_is_not_a_byte_index :
  sorted_tzIds insertion_order (tzLayer non_ascii) = [zurich; "Pacific/Apia"] /\
  written (TimezoneStringTableTask_run insertion_order non_ascii)
  = [("../../data/timezone_name_table.cpp",
      license_header
      ++ "static constexpr const char timezone_name_table[] =" ++ nl
      ++ "    " ++ dq ++ "Europe/Z" ++ String "252" "rich\0" ++ dq ++ nl
      ++ "    " ++ dq ++ "Pacific/Apia\0" ++ dq ++ ";" ++ nl);
     ("../../data/timezone_names_p.h",
      license_header
      ++ "#ifndef TIMEZONE_NAMES_P_H" ++ nl
      ++ "#define TIMEZONE_NAMES_P_H" ++ nl
      ++ nl
      ++ "#include <cstdint>" ++ nl
      ++ nl
      ++ "enum Tz : uint16_t {" ++ nl
      ++ "    Europe_Z" ++ String "252" "rich = 0," ++ nl
      ++ "    Pacific_Apia = 14," ++ nl
      ++ "    Undefined = 26," ++ nl
      ++ "};" ++ nl
      ++ nl
      ++ "#endif" ++ nl)] /\
  size_before "Pacific/Apia" [zurich; "Pacific/Apia"] = 14 /\
  bytes_before "Pacific/Apia" [zurich; "Pacific/Apia"] = 15 /\
  substring 15 13 (blob_bytes [zurich; "Pacific/Apia"]) = "Pacific/Apia" ++ nul /\
  substring 14 13 (blob_bytes [zurich; "Pacific/Apia"]) <> "Pacific/Apia" ++ nul.
Proof.
  split; [vm_compute; reflexivity|]. split; [vm_compute; reflexivity|].
  split; [vm_compute; reflexivity|]. split; [vm_compute; reflexivity|].
  split; [vm_compute; reflexivity|].
  intros H. vm_compute in H. discriminate H.
Qed.

Lemma world_DE_has_one_timezone (t : string) :
  qualifying_tz cfg world (countryLayer world) "DE" t <-> t = "Europe/Berlin".
Proof.
  split.
  - intros (country & tz & Hc & Hattr & Htz & Hp & <-).
    cbn [countryLayer tzLayer world In] in Hc, Htz.
    destruct Hc as [<-|[<-|[<-|[]]]]; try discriminate Hattr;
      destruct Htz as [<-|[<-|[<-|[<-|[]]]]];
      try reflexivity; vm_compute in Hp; discriminate Hp.
  - intros ->. exists (feature "DE" 0 100), (feature "Europe/Berlin" 0 100).
    split; [right; now left|]. split; [reflexivity|]. split; [now left|].
    split; vm_compute; reflexivity.
Qed.

Lemma world_US_has_several_timezones : several_timezones cfg world "US".
Proof.
  exists "America/New_York", "America/Chicago". split; [discriminate|]. split.
  - exists (feature "US" 200 400), (feature "America/New_York" 200 300).
    split; [now left|]. split; [reflexivity|]. split; [right; now left|].
    split; vm_compute; reflexivity.
  - exists (feature "US" 200 400), (feature "America/Chicago" 300 400).
    split; [now left|]. split; [reflexivity|]. split; [right; right; now left|].
    split; vm_compute; reflexivity.
Qed.

Lemma world_US_GU_has_no_timezone (t : string) :
  ~ subdiv_qualifying_tz cfg world (subdivLayer world) "US-GU" t.
Proof.
  intros (sd & tz & Hsd & Hattr & Htz & Hp & _).
  cbn [subdivLayer tzLayer world In] in Hsd, Htz.
  destruct Hsd as [<-|[<-|[<-|[<-|[]]]]]; try discriminate Hattr;
    destruct Htz as [<-|[<-|[<-|[<-|[]]]]]; vm_compute in Hp; discriminate Hp.
Qed.

Lemma C5_witness :
  exists rows,
    country_timezone_map_cpp [("CH", "Europe_Zurich"); ("DE", "Europe_Berlin")]
    = (license_header ++ map_includes
       ++ "static constexpr const MapEntry<uint16_t> country_timezone_map[] = {" ++ nl
       ++ join (map (fun row =>
                       "    {IsoCodes::alpha2CodeToKey(" ++ dq ++ fst row ++ dq
                       ++ "), Tz::" ++ snd row ++ "}," ++ nl) rows)
       ++ "};" ++ nl) /\
    filter (fun row => String.eqb (fst row) "DE") rows = [("DE", "Europe_Berlin")] /\
    StronglySorted StrOrder.lt (map fst rows).
Proof.
  destruct (C5_country_rows insertion_order cfg world
              (country_timezone_map_cpp [("CH", "Europe_Zurich"); ("DE", "Europe_Berlin")]))
    as (rows & Htext & _ & Hone & _ & Hsorted).
  - vm_compute. left. reflexivity.
  - exists rows. split; [exact Htext|]. split; [|exact Hsorted].
    apply (Hone (feature "DE" 0 100) "Europe/Berlin"); [right; now left|].
    exact world_DE_has_one_timezone.
Defined.

Lemma C6_witness :
  exists maps lines areas tzs,
    returned (RegionToTimezoneMapTask_run insertion_order cfg world) = Ok maps /\
    subdivision_timezone_map_cpp
      [SubdivPlaceholder "US-GU"; SubdivRow "US-IL" "America_Chicago";
       SubdivRow "US-IL" "America_New_York"; SubdivRow "US-NY" "America_New_York"]
    = (license_header ++ map_includes
       ++ "static constexpr const MapEntry<uint32_t> subdivision_timezone_map[] = {" ++ nl
       ++ join (map (fun l =>
                       match l with
                       | SubdivRow subdiv tzEnum =>
                           "    {IsoCodes::subdivisionCodeToKey(" ++ dq ++ subdiv ++ dq
                           ++ "), Tz::" ++ tzEnum ++ "}," ++ nl
                       | SubdivPlaceholder subdiv => "    // " ++ subdiv ++ nl
                       end) lines)
       ++ "};" ++ nl) /\
    lookup (subdivisionToTimezoneMap maps) "US-IL" = Some areas /\
    Permutation tzs (keys areas) /\
    subdiv_data_rows "US-IL" lines = map (fun t => SubdivRow "US-IL" (tzIdToEnum t)) tzs.
Proof.
  destruct (C6_subdivision_rows insertion_order cfg world
              (subdivision_timezone_map_cpp
                 [SubdivPlaceholder "US-GU"; SubdivRow "US-IL" "America_Chicago";
                  SubdivRow "US-IL" "America_New_York";
                  SubdivRow "US-NY" "America_New_York"]))
    as (maps & lines & Hret & Htext & Hrows & _).
  - vm_compute. right. left. reflexivity.
  - destruct (Hrows (feature "US-IL" 280 400)) as (areas & tzs & Ha & _ & _ & Hp & _ & _ & Hr).
    + right. now left.
    + exact world_US_has_several_timezones.
    + exists maps, lines, areas, tzs. auto.
Defined.

Lemma C7_witness :
  exists lines,
    subdivision_timezone_map_cpp
      [SubdivPlaceholder "US-GU"; SubdivRow "US-IL" "America_Chicago";
       SubdivRow "US-IL" "America_New_York"; SubdivRow "US-NY" "America_New_York"]
    = (license_header ++ map_includes
       ++ "static constexpr const MapEntry<uint32_t> subdivision_timezone_map[] = {" ++ nl
       ++ join (map (fun l =>
                       match l with
                       | SubdivRow subdiv tzEnum =>
                           "    {IsoCodes::subdivisionCodeToKey(" ++ dq ++ subdiv ++ dq
                           ++ "), Tz::" ++ tzEnum ++ "}," ++ nl
                       | SubdivPlaceholder subdiv => "    // " ++ subdiv ++ nl
                       end) lines)
       ++ "};" ++ nl) /\
    lines_about "US-GU" lines = [SubdivPlaceholder "US-GU"].
Proof.
  destruct (C7_subdivision_placeholders insertion_order cfg world
              (subdivision_timezone_map_cpp
                 [SubdivPlaceholder "US-GU"; SubdivRow "US-IL" "America_Chicago";
                  SubdivRow "US-IL" "America_New_York";
                  SubdivRow "US-NY" "America_New_York"]))
    as (lines & Htext & _ & Hgap & _).
  - vm_compute. right. left. reflexivity.
  - exists lines. split; [exact Htext|].
    apply (Hgap (feature "US-GU" 500 600)).
    + right. right. right. now left.
    + exact world_US_has_several_timezones.
    + exact world_US_GU_has_no_timezone.
Defined.

Lemma C8_witness :
  exists lines,
    timezone_country_map_cpp [TzRow "Europe_Busingen" "DE"]
    = (license_header ++ map_includes
       ++ "static constexpr const MapEntry<uint16_t> timezone_country_map[] = {" ++ nl
       ++ join (map (fun l =>
                       match l with
                       | TzRow tzEnum country =>
                           "    {Tz::" ++ tzEnum ++ ", IsoCodes::alpha2CodeToKey("
                           ++ dq ++ country ++ dq ++ ")}," ++ nl
                       | TzPlaceholder tzEnum => "    // Tz::" ++ tzEnum ++ nl
                       end) lines)
       ++ "};" ++ nl) /\
    nth_error lines 0 = Some (TzRow "Europe_Busingen" "DE").
Proof.
  destruct (C8_disambiguation_and_rows insertion_order cfg shared
              (timezone_country_map_cpp [TzRow "Europe_Busingen" "DE"]))
    as (_ & _ & _ & _ & d & lines & Hd & _ & Htext & _ & _ & Hline).
  - vm_compute. left. reflexivity.
  - exists lines. split; [exact Htext|].
    assert (Ed : d = [("Europe/Busingen", ["CH"; "DE"])]).
    { vm_compute in Hd. now injection Hd as <-. }
    subst d.
    apply (Hline 0%nat "Europe/Busingen" ["CH"; "DE"]); reflexivity.
Defined.

End TableExamples.

(** * What a task raises, from the shared context *)

Section ContextOutcomes.

Context {engine : GeometryEngine}.

Local Open Scope string_scope.

Lemma tz_pass_raises_iff (cfg : Config) (ctx : Context) (e : exn) :
  tz_pass cfg ctx = Raise e <-> tz_raises cfg ctx e.
Proof.
  pose proof (tz_pass_outcome cfg ctx) as Hout.
  pose proof (tz_pass_divides cfg ctx) as Hdiv.
  destruct (tz_pass cfg ctx) as [d|e']; split.
  - discriminate.
  - intros (_ & tz & country & Htz & Hc & Hi & Hz). exfalso.
    destruct (Hdiv d eq_refl tz country Htz Hc Hi). destruct Hz; congruence.
  - now intros [= <-].
  - intros [-> _]. now destruct Hout as [-> _].
Qed.

Lemma country_pass_raises_iff (cfg : Config) (ctx : Context) (e : exn) :
  country_pass cfg ctx = Raise e <-> country_raises ctx e.
Proof.
  pose proof (country_pass_outcome cfg ctx) as Hout.
  pose proof (country_pass_divides cfg ctx) as Hdiv.
  destruct (country_pass cfg ctx) as [d|e']; split.
  - discriminate.
  - intros (_ & country & tz & Hc & Htz & Hi & Hz). exfalso.
    destruct (Hdiv d eq_refl country tz Hc Htz Hi). destruct Hz; congruence.
  - now intros [= <-].
  - intros [-> _]. now destruct Hout as [-> _].
Qed.

(** X20.  What each task raises, from the shared context it is given.
    The string table task raises nothing but the KeyError of tzLayer, and
    that exactly when the context lacks the layer: its index and offset
    lookups never fail.  The timezone mapper raises the KeyError of
    countryLayer exactly when that layer is missing, the KeyError of tzLayer
    exactly when the country layer is there and the timezone layer is
    missing, and otherwise exactly the ZeroDivisionError of a country with a
    code and a timezone that intersect, one of them of area zero.  The
    region mapper ends without a file written in the same three cases, the
    division being that of a timezone and any country. *)
Theorem task_failures_from_context (h : HashOrder) (cfg : Config)
  (shared : SharedContext) (e : exn) :
  (returned (TimezoneStringTableTask_run_in h shared) = Raise e <->
   e = KeyError "tzLayer" /\ ctx_tzLayer shared = None) /\
  (returned (TimezoneToCountryMapTask_run_in h cfg shared) = Raise e <->
   (e = KeyError "countryLayer" /\ ctx_countryLayer shared = None) \/
   (e = KeyError "tzLayer" /\
    ctx_countryLayer shared <> None /\ ctx_tzLayer shared = None) \/
   (exists tzs countries,
       ctx_tzLayer shared = Some tzs /\ ctx_countryLayer shared = Some countries /\
       tz_raises cfg
         {| tzLayer := tzs; countryLayer := countries; subdivLayer := [] |} e)) /\
  (written (RegionToTimezoneMapTask_run_in h cfg shared) = [] /\
   returned (RegionToTimezoneMapTask_run_in h cfg shared) = Raise e <->
   (e = KeyError "countryLayer" /\ ctx_countryLayer shared = None) \/
   (e = KeyError "tzLayer" /\
    ctx_countryLayer shared <> None /\ ctx_tzLayer shared = None) \/
   (exists tzs countries,
       ctx_tzLayer shared = Some tzs /\ ctx_countryLayer shared = Some countries /\
       country_raises
         {| tzLayer := tzs; countryLayer := countries; subdivLayer := [] |} e)).
Proof.
  destruct shared as [tzs cs sds].
  unfold TimezoneStringTableTask_run_in, TimezoneToCountryMapTask_run_in,
    RegionToTimezoneMapTask_run_in.
  cbn [ctx_tzLayer ctx_countryLayer ctx_subdivLayer].
  split; [|split].
  - destruct tzs as [tzs|]; cbn [context_get].
    + rewrite (string_table_run_eq h). cbn [returned].
      split; [discriminate | intros [_ H]; discriminate H].
    + cbn [returned]. split; [intros [= <-]; auto | intros [-> _]; reflexivity].
  - destruct cs as [cs|]; cbn [context_get].
    + destruct tzs as [tzs|]; cbn [context_get].
      * unfold TimezoneToCountryMapTask_run.
        pose proof (tz_pass_raises_iff cfg
                      {| tzLayer := tzs; countryLayer := cs; subdivLayer := [] |} e)
          as Hiff.
        destruct (tz_pass cfg _) as [d|e'].
        -- cbn [Py.bind]. rewrite tz_lines_eq. cbn [returned]. split; [discriminate|].
           intros [[_ H]|[(_ & _ & H)|(tzs' & cs' & [= <-] & [= <-] & H)]];
             try discriminate H.
           apply Hiff in H. discriminate H.
        -- cbn [Py.bind returned]. split.
           ++ intros H. injection H as <-. right. right. exists tzs, cs.
              split; [reflexivity|]. split; [reflexivity|]. now apply Hiff.
           ++ intros [[_ H]|[(_ & _ & H)|(tzs' & cs' & [= <-] & [= <-] & H)]];
                try discriminate H.
              apply Hiff in H. now injection H as <-.
      * cbn [returned]. split.
        -- intros [= <-]. right. left. split; [reflexivity|]. split; [discriminate|].
           reflexivity.
        -- intros [[_ H]|[(-> & _)|(tzs' & cs' & H & _)]];
             [discriminate H | reflexivity | discriminate H].
    + cbn [returned]. split.
      * intros [= <-]. left. auto.
      * intros [[-> _]|[(_ & H & _)|(tzs' & cs' & _ & H & _)]];
          [reflexivity | congruence | discriminate H].
  - destruct cs as [cs|]; cbn [context_get].
    + destruct tzs as [tzs|]; cbn [context_get].
      * pose proof (country_pass_raises_iff cfg
                      {| tzLayer := tzs; countryLayer := cs; subdivLayer := [] |} e)
          as Hiff.
        destruct (country_pass cfg _) as [d|e'].
        -- cbn [Py.bind]. rewrite country_rows_eq. cbn [Py.bind]. split.
           ++ intros [Hw _]. exfalso.
              destruct (subdivs <- context_get "subdivLayer" sds ;;
                        subdivToTz <- subdiv_pass cfg
                                        {| tzLayer := tzs; countryLayer := cs;
                                           subdivLayer := subdivs |} d ;;
                        lines <- subdiv_lines subdivToTz ;; Ok (subdivToTz, lines))
                as [[m lines]|e']; discriminate Hw.
           ++ intros [[_ H]|[(_ & _ & H)|(tzs' & cs' & [= <-] & [= <-] & H)]];
                try discriminate H.
              apply Hiff in H. discriminate H.
        -- cbn [Py.bind written returned]. split.
           ++ intros [_ H]. injection H as <-. right. right. exists tzs, cs.
              split; [reflexivity|]. split; [reflexivity|]. now apply Hiff.
           ++ intros [[_ H]|[(_ & _ & H)|(tzs' & cs' & [= <-] & [= <-] & H)]];
                try discriminate H.
              apply Hiff in H. injection H as <-. split; reflexivity.
      * cbn [written returned]. split.
        -- intros [_ [= <-]]. right. left. split; [reflexivity|].
           split; [discriminate | reflexivity].
        -- intros [[_ H]|[(-> & _)|(tzs' & cs' & H & _)]];
             [discriminate H | split; reflexivity | discriminate H].
    + cbn [written returned]. split.
      * intros [_ [= <-]]. left. auto.
      * intros [[-> _]|[(_ & H & _)|(tzs' & cs' & _ & H & _)]];
          [split; reflexivity | congruence | discriminate H].
Qed.

End ContextOutcomes.
